(** * ChatGateway: presence registry, message routing and call signalling

    A shallow embedding of the socket gateway class [ChatGateway]: the
    three process-wide maps [connectedUsers], [userActiveChats] and
    [activeCalls], the durable store reached through Prisma, the
    transport's set of connected sockets, the grace-period timers started
    by [handleDisconnect], and every [@SubscribeMessage] handler.

    Modelling conventions.
    - [step] and [run] take one input at a time and run its handler to
      completion: the gateway when no other input is taken up while a
      handler awaits the store. What one handler does, and what holds
      of such runs, is stated over them.
    - [sched_step] and [sched_run] split the handlers that read or write
      [activeCalls] or the calls table at their [await], so that other
      inputs, the store and other handlers are scheduled in between;
      what holds whenever handlers overlap is stated over them.
    - A JavaScript [Map] is an association list in insertion order
      ([JsMap]); [set] on a present key keeps its position.
    - An exception is [None]; a [try]/[catch] is a [match] on it.
    - [client.emit] and [server.to(room).emit] append to an output list;
      [client.join] and [console.log] leave no trace in the model, as the
      gateway never reads rooms or logs.
    - [Date.now()] and [new Date()] read the [clock] field (milliseconds).
    - [if (x)] on a string follows JavaScript truthiness: the empty string
      is falsy. *)

From stdpp Require Import base strings gmap list sorting.
From Stdlib Require Import ZArith Lia.

Local Open Scope string_scope.
Local Open Scope list_scope.
Local Open Scope Z_scope.

(** ** JavaScript [Map] with string keys *)

Module JsMap.
Abbreviation t V := (list (string * V)) (only parsing).

Section Defs.
Context {V : Type}.

Definition empty : t V := [].

Fixpoint get (k : string) (m : t V) : option V :=
  match m with
  | [] => None
  | (k', v) :: m' => if decide (k' = k) then Some v else get k m'
  end.

Definition has (k : string) (m : t V) : bool :=
  match get k m with Some _ => true | None => false end.

Fixpoint set (k : string) (v : V) (m : t V) : t V :=
  match m with
  | [] => [(k, v)]
  | (k', v') :: m' =>
      if decide (k' = k) then (k, v) :: m' else (k', v') :: set k v m'
  end.

Fixpoint delete (k : string) (m : t V) : t V :=
  match m with
  | [] => []
  | (k', v') :: m' =>
      if decide (k' = k) then delete k m' else (k', v') :: delete k m'
  end.

Definition entries (m : t V) : list (string * V) := m.

Definition keys (m : t V) : list string := fst <$> m.
End Defs.
End JsMap.

(** JavaScript truthiness of a string value and of a possibly-undefined
    string ([Map.get] result, nullable payload field). *)
Definition truthy (s : string) : bool :=
  if decide (s = "") then false else true.

Definition truthy_opt (o : option string) : bool :=
  match o with Some s => truthy s | None => false end.

(** ** Durable store (Prisma) *)

Inductive CallKind := audio | video | screen.
Inductive CallStatus := initiated | accepted | rejected | ended.
Inductive MessageKind := text | file.

Global Instance CallStatus_eq_dec : EqDecision CallStatus.
Proof. solve_decision. Defined.
Global Instance CallKind_eq_dec : EqDecision CallKind.
Proof. solve_decision. Defined.

(** The users table, referenced by the foreign keys of the calls table;
    its columns are the ones the handlers select. *)
Module User.
Record row := mk {
  id : string;
  username : string;
  email : string;
  avatar : option string
}.
(** [select: { id, username, avatar }] *)
Record brief := mkBrief {
  b_id : string;
  b_username : string;
  b_avatar : option string
}.
Definition select_brief (u : row) : brief :=
  mkBrief (id u) (username u) (avatar u).
End User.

Module CallRow.
(** Table "calls" of migration 20250724103043_add_calls. *)
Record row := mk {
  id : string;
  type : CallKind;
  status : CallStatus;
  duration : option Z;
  createdAt : Z;
  endedAt : option Z;
  callerId : string;
  receiverId : string
}.
Definition set_status (s : CallStatus) (r : row) : row :=
  mk (id r) (type r) s (duration r) (createdAt r) (endedAt r)
     (callerId r) (receiverId r).
Definition set_endedAt (e : Z) (r : row) : row :=
  mk (id r) (type r) (status r) (duration r) (createdAt r) (Some e)
     (callerId r) (receiverId r).
Definition set_duration (d : Z) (r : row) : row :=
  mk (id r) (type r) (status r) (Some d) (createdAt r) (endedAt r)
     (callerId r) (receiverId r).
End CallRow.

Module Message.
(** Modelled from the spec: the messages table, with the fields of the
    persisted record shape Message{id, content, type, fileName?,
    fileSize?, fileType?, senderId, receiverId, isRead, createdAt}. *)
Record row := mk {
  id : string;
  content : string;
  type : MessageKind;
  fileName : option string;
  fileSize : option Z;
  fileType : option string;
  senderId : string;
  receiverId : string;
  isRead : bool;
  createdAt : Z
}.
Definition mark_read (m : row) : row :=
  mk (id m) (content m) (type m) (fileName m) (fileSize m) (fileType m)
     (senderId m) (receiverId m) true (createdAt m).
(** A message row with [include: { sender, receiver }]. *)
Record full := mkFull {
  msg : row;
  sender : User.row;
  receiver : User.row
}.
End Message.

Module Store.
Record t := mk {
  users : gmap string User.row;
  calls : gmap string CallRow.row;
  messages : list Message.row
}.
Definition set_calls (c : gmap string CallRow.row) (s : t) : t :=
  mk (users s) c (messages s).
Definition set_messages (m : list Message.row) (s : t) : t :=
  mk (users s) (calls s) m.
End Store.

(** The Prisma calls the gateway makes, over the store; a call that
    throws returns [None]. *)
Module Prisma.
Definition message_ids (s : Store.t) : gset string :=
  list_to_set (Message.id <$> Store.messages s).

(** [prisma.message.create]: the foreign keys on sender and receiver
    must resolve; the store draws an unused identifier. *)
Definition message_create (s : Store.t) (now : Z)
    (content : string) (kind : MessageKind)
    (fileName : option string) (fileSize : option Z)
    (fileType : option string) (senderId receiverId : string)
    : option (Store.t * Message.full) :=
  match Store.users s !! senderId, Store.users s !! receiverId with
  | Some su, Some ru =>
      let row := Message.mk (fresh (message_ids s)) content kind
                   fileName fileSize fileType senderId receiverId
                   false now in
      Some (Store.set_messages (Store.messages s ++ [row]) s,
            Message.mkFull row su ru)
  | _, _ => None
  end.

Definition include_users (s : Store.t) (m : Message.row)
    : option Message.full :=
  match Store.users s !! Message.senderId m,
        Store.users s !! Message.receiverId m with
  | Some su, Some ru => Some (Message.mkFull m su ru)
  | _, _ => None
  end.

(** [orderBy: { createdAt: 'asc' }], stable on ties. *)
Fixpoint insert_by_createdAt (m : Message.row) (l : list Message.row)
    : list Message.row :=
  match l with
  | [] => [m]
  | x :: l' =>
      if Message.createdAt m <? Message.createdAt x
      then m :: x :: l'
      else x :: insert_by_createdAt m l'
  end.

Definition order_by_createdAt (l : list Message.row) : list Message.row :=
  foldl (fun acc m => insert_by_createdAt m acc) [] l.

Definition between (a b : string) (m : Message.row) : bool :=
  (bool_decide (Message.senderId m = a)
     && bool_decide (Message.receiverId m = b))
  || (bool_decide (Message.senderId m = b)
     && bool_decide (Message.receiverId m = a)).

(** [prisma.message.findMany] of the conversation of [a] and [b]. *)
Definition message_findMany (s : Store.t) (a b : string)
    : list Message.full :=
  omap (include_users s)
    (order_by_createdAt (List.filter (between a b) (Store.messages s))).

Definition unread_from_to (senderId receiverId : string)
    (m : Message.row) : bool :=
  bool_decide (Message.senderId m = senderId)
  && bool_decide (Message.receiverId m = receiverId)
  && negb (Message.isRead m).

(** [prisma.message.updateMany] setting [isRead]; returns the count. *)
Definition message_markRead (s : Store.t) (senderId receiverId : string)
    : Store.t * nat :=
  (Store.set_messages
     ((fun m => if unread_from_to senderId receiverId m
                then Message.mark_read m else m) <$> Store.messages s) s,
   length (List.filter (unread_from_to senderId receiverId)
             (Store.messages s))).

(** [prisma.message.groupBy] on [senderId] with [_count], folded into
    the object [{ senderId: count }]. *)
Definition message_unreadCounts (s : Store.t) (userId : string)
    : gmap string nat :=
  foldl (fun acc m =>
           if bool_decide (Message.receiverId m = userId)
              && negb (Message.isRead m)
           then <[Message.senderId m :=
                    S (default 0%nat (acc !! Message.senderId m))]> acc
           else acc)
        ∅ (Store.messages s).

(** [prisma.call.create] with status [initiated]. *)
Definition call_create (s : Store.t) (now : Z) (kind : CallKind)
    (callerId receiverId : string)
    : option (Store.t * CallRow.row * User.brief * User.brief) :=
  match Store.users s !! callerId, Store.users s !! receiverId with
  | Some cu, Some ru =>
      let row := CallRow.mk (fresh (dom (Store.calls s))) kind initiated
                   None now None callerId receiverId in
      Some (Store.set_calls (<[CallRow.id row := row]> (Store.calls s)) s,
            row, User.select_brief cu, User.select_brief ru)
  | _, _ => None
  end.

(** [prisma.call.update({ where: { id }, data })]: throws when no row
    has that id. *)
Definition call_update (s : Store.t) (id : string)
    (data : CallRow.row → CallRow.row) : option Store.t :=
  match Store.calls s !! id with
  | Some r => Some (Store.set_calls (<[id := data r]> (Store.calls s)) s)
  | None => None
  end.
End Prisma.

(** ** Transport and gateway state *)

(** A [Socket]: its id and the bearer token of its handshake
    ([client.handshake.auth.token], possibly missing). *)
Module Socket.
Record t := mk { id : string; token : option string }.
End Socket.

(** An entry of [activeCalls]: the created row with its included caller
    and receiver, and both socket ids. *)
Module Call.
Record t := mk {
  row : CallRow.row;
  caller : User.brief;
  receiver : User.brief;
  callerSocketId : string;
  receiverSocketId : string
}.
Definition id (c : t) := CallRow.id (row c).
Definition status (c : t) := CallRow.status (row c).
Definition createdAt (c : t) := CallRow.createdAt (row c).
Definition callerId (c : t) := CallRow.callerId (row c).
Definition receiverId (c : t) := CallRow.receiverId (row c).
Definition set_callerSocketId (s : string) (c : t) : t :=
  mk (row c) (caller c) (receiver c) s (receiverSocketId c).
Definition set_receiverSocketId (s : string) (c : t) : t :=
  mk (row c) (caller c) (receiver c) (callerSocketId c) s.
Definition set_status (s : CallStatus) (c : t) : t :=
  mk (CallRow.set_status s (row c)) (caller c) (receiver c)
     (callerSocketId c) (receiverSocketId c).
End Call.

(** Inbound events ([@SubscribeMessage] names) with their payloads; an
    [any]-typed payload is an opaque string. *)
Module In.
Inductive event :=
| file_webrtc_offer (targetUserId offer : string)
| file_webrtc_answer (targetUserId answer : string)
| file_webrtc_ice_candidate (targetUserId candidate : string)
| send_file_message (receiverId content fileName : string)
    (fileSize : Z) (fileType : string)
| check_user_online (userId : string)
| initiate_call (receiverId : string) (type : CallKind)
| accept_call (callId : string)
| reject_call (callId : string)
| end_call (callId : string)
| webrtc_offer (callId offer : string)
| webrtc_answer (callId answer : string)
| webrtc_ice_candidate (callId candidate : string)
| send_message (receiverId content : string)
| get_messages (otherUserId : string)
| mark_messages_read (senderId : string)
| set_active_chat (receiverId : option string)
| get_unread_counts.
End In.

(** Outbound events. [call_failed] carries either [{ reason }] or
    [{ message }]; [isReceiverOnline] is present only where the handler
    puts it in the payload. *)
Module Out.
Inductive event :=
| file_webrtc_offer (userId offer : string)
| file_webrtc_answer (userId answer : string)
| file_webrtc_ice_candidate (userId candidate : string)
| receive_message (message : Message.full) (isNewMessage : bool)
    (isReceiverOnline : option bool)
| message_sent (message : Message.full) (isReceiverOnline : option bool)
| error (message : string)
| user_online_status (userId : string) (isOnline : bool)
| call_failed (reason message : option string)
| call_initiated (callId : string)
| incoming_call (callId : string) (caller : User.brief) (type : CallKind)
| call_accepted (callId : string)
| call_rejected (callId : string)
| call_ended (callId : string)
| webrtc_offer (callId offer : string)
| webrtc_answer (callId answer : string)
| webrtc_ice_candidate (callId candidate : string)
| messages_history (messages : list Message.full)
| messages_marked_read (senderId receiverId : string)
| unread_counts (counts : gmap string nat).
End Out.

(** One emission: [client.emit(ev)] on the socket with id [client], or
    [server.to(room).emit(ev)]. *)
Inductive Emission :=
| ClientEmit (client : string) (ev : Out.event)
| ServerTo (room : string) (ev : Out.event).


Definition event_of (e : Emission) : Out.event :=
  match e with ClientEmit _ ev => ev | ServerTo _ ev => ev end.

(** A pending [setTimeout] callback of [handleDisconnect]: the captured
    [userId] and [client.id], and the time it is due. *)
Record Timer := mkTimer { due : Z; t_userId : string; t_socketId : string }.

Record Gateway := mkGateway {
  connectedUsers : JsMap.t string;    (* userId -> socketId *)
  userActiveChats : JsMap.t string;   (* userId -> activeReceiverId *)
  activeCalls : JsMap.t Call.t;       (* callId -> call info *)
  sockets : gset string;              (* server.sockets.sockets *)
  prisma : Store.t;
  timers : list Timer;
  clock : Z
}.

Definition set_connectedUsers (f : JsMap.t string → JsMap.t string)
    (g : Gateway) : Gateway :=
  mkGateway (f (connectedUsers g)) (userActiveChats g) (activeCalls g)
    (sockets g) (prisma g) (timers g) (clock g).
Definition set_userActiveChats (f : JsMap.t string → JsMap.t string)
    (g : Gateway) : Gateway :=
  mkGateway (connectedUsers g) (f (userActiveChats g)) (activeCalls g)
    (sockets g) (prisma g) (timers g) (clock g).
Definition set_activeCalls (f : JsMap.t Call.t → JsMap.t Call.t)
    (g : Gateway) : Gateway :=
  mkGateway (connectedUsers g) (userActiveChats g) (f (activeCalls g))
    (sockets g) (prisma g) (timers g) (clock g).
Definition set_sockets (f : gset string → gset string)
    (g : Gateway) : Gateway :=
  mkGateway (connectedUsers g) (userActiveChats g) (activeCalls g)
    (f (sockets g)) (prisma g) (timers g) (clock g).
Definition set_prisma (s : Store.t) (g : Gateway) : Gateway :=
  mkGateway (connectedUsers g) (userActiveChats g) (activeCalls g)
    (sockets g) s (timers g) (clock g).
Definition set_timers (f : list Timer → list Timer)
    (g : Gateway) : Gateway :=
  mkGateway (connectedUsers g) (userActiveChats g) (activeCalls g)
    (sockets g) (prisma g) (f (timers g)) (clock g).
Definition set_clock (c : Z) (g : Gateway) : Gateway :=
  mkGateway (connectedUsers g) (userActiveChats g) (activeCalls g)
    (sockets g) (prisma g) (timers g) c.

(** The gateway as constructed: empty maps. *)
Definition initial (db : Store.t) (now : Z) : Gateway :=
  mkGateway JsMap.empty JsMap.empty JsMap.empty ∅ db [] now.

(** The grace period of [handleDisconnect], in milliseconds. *)
Definition GRACE_MS : Z := 3000.

(** ** The gateway's methods *)

Section ChatGateway.

(** [JwtService.verify]: the user id ([payload.sub]) of a token that
    verifies at the given time, [None] where it throws. *)
Variable jwt_verify : Z → string → option string.

Definition Result : Type := Gateway * list Emission.

(** [this.jwtService.verify(client.handshake.auth.token).sub] *)
Definition verify (st : Gateway) (client : Socket.t) : option string :=
  Socket.token client ≫= jwt_verify (clock st).

(** [this.server.sockets.sockets.has(socketId)] *)
Definition isSocketConnected (st : Gateway) (socketId : string) : bool :=
  bool_decide (socketId ∈ sockets st).

(** [socketId && this.isSocketConnected(socketId)] *)
Definition live (st : Gateway) (socketId : string) : bool :=
  truthy socketId && isSocketConnected st socketId.

Definition sendUnreadCounts (st : Gateway) (userId : string)
    : list Emission :=
  let counts := Prisma.message_unreadCounts (prisma st) userId in
  match JsMap.get userId (connectedUsers st) with
  | Some socketId =>
      if truthy socketId then [ServerTo socketId (Out.unread_counts counts)]
      else []
  | None => []
  end.

(** The loop mutates each matching call object in place and stores it
    back under its own key. *)
Definition updateUserSocketInActiveCalls (userId newSocketId : string)
    (st : Gateway) : Gateway :=
  set_activeCalls
    (fmap (λ '(callId, call),
       if decide (Call.callerId call = userId)
       then (callId, Call.set_callerSocketId newSocketId call)
       else if decide (Call.receiverId call = userId)
       then (callId, Call.set_receiverSocketId newSocketId call)
       else (callId, call)))
    st.

(** The first entry of [connectedUsers] bound to [client.id] gets a
    timer; the loop [break]s there. *)
Definition handleDisconnect (client : Socket.t) (st : Gateway) : Gateway :=
  match List.find (λ '(_, socketId),
                     bool_decide (socketId = Socket.id client))
          (JsMap.entries (connectedUsers st)) with
  | Some (userId, _) =>
      set_timers
        (λ ts, ts ++ [mkTimer (clock st + GRACE_MS) userId
                        (Socket.id client)])
        st
  | None => st
  end.

(** [client.disconnect()]: the transport drops the socket and the
    gateway's disconnect hook runs. *)
Definition client_disconnect (client : Socket.t) (st : Gateway) : Gateway :=
  handleDisconnect client (set_sockets (λ s, s ∖ {[Socket.id client]}) st).

Definition handleConnection (client : Socket.t) (st : Gateway) : Result :=
  match verify st client with
  | Some userId =>
      let st1 := set_connectedUsers
                   (JsMap.set userId (Socket.id client)) st in
      let st2 := updateUserSocketInActiveCalls userId (Socket.id client)
                   st1 in
      (st2, sendUnreadCounts st2 userId)
  | None => (client_disconnect client st, [])
  end.

(** The three file-transfer relays differ only in the event they emit. *)
Definition relay_by_user (mk_ev : string → Out.event)
    (client : Socket.t) (targetUserId : string) (st : Gateway) : Result :=
  match verify st client with
  | Some senderId =>
      match JsMap.get targetUserId (connectedUsers st) with
      | Some targetSocketId =>
          if truthy targetSocketId
          then (st, [ServerTo targetSocketId (mk_ev senderId)])
          else (st, [])
      | None => (st, [])
      end
  | None => (st, [])
  end.

Definition handleFileWebRTCOffer client targetUserId (offer : string) :=
  relay_by_user (λ senderId, Out.file_webrtc_offer senderId offer)
    client targetUserId.

Definition handleFileWebRTCAnswer client targetUserId (answer : string) :=
  relay_by_user (λ senderId, Out.file_webrtc_answer senderId answer)
    client targetUserId.

Definition handleFileWebRTCIceCandidate client targetUserId
    (candidate : string) :=
  relay_by_user (λ senderId, Out.file_webrtc_ice_candidate senderId candidate)
    client targetUserId.

Definition handleFileMessage (client : Socket.t)
    (receiverId content fileName : string) (fileSize : Z)
    (fileType : string) (st : Gateway) : Result :=
  match verify st client with
  | Some senderId =>
      let receiverSocketId := JsMap.get receiverId (connectedUsers st) in
      let isReceiverOnline := truthy_opt receiverSocketId in
      match Prisma.message_create (prisma st) (clock st) content file
              (Some fileName) (Some fileSize) (Some fileType)
              senderId receiverId with
      | Some (db, message) =>
          let st1 := set_prisma db st in
          let to_receiver :=
            match receiverSocketId with
            | Some rs =>
                if truthy rs
                then ServerTo rs
                       (Out.receive_message message true
                          (Some isReceiverOnline))
                     :: sendUnreadCounts st1 receiverId
                else []
            | None => []
            end in
          (st1, to_receiver ++
                [ClientEmit (Socket.id client)
                   (Out.message_sent message (Some isReceiverOnline))])
      | None =>
          (st, [ClientEmit (Socket.id client)
                  (Out.error "Failed to send file message")])
      end
  | None =>
      (st, [ClientEmit (Socket.id client)
              (Out.error "Failed to send file message")])
  end.

Definition handleCheckUserOnline (client : Socket.t) (userId : string)
    (st : Gateway) : Result :=
  let isOnline := JsMap.has userId (connectedUsers st) in
  (st, [ClientEmit (Socket.id client)
          (Out.user_online_status userId isOnline)]).

Definition handleInitiateCall (client : Socket.t) (receiverId : string)
    (type : CallKind) (st : Gateway) : Result :=
  let failed := (st, [ClientEmit (Socket.id client)
                        (Out.call_failed None
                           (Some "Failed to initiate call"))]) in
  match verify st client with
  | Some callerId =>
      match JsMap.get receiverId (connectedUsers st) with
      | Some receiverSocketId =>
          if truthy receiverSocketId then
            match Prisma.call_create (prisma st) (clock st) type
                    callerId receiverId with
            | Some (db, row, caller, receiver) =>
                let call := Call.mk row caller receiver
                              (Socket.id client) receiverSocketId in
                (set_activeCalls (JsMap.set (CallRow.id row) call)
                   (set_prisma db st),
                 [ClientEmit (Socket.id client)
                    (Out.call_initiated (CallRow.id row));
                  ServerTo receiverSocketId
                    (Out.incoming_call (CallRow.id row) caller type)])
            | None => failed
            end
          else
            (st, [ClientEmit (Socket.id client)
                    (Out.call_failed (Some "User is offline") None)])
      | None =>
          (st, [ClientEmit (Socket.id client)
                  (Out.call_failed (Some "User is offline") None)])
      end
  | None => failed
  end.

Definition handleAcceptCall (client : Socket.t) (callId : string)
    (st : Gateway) : Result :=
  match JsMap.get callId (activeCalls st) with
  | None =>
      (st, [ClientEmit (Socket.id client)
              (Out.call_failed None (Some "Call not found"))])
  | Some call =>
      match Prisma.call_update (prisma st) callId
              (CallRow.set_status accepted) with
      | Some db =>
          let updatedCall :=
            Call.set_status accepted
              (Call.set_receiverSocketId (Socket.id client) call) in
          (set_activeCalls (JsMap.set callId updatedCall)
             (set_prisma db st),
           (if live st (Call.callerSocketId call)
            then [ServerTo (Call.callerSocketId call)
                    (Out.call_accepted callId)]
            else [])
           ++ [ClientEmit (Socket.id client) (Out.call_accepted callId)])
      | None =>
          (st, [ClientEmit (Socket.id client)
                  (Out.call_failed None (Some "Failed to accept call"))])
      end
  end.

Definition handleRejectCall (client : Socket.t) (callId : string)
    (st : Gateway) : Result :=
  match JsMap.get callId (activeCalls st) with
  | None => (st, [])
  | Some call =>
      match Prisma.call_update (prisma st) callId
              (λ r, CallRow.set_endedAt (clock st)
                      (CallRow.set_status rejected r)) with
      | Some db =>
          (set_activeCalls (JsMap.delete callId) (set_prisma db st),
           if live st (Call.callerSocketId call)
           then [ServerTo (Call.callerSocketId call)
                   (Out.call_rejected callId)]
           else [])
      | None =>
          (st, [ClientEmit (Socket.id client)
                  (Out.call_failed None (Some "Failed to reject call"))])
      end
  end.

(** [Math.floor((Date.now() - new Date(call.createdAt).getTime()) / 1000)] *)
Definition call_duration (now : Z) (call : Call.t) : Z :=
  (now - Call.createdAt call) / 1000.

Definition handleEndCall (client : Socket.t) (callId : string)
    (st : Gateway) : Result :=
  match JsMap.get callId (activeCalls st) with
  | None => (st, [])
  | Some call =>
      let duration := call_duration (clock st) call in
      match Prisma.call_update (prisma st) callId
              (λ r, CallRow.set_duration duration
                      (CallRow.set_endedAt (clock st)
                         (CallRow.set_status ended r))) with
      | Some db =>
          let sockets :=
            List.filter (live st)
              [Call.callerSocketId call; Call.receiverSocketId call] in
          (set_activeCalls (JsMap.delete callId) (set_prisma db st),
           (λ socketId, ServerTo socketId (Out.call_ended callId))
             <$> sockets)
      | None =>
          (st, [ClientEmit (Socket.id client)
                  (Out.call_failed None (Some "Failed to end call"))])
      end
  end.

Definition handleWebRTCOffer (client : Socket.t) (callId offer : string)
    (st : Gateway) : Result :=
  match JsMap.get callId (activeCalls st) with
  | None =>
      (st, [ClientEmit (Socket.id client)
              (Out.call_failed (Some "Call not found") None)])
  | Some call =>
      let receiverSocketId := Call.receiverSocketId call in
      if live st receiverSocketId
      then (st, [ServerTo receiverSocketId (Out.webrtc_offer callId offer)])
      else (st, [ClientEmit (Socket.id client)
                   (Out.call_failed (Some "Receiver disconnected") None)])
  end.

Definition handleWebRTCAnswer (client : Socket.t) (callId answer : string)
    (st : Gateway) : Result :=
  match JsMap.get callId (activeCalls st) with
  | None =>
      (st, [ClientEmit (Socket.id client)
              (Out.call_failed (Some "Call not found") None)])
  | Some call =>
      let callerSocketId := Call.callerSocketId call in
      if live st callerSocketId
      then (st, [ServerTo callerSocketId (Out.webrtc_answer callId answer)])
      else (st, [ClientEmit (Socket.id client)
                   (Out.call_failed (Some "Caller disconnected") None)])
  end.

Definition handleWebRTCIceCandidate (client : Socket.t)
    (callId candidate : string) (st : Gateway) : Result :=
  match JsMap.get callId (activeCalls st) with
  | None => (st, [])
  | Some call =>
      let targetSocketId :=
        if decide (Socket.id client = Call.callerSocketId call)
        then Call.receiverSocketId call
        else Call.callerSocketId call in
      if live st targetSocketId
      then (st, [ServerTo targetSocketId
                   (Out.webrtc_ice_candidate callId candidate)])
      else (st, [])
  end.

(** One turn of the loop of [handleUserDisconnectFromCalls]; a failed
    store update is caught and the turn goes on. *)
Definition endCallOnDisconnect (userId callId : string) (call : Call.t)
    (st : Gateway) : Result :=
  let st1 :=
    match Prisma.call_update (prisma st) callId
            (λ r, CallRow.set_endedAt (clock st)
                    (CallRow.set_status ended r)) with
    | Some db => set_prisma db st
    | None => st
    end in
  let otherSocketId :=
    if decide (Call.callerId call = userId)
    then Call.receiverSocketId call
    else Call.callerSocketId call in
  (set_activeCalls (JsMap.delete callId) st1,
   if live st otherSocketId
   then [ServerTo otherSocketId (Out.call_ended callId)]
   else []).

Definition involves (userId : string) (call : Call.t) : bool :=
  bool_decide (Call.callerId call = userId)
  || bool_decide (Call.receiverId call = userId).

(** The loop over [this.activeCalls.entries()]: each turn deletes only
    the entry it visits. *)
Fixpoint endCallsOf (userId : string) (es : list (string * Call.t))
    (st : Gateway) : Result :=
  match es with
  | [] => (st, [])
  | (callId, call) :: es' =>
      if involves userId call then
        let '(st1, out1) := endCallOnDisconnect userId callId call st in
        let '(st2, out2) := endCallsOf userId es' st1 in
        (st2, out1 ++ out2)
      else endCallsOf userId es' st
  end.

Definition handleUserDisconnectFromCalls (userId : string) (st : Gateway)
    : Result :=
  endCallsOf userId (JsMap.entries (activeCalls st)) st.

(** The callback given to [setTimeout] in [handleDisconnect]. *)
Definition graceExpired (userId socketId : string) (st : Gateway)
    : Result :=
  if decide (JsMap.get userId (connectedUsers st) = Some socketId) then
    handleUserDisconnectFromCalls userId
      (set_userActiveChats (JsMap.delete userId)
         (set_connectedUsers (JsMap.delete userId) st))
  else (st, []).

Definition handleMessage (client : Socket.t) (receiverId content : string)
    (st : Gateway) : Result :=
  match verify st client with
  | Some senderId =>
      match Prisma.message_create (prisma st) (clock st) content text
              None None None senderId receiverId with
      | Some (db, message) =>
          let st1 := set_prisma db st in
          let to_receiver :=
            match JsMap.get receiverId (connectedUsers st1) with
            | Some rs =>
                if truthy rs
                then ServerTo rs (Out.receive_message message true None)
                     :: sendUnreadCounts st1 receiverId
                else []
            | None => []
            end in
          (st1, to_receiver ++
                [ClientEmit (Socket.id client)
                   (Out.message_sent message None)])
      | None =>
          (st, [ClientEmit (Socket.id client)
                  (Out.error "Failed to send message")])
      end
  | None =>
      (st, [ClientEmit (Socket.id client)
              (Out.error "Failed to send message")])
  end.

Definition handleGetMessages (client : Socket.t) (otherUserId : string)
    (st : Gateway) : Result :=
  match verify st client with
  | Some currentUserId =>
      (st, [ClientEmit (Socket.id client)
              (Out.messages_history
                 (Prisma.message_findMany (prisma st) currentUserId
                    otherUserId))])
  | None =>
      (st, [ClientEmit (Socket.id client)
              (Out.error "Failed to get messages")])
  end.

Definition handleMarkMessagesRead (client : Socket.t) (senderId : string)
    (st : Gateway) : Result :=
  match verify st client with
  | Some currentUserId =>
      let '(db, _) :=
        Prisma.message_markRead (prisma st) senderId currentUserId in
      let st1 := set_prisma db st in
      (st1,
       sendUnreadCounts st1 currentUserId
       ++ match JsMap.get senderId (connectedUsers st1) with
          | Some senderSocketId =>
              if truthy senderSocketId
              then [ServerTo senderSocketId
                      (Out.messages_marked_read senderId currentUserId)]
              else []
          | None => []
          end
       ++ [ClientEmit (Socket.id client)
             (Out.messages_marked_read senderId currentUserId)])
  | None =>
      (st, [ClientEmit (Socket.id client)
              (Out.error "Failed to mark messages as read")])
  end.

Definition handleSetActiveChat (client : Socket.t)
    (receiverId : option string) (st : Gateway) : Result :=
  match verify st client with
  | Some currentUserId =>
      match receiverId with
      | Some r =>
          if truthy r then
            let st1 := set_userActiveChats (JsMap.set currentUserId r) st in
            let '(db, count) :=
              Prisma.message_markRead (prisma st1) r currentUserId in
            let st2 := set_prisma db st1 in
            (st2,
             sendUnreadCounts st2 currentUserId
             ++ if bool_decide (0 < count)%nat then
                  match JsMap.get r (connectedUsers st2) with
                  | Some senderSocketId =>
                      if truthy senderSocketId
                      then [ServerTo senderSocketId
                              (Out.messages_marked_read r currentUserId)]
                      else []
                  | None => []
                  end
                else [])
          else (set_userActiveChats (JsMap.delete currentUserId) st, [])
      | None => (set_userActiveChats (JsMap.delete currentUserId) st, [])
      end
  | None =>
      (st, [ClientEmit (Socket.id client)
              (Out.error "Failed to set active chat")])
  end.

Definition handleGetUnreadCounts (client : Socket.t) (st : Gateway)
    : Result :=
  match verify st client with
  | Some currentUserId => (st, sendUnreadCounts st currentUserId)
  | None =>
      (st, [ClientEmit (Socket.id client)
              (Out.error "Failed to get unread counts")])
  end.

(** ** Dispatch *)

Definition handle (client : Socket.t) (ev : In.event) (st : Gateway)
    : Result :=
  match ev with
  | In.file_webrtc_offer u o => handleFileWebRTCOffer client u o st
  | In.file_webrtc_answer u a => handleFileWebRTCAnswer client u a st
  | In.file_webrtc_ice_candidate u c =>
      handleFileWebRTCIceCandidate client u c st
  | In.send_file_message r c fn fs ft =>
      handleFileMessage client r c fn fs ft st
  | In.check_user_online u => handleCheckUserOnline client u st
  | In.initiate_call r ty => handleInitiateCall client r ty st
  | In.accept_call c => handleAcceptCall client c st
  | In.reject_call c => handleRejectCall client c st
  | In.end_call c => handleEndCall client c st
  | In.webrtc_offer c o => handleWebRTCOffer client c o st
  | In.webrtc_answer c a => handleWebRTCAnswer client c a st
  | In.webrtc_ice_candidate c x => handleWebRTCIceCandidate client c x st
  | In.send_message r c => handleMessage client r c st
  | In.get_messages o => handleGetMessages client o st
  | In.mark_messages_read s => handleMarkMessagesRead client s st
  | In.set_active_chat r => handleSetActiveChat client r st
  | In.get_unread_counts => handleGetUnreadCounts client st
  end.

(** What the environment does to the gateway: a socket attaches, a
    socket closes, a connected socket sends an event, time passes. *)
Inductive Input :=
| Connect (client : Socket.t)
| Disconnect (client : Socket.t)
| Receive (client : Socket.t) (ev : In.event)
| Elapse (dt : Z).

(** Timers due by [deadline] fire in the order they were set, each at
    its due time; the others stay pending. *)
Fixpoint runTimers (deadline : Z) (ts : list Timer) (st : Gateway)
    : Result * list Timer :=
  match ts with
  | [] => ((st, []), [])
  | t :: ts' =>
      if due t <=? deadline then
        let '(st1, out1) :=
          graceExpired (t_userId t) (t_socketId t)
            (set_clock (Z.max (clock st) (due t)) st) in
        let '((st2, out2), rest) := runTimers deadline ts' st1 in
        ((st2, out1 ++ out2), rest)
      else
        let '(r, rest) := runTimers deadline ts' st in
        (r, t :: rest)
  end.

(** Time passing with the gateway otherwise idle.  Each callback runs
    here to its end, teardown of the calls included, before anything
    else is handled; the callback of the source does not await
    [handleUserDisconnectFromCalls], whose loop awaits the store, and
    that suspension is modelled by [begin_timers] and
    [turn_handleUserDisconnectFromCalls] below. *)
Definition elapse (dt : Z) (st : Gateway) : Result :=
  let deadline := clock st + Z.max 0 dt in
  let '((st1, out), rest) := runTimers deadline (timers st) st in
  (set_clock deadline (set_timers (λ _, rest) st1), out).

(** One input handled from start to end with no other input taken up
    while its handler awaits the store: the runs of a gateway whose
    inputs are spaced further apart than its store round trips.  What
    is stated over [step], [run] and [reachable] is a statement about
    those runs; [sched_step] below splits the handlers of the call path
    at their awaits and lets them interleave. *)
Definition step (st : Gateway) (i : Input) : Result :=
  match i with
  | Connect client =>
      handleConnection client
        (set_sockets (λ s, {[Socket.id client]} ∪ s) st)
  | Disconnect client => (client_disconnect client st, [])
  | Receive client ev => handle client ev st
  | Elapse dt => elapse dt st
  end.

Fixpoint run (st : Gateway) (inputs : list Input) : Result :=
  match inputs with
  | [] => (st, [])
  | i :: inputs' =>
      let '(st1, out1) := step st i in
      let '(st2, out2) := run st1 inputs' in
      (st2, out1 ++ out2)
  end.

(** States the gateway can be in: started empty over some store, then
    any inputs. *)
Inductive reachable : Gateway → Prop :=
| reachable_initial db now : reachable (initial db now)
| reachable_step st i : reachable st → reachable (step st i).1.

End ChatGateway.

(** ** Vocabulary of the statements *)

(** The emission is a [call_ended] for [callId]. *)
Definition is_call_ended (callId : string) (e : Emission) : bool :=
  match event_of e with
  | Out.call_ended c => bool_decide (c = callId)
  | _ => false
  end.

(** The emission goes through [server.to(...)], that is, to a session
    chosen by the gateway rather than back on the acting socket. *)
Definition relayed (e : Emission) : bool :=
  match e with ServerTo _ _ => true | ClientEmit _ _ => false end.

(** The handlers whose body starts with [this.jwtService.verify(token)]. *)
Definition verifies_credential (ev : In.event) : bool :=
  match ev with
  | In.file_webrtc_offer _ _ | In.file_webrtc_answer _ _
  | In.file_webrtc_ice_candidate _ _ | In.send_file_message _ _ _ _ _
  | In.initiate_call _ _ | In.send_message _ _ | In.get_messages _
  | In.mark_messages_read _ | In.set_active_chat _
  | In.get_unread_counts => true
  | In.check_user_online _ | In.accept_call _ | In.reject_call _
  | In.end_call _ | In.webrtc_offer _ _ | In.webrtc_answer _ _
  | In.webrtc_ice_candidate _ _ => false
  end.

(** The events that create, change or remove an entry of [activeCalls]. *)
Definition call_control (ev : In.event) : bool :=
  match ev with
  | In.initiate_call _ _ | In.accept_call _ | In.reject_call _
  | In.end_call _ => true
  | _ => false
  end.

(** A status a call in [activeCalls] can have. *)
Definition active_status (s : CallStatus) : Prop :=
  s = initiated ∨ s = accepted.

(** The status changes the handlers write to the store. *)
Inductive performed : CallStatus → CallStatus → Prop :=
| initiated_accepted : performed initiated accepted
| accepted_accepted : performed accepted accepted
| initiated_rejected : performed initiated rejected
| accepted_rejected : performed accepted rejected
| initiated_ended : performed initiated ended
| accepted_ended : performed accepted ended.

(** Every entry of [activeCalls] is filed under its own id, mirrors its
    row in the store and is initiated or accepted; the two iterated maps
    have no duplicate key. *)
Record consistent (st : Gateway) : Prop := mkConsistent {
  calls_nodup : NoDup (JsMap.keys (activeCalls st));
  users_nodup : NoDup (JsMap.keys (connectedUsers st));
  calls_backed : ∀ callId call,
    (callId, call) ∈ activeCalls st →
    Store.calls (prisma st) !! callId = Some (Call.row call)
    ∧ Call.id call = callId
    ∧ active_status (Call.status call)
}.

(** The session of the participant other than [userId], as
    [handleUserDisconnectFromCalls] picks it. *)
Definition otherSocketId (userId : string) (call : Call.t) : string :=
  if decide (Call.callerId call = userId)
  then Call.receiverSocketId call
  else Call.callerSocketId call.

(** The relay target as the specification words it: the session of the
    other participant, found by comparing the sending session with the
    two recorded sessions. *)
Definition other_participant_session (sender : string) (call : Call.t)
    : option string :=
  if decide (sender = Call.callerSocketId call)
  then Some (Call.receiverSocketId call)
  else if decide (sender = Call.receiverSocketId call)
  then Some (Call.callerSocketId call)
  else None.

(** The emission is a [message_sent] whose payload has [isReceiverOnline]. *)
Definition ack_with_online_flag (e : Emission) : bool :=
  match e with
  | ClientEmit _ (Out.message_sent _ (Some _)) => true
  | _ => false
  end.

(** The emission is a [message_sent]. *)
Definition is_message_sent (e : Emission) : bool :=
  match event_of e with Out.message_sent _ _ => true | _ => false end.

(** What a reachable receiver gets for a new message: the message, then
    its unread counts, both on the receiver's bound socket. *)
Definition to_receiver (db : Store.t) (users : JsMap.t string)
    (receiverId : string) (message : Message.full) (flag : option bool)
    : list Emission :=
  match JsMap.get receiverId users with
  | Some rs =>
      if truthy rs
      then [ServerTo rs (Out.receive_message message true flag);
            ServerTo rs (Out.unread_counts
                           (Prisma.message_unreadCounts db receiverId))]
      else []
  | None => []
  end.

(** What [updateUserSocketInActiveCalls] does to one call. *)
Definition rebound (userId newSocketId : string) (call : Call.t) : Call.t :=
  if decide (Call.callerId call = userId)
  then Call.set_callerSocketId newSocketId call
  else if decide (Call.receiverId call = userId)
  then Call.set_receiverSocketId newSocketId call
  else call.

(** The row update of [handleUserDisconnectFromCalls]. *)
Definition ended_at (now : Z) (r : CallRow.row) : CallRow.row :=
  CallRow.set_endedAt now (CallRow.set_status ended r).

(** The notice one entry of [activeCalls] gives rise to when [userId] is
    dropped: a [call_ended] to the other participant's session if that
    session is live. *)
Definition disconnect_notice (st : Gateway) (userId : string)
    (e : string * Call.t) : list Emission :=
  if involves userId e.2 then
    if live st (otherSocketId userId e.2)
    then [ServerTo (otherSocketId userId e.2) (Out.call_ended e.1)]
    else []
  else [].

(** The ids of the entries that involve [userId]. *)
Definition involved_keys (userId : string) (es : list (string * Call.t))
    : list string :=
  (filter (λ e, Is_true (involves userId e.2)) es).*1.

(** A write to the row of call [callId]: which input makes it and what
    it stores. *)
Inductive row_write (st : Gateway) (callId : string) (r : CallRow.row)
    : Input → CallRow.row → Prop :=
| write_accept client :
    row_write st callId r (Receive client (In.accept_call callId))
      (CallRow.set_status accepted r)
| write_reject client :
    row_write st callId r (Receive client (In.reject_call callId))
      (CallRow.set_endedAt (clock st) (CallRow.set_status rejected r))
| write_end client :
    row_write st callId r (Receive client (In.end_call callId))
      (CallRow.set_duration ((clock st - CallRow.createdAt r) / 1000)
         (CallRow.set_endedAt (clock st) (CallRow.set_status ended r)))
| write_grace dt t :
    row_write st callId r (Elapse dt) (ended_at t r).

(** Timers only take calls out of the table, and rewrite the row of a
    call only as they take it out. *)
Definition grace_rel (st st' : Gateway) : Prop :=
  (∀ callId, JsMap.get callId (activeCalls st) = None →
             JsMap.get callId (activeCalls st') = None)
  ∧ (∀ callId r,
       Store.calls (prisma st) !! callId = Some r →
       ∃ r', Store.calls (prisma st') !! callId = Some r'
             ∧ (r' = r
                ∨ (is_Some (JsMap.get callId (activeCalls st))
                   ∧ JsMap.get callId (activeCalls st') = None
                   ∧ ∃ t, r' = ended_at t r))).


(** The number of entries of a map filed under key [k]. *)
Definition bindings_of {V} (k : string) (m : JsMap.t V) : nat :=
  length (filter (λ e, e.1 = k) m).

(** The number of unread messages from [senderId] to [receiverId]. *)
Definition unread_count (db : Store.t) (senderId receiverId : string) : nat :=
  length (List.filter (Prisma.unread_from_to senderId receiverId)
            (Store.messages db)).

(** A count as it shows in the unread-counts object: senders without
    unread messages have no key. *)
Definition positive_count (n : nat) : option nat :=
  match n with O => None | S _ => Some n end.

(** [server.to(connectedUsers.get(userId)).emit(ev)] behind the usual
    [if (socketId)]. *)
Definition to_bound (users : JsMap.t string) (userId : string)
    (ev : Out.event) : list Emission :=
  match JsMap.get userId users with
  | Some socketId => if truthy socketId then [ServerTo socketId ev] else []
  | None => []
  end.

(** One stored message before and after a step: unchanged, or an
    unread message now read. *)
Definition message_evolves (m m' : Message.row) : Prop :=
  m' = m ∨ (Message.isRead m = false ∧ m' = Message.mark_read m).

(** Creation-time order of messages. *)
Definition created_le (m1 m2 : Message.row) : Prop :=
  Message.createdAt m1 ≤ Message.createdAt m2.

(** Two states that agree on everything but [userActiveChats]. *)
Definition same_but_chats (a b : Gateway) : Prop :=
  connectedUsers a = connectedUsers b
  ∧ activeCalls a = activeCalls b
  ∧ sockets a = sockets b
  ∧ prisma a = prisma b
  ∧ timers a = timers b
  ∧ clock a = clock b.

(** Firing order of two pending timers. *)
Definition due_le (t1 t2 : Timer) : Prop := due t1 ≤ due t2.

(** The pending timers are listed in the order they are due, none is
    overdue, and none is due later than a whole grace period from now. *)
Definition timers_pending (st : Gateway) : Prop :=
  StronglySorted due_le (timers st)
  ∧ Forall (λ t, clock st < due t ∧ due t ≤ clock st + GRACE_MS) (timers st).

(** What a handler that starts by verifying the token emits on the
    acting socket when the token does not verify: its [catch] branch.
    The file relays only log. *)
Definition refusal (ev : In.event) : list Out.event :=
  match ev with
  | In.send_file_message _ _ _ _ _ =>
      [Out.error "Failed to send file message"]
  | In.initiate_call _ _ =>
      [Out.call_failed None (Some "Failed to initiate call")]
  | In.send_message _ _ => [Out.error "Failed to send message"]
  | In.get_messages _ => [Out.error "Failed to get messages"]
  | In.mark_messages_read _ => [Out.error "Failed to mark messages as read"]
  | In.set_active_chat _ => [Out.error "Failed to set active chat"]
  | In.get_unread_counts => [Out.error "Failed to get unread counts"]
  | _ => []
  end.







(** ** Handlers that overlap at an [await]

    [step] runs a handler to completion, which is what the gateway does
    when no other input is taken up while a handler awaits the store.
    The handlers that read or write [activeCalls] or the calls table
    ([handleInitiateCall], [handleAcceptCall], [handleRejectCall],
    [handleEndCall] and the loop of [handleUserDisconnectFromCalls],
    which the timer callback starts without awaiting it) are split here
    at their [await]: the part before it runs when the input arrives, the
    store runs the query at some later point, and the rest of the handler
    runs at some point after that. Anything may happen in between.

    The call objects live in a heap, because
    [updateUserSocketInActiveCalls] writes to the object a suspended
    handler still holds, while [handleAcceptCall] stores a copy. The
    entry list of [activeCalls] keeps emptied entries, as the language
    specifies for [Map], because the loop of
    [handleUserDisconnectFromCalls] iterates over the map while other
    handlers change it.

    The remaining handlers neither read nor write [activeCalls] or a
    call row (the in-call relays read [activeCalls] and do not await);
    they are run in one piece, through [view]. *)

(** The entry list of a JavaScript [Map]: [set] on a new key appends,
    [delete] empties the entry where it stands, and an iterator is an
    index into the list. *)
Module MapData.
Abbreviation t V := (list (option (string * V))) (only parsing).

Section Defs.
Context {V : Type}.

Fixpoint get (k : string) (m : t V) : option V :=
  match m with
  | [] => None
  | Some (k', v) :: m' => if decide (k' = k) then Some v else get k m'
  | None :: m' => get k m'
  end.

Fixpoint set (k : string) (v : V) (m : t V) : t V :=
  match m with
  | [] => [Some (k, v)]
  | Some (k', v') :: m' =>
      if decide (k' = k) then Some (k, v) :: m'
      else Some (k', v') :: set k v m'
  | None :: m' => None :: set k v m'
  end.

Fixpoint delete (k : string) (m : t V) : t V :=
  match m with
  | [] => []
  | Some (k', v') :: m' =>
      if decide (k' = k) then None :: m' else Some (k', v') :: delete k m'
  | None :: m' => None :: delete k m'
  end.

(** The entries an iteration started now would visit. *)
Definition entries (m : t V) : list (string * V) := omap id m.

End Defs.
End MapData.

(** A handler suspended at its [await], with what the rest of it still
    uses: the acting socket, the call id, the reference [call] it got
    from [activeCalls], and the values computed before the [await]. Such
    a reference always points to an object ([refers_to] below); the
    definitions fall back to the branch that does nothing where a
    lookup in the heap is written out. *)
Inductive Awaiting :=
| initiating (client : Socket.t) (type : CallKind)
    (callerId receiverId receiverSocketId : string)
| accepting (client : Socket.t) (callId : string) (call : nat)
| rejecting (client : Socket.t) (callId : string) (call : nat)
    (endedAt : Z)
| ending (client : Socket.t) (callId : string) (call : nat)
    (endedAt duration : Z)
| tearing_down (userId callId : string) (call : nat) (endedAt : Z)
    (position : nat).

(** What the store answered. *)
Inductive Outcome :=
| created (row : CallRow.row) (caller receiver : User.brief)
| updated
| threw.

Record Task := mkTask { handler : Awaiting; outcome : option Outcome }.

(** The [prisma.call.update] a suspended handler has issued: the call
    id and the data. *)
Definition update_of (h : Awaiting)
    : option (string * (CallRow.row → CallRow.row)) :=
  match h with
  | initiating _ _ _ _ _ => None
  | accepting _ callId _ => Some (callId, CallRow.set_status accepted)
  | rejecting _ callId _ endedAt =>
      Some (callId, λ r, CallRow.set_endedAt endedAt
                           (CallRow.set_status rejected r))
  | ending _ callId _ endedAt duration =>
      Some (callId, λ r, CallRow.set_duration duration
                           (CallRow.set_endedAt endedAt
                              (CallRow.set_status ended r)))
  | tearing_down _ callId _ endedAt _ =>
      Some (callId, λ r, CallRow.set_endedAt endedAt
                           (CallRow.set_status ended r))
  end.

(** The status the query of a suspended handler writes. *)
Definition written_status (h : Awaiting) : CallStatus :=
  match h with
  | initiating _ _ _ _ _ => initiated
  | accepting _ _ _ => accepted
  | rejecting _ _ _ _ => rejected
  | ending _ _ _ _ _ | tearing_down _ _ _ _ _ => ended
  end.

Module Machine.
Record t := mk {
  connectedUsers : JsMap.t string;
  userActiveChats : JsMap.t string;
  activeCalls : MapData.t nat;       (* callId -> reference *)
  objects : list Call.t;             (* a reference is an index *)
  sockets : gset string;
  prisma : Store.t;
  timers : list Timer;
  clock : Z;
  pending : list Task
}.

Definition set_activeCalls (f : MapData.t nat → MapData.t nat) (m : t)
    : t :=
  mk (connectedUsers m) (userActiveChats m) (f (activeCalls m)) (objects m)
    (sockets m) (prisma m) (timers m) (clock m) (pending m).
Definition set_objects (f : list Call.t → list Call.t) (m : t) : t :=
  mk (connectedUsers m) (userActiveChats m) (activeCalls m) (f (objects m))
    (sockets m) (prisma m) (timers m) (clock m) (pending m).
Definition set_prisma (s : Store.t) (m : t) : t :=
  mk (connectedUsers m) (userActiveChats m) (activeCalls m) (objects m)
    (sockets m) s (timers m) (clock m) (pending m).
Definition set_pending (f : list Task → list Task) (m : t) : t :=
  mk (connectedUsers m) (userActiveChats m) (activeCalls m) (objects m)
    (sockets m) (prisma m) (timers m) (clock m) (f (pending m)).

Definition initial (db : Store.t) (now : Z) : t :=
  mk JsMap.empty JsMap.empty [] [] ∅ db [] now [].
End Machine.

(** [activeCalls] with every reference replaced by the object it
    points to. *)
Definition calls_by_value (m : Machine.t) : JsMap.t Call.t :=
  omap (λ '(callId, ref), (λ call, (callId, call)) <$> Machine.objects m !! ref)
    (MapData.entries (Machine.activeCalls m)).

(** The gateway as a handler that runs in one piece sees it. *)
Definition view (m : Machine.t) : Gateway :=
  mkGateway (Machine.connectedUsers m) (Machine.userActiveChats m)
    (calls_by_value m) (Machine.sockets m) (Machine.prisma m)
    (Machine.timers m) (Machine.clock m).

(** What such a handler leaves behind; it has not touched
    [activeCalls]. *)
Definition absorb (g : Gateway) (m : Machine.t) : Machine.t :=
  Machine.mk (connectedUsers g) (userActiveChats g)
    (Machine.activeCalls m) (Machine.objects m) (sockets g) (prisma g)
    (timers g) (clock g) (Machine.pending m).

(** What is scheduled next: an input arrives, the store runs the query
    of the [n]-th suspended handler, or that handler goes on. *)
Inductive Label :=
| arrive (i : Input)
| commit (n : nat)
| resume (n : nat).

Section Overlap.

Variable jwt_verify : Z → string → option string.

Definition Outputs : Type := Machine.t * list Emission.

Definition suspend (h : Awaiting) (m : Machine.t) : Machine.t :=
  Machine.set_pending (λ ts, ts ++ [mkTask h None]) m.

(** A handler that does not await the calls table, run in one piece. *)
Definition in_one_piece (f : Gateway → Result) (m : Machine.t) : Outputs :=
  let '(g, out) := f (view m) in (absorb g m, out).

(** *** Up to the [await] *)

Definition begin_handleInitiateCall (client : Socket.t)
    (receiverId : string) (type : CallKind) (m : Machine.t) : Outputs :=
  match verify jwt_verify (view m) client with
  | Some callerId =>
      match JsMap.get receiverId (Machine.connectedUsers m) with
      | Some receiverSocketId =>
          if truthy receiverSocketId then
            (suspend (initiating client type callerId receiverId
                        receiverSocketId) m, [])
          else
            (m, [ClientEmit (Socket.id client)
                   (Out.call_failed (Some "User is offline") None)])
      | None =>
          (m, [ClientEmit (Socket.id client)
                 (Out.call_failed (Some "User is offline") None)])
      end
  | None =>
      (m, [ClientEmit (Socket.id client)
             (Out.call_failed None (Some "Failed to initiate call"))])
  end.

Definition begin_handleAcceptCall (client : Socket.t) (callId : string)
    (m : Machine.t) : Outputs :=
  match MapData.get callId (Machine.activeCalls m) with
  | None =>
      (m, [ClientEmit (Socket.id client)
             (Out.call_failed None (Some "Call not found"))])
  | Some call => (suspend (accepting client callId call) m, [])
  end.

Definition begin_handleRejectCall (client : Socket.t) (callId : string)
    (m : Machine.t) : Outputs :=
  match MapData.get callId (Machine.activeCalls m) with
  | None => (m, [])
  | Some call =>
      (suspend (rejecting client callId call (Machine.clock m)) m, [])
  end.

(** [duration] reads [call.createdAt] before the [await]; a reference
    got from [activeCalls] always points to an object. *)
Definition begin_handleEndCall (client : Socket.t) (callId : string)
    (m : Machine.t) : Outputs :=
  match MapData.get callId (Machine.activeCalls m) with
  | None => (m, [])
  | Some call =>
      match Machine.objects m !! call with
      | Some object =>
          (suspend (ending client callId call (Machine.clock m)
                      (call_duration (Machine.clock m) object)) m, [])
      | None => (m, [])
      end
  end.

(** The iterator of [this.activeCalls.entries()] from [position] on: the
    first entry that involves [userId], with its index. *)
Fixpoint next_involving (userId : string) (objects : list Call.t)
    (position : nat) (rest : MapData.t nat) : option (nat * string * nat) :=
  match rest with
  | [] => None
  | Some (callId, call) :: rest' =>
      match objects !! call with
      | Some object =>
          if involves userId object then Some (position, callId, call)
          else next_involving userId objects (S position) rest'
      | None => next_involving userId objects (S position) rest'
      end
  | None :: rest' => next_involving userId objects (S position) rest'
  end.

(** The loop of [handleUserDisconnectFromCalls] from [position] up to its
    next [await]. *)
Definition loop_handleUserDisconnectFromCalls (userId : string)
    (position : nat) (m : Machine.t) : Machine.t :=
  match next_involving userId (Machine.objects m) position
          (drop position (Machine.activeCalls m)) with
  | Some (at_, callId, call) =>
      suspend (tearing_down userId callId call (Machine.clock m) (S at_)) m
  | None => m
  end.

(** The callback given to [setTimeout]; it does not await
    [handleUserDisconnectFromCalls]. *)
Definition begin_graceExpired (userId socketId : string) (m : Machine.t)
    : Machine.t :=
  if decide (JsMap.get userId (Machine.connectedUsers m) = Some socketId)
  then
    loop_handleUserDisconnectFromCalls userId 0
      (Machine.mk (JsMap.delete userId (Machine.connectedUsers m))
         (JsMap.delete userId (Machine.userActiveChats m))
         (Machine.activeCalls m) (Machine.objects m) (Machine.sockets m)
         (Machine.prisma m) (Machine.timers m) (Machine.clock m)
         (Machine.pending m))
  else m.

(** [updateUserSocketInActiveCalls] writes to the objects themselves and
    puts each back under its own key. *)
Definition rebind_objects (userId newSocketId : string)
    (table : MapData.t nat) (objects : list Call.t) : list Call.t :=
  foldl (λ objs '(_, call),
           match objs !! call with
           | Some object =>
               if decide (Call.callerId object = userId)
               then <[call := Call.set_callerSocketId newSocketId object]>
                      objs
               else if decide (Call.receiverId object = userId)
               then <[call := Call.set_receiverSocketId newSocketId object]>
                      objs
               else objs
           | None => objs
           end)
    objects (MapData.entries table).

(** [handleConnection]; its one [await] is the closing
    [sendUnreadCounts], which touches no call and is run in one piece. *)
Definition begin_handleConnection (client : Socket.t) (m : Machine.t)
    : Outputs :=
  match verify jwt_verify (view m) client with
  | Some userId =>
      let m1 :=
        Machine.mk
          (JsMap.set userId (Socket.id client) (Machine.connectedUsers m))
          (Machine.userActiveChats m) (Machine.activeCalls m)
          (rebind_objects userId (Socket.id client)
             (Machine.activeCalls m) (Machine.objects m))
          (Machine.sockets m) (Machine.prisma m) (Machine.timers m)
          (Machine.clock m) (Machine.pending m) in
      (m1, sendUnreadCounts (view m1) userId)
  | None => in_one_piece (λ g, (client_disconnect client g, [])) m
  end.

Definition receive (client : Socket.t) (ev : In.event) (m : Machine.t)
    : Outputs :=
  match ev with
  | In.initiate_call r ty => begin_handleInitiateCall client r ty m
  | In.accept_call c => begin_handleAcceptCall client c m
  | In.reject_call c => begin_handleRejectCall client c m
  | In.end_call c => begin_handleEndCall client c m
  | _ => in_one_piece (handle jwt_verify client ev) m
  end.

(** Timers due by [deadline] fire in the order they were set, each at
    its due time; a callback emits nothing before its first [await]. *)
Fixpoint begin_timers (deadline : Z) (ts : list Timer) (m : Machine.t)
    : Machine.t * list Timer :=
  match ts with
  | [] => (m, [])
  | t :: ts' =>
      if due t <=? deadline then
        begin_timers deadline ts'
          (begin_graceExpired (t_userId t) (t_socketId t)
             (Machine.mk (Machine.connectedUsers m)
                (Machine.userActiveChats m) (Machine.activeCalls m)
                (Machine.objects m) (Machine.sockets m) (Machine.prisma m)
                (Machine.timers m) (Z.max (Machine.clock m) (due t))
                (Machine.pending m)))
      else
        let '(m1, rest) := begin_timers deadline ts' m in
        (m1, t :: rest)
  end.

Definition pass (dt : Z) (m : Machine.t) : Machine.t :=
  let deadline := Machine.clock m + Z.max 0 dt in
  let '(m1, rest) := begin_timers deadline (Machine.timers m) m in
  Machine.mk (Machine.connectedUsers m1) (Machine.userActiveChats m1)
    (Machine.activeCalls m1) (Machine.objects m1) (Machine.sockets m1)
    (Machine.prisma m1) rest deadline (Machine.pending m1).

Definition arrival (i : Input) (m : Machine.t) : Outputs :=
  match i with
  | Connect client =>
      begin_handleConnection client
        (Machine.mk (Machine.connectedUsers m) (Machine.userActiveChats m)
           (Machine.activeCalls m) (Machine.objects m)
           ({[Socket.id client]} ∪ Machine.sockets m) (Machine.prisma m)
           (Machine.timers m) (Machine.clock m) (Machine.pending m))
  | Disconnect client =>
      in_one_piece (λ g, (client_disconnect client g, [])) m
  | Receive client ev => receive client ev m
  | Elapse dt => (pass dt m, [])
  end.

(** *** The store runs the query *)

Definition settle (n : nat) (o : Outcome) (m : Machine.t) : Machine.t :=
  Machine.set_pending
    (alter (λ t, mkTask (handler t) (Some o)) n) m.

Definition run_query (n : nat) (m : Machine.t) : Machine.t :=
  match Machine.pending m !! n with
  | Some (mkTask h None) =>
      match h with
      | initiating _ type callerId receiverId _ =>
          match Prisma.call_create (Machine.prisma m) (Machine.clock m)
                  type callerId receiverId with
          | Some (db, row, caller, receiver) =>
              settle n (created row caller receiver)
                (Machine.set_prisma db m)
          | None => settle n threw m
          end
      | _ =>
          match update_of h with
          | Some (callId, data) =>
              match Prisma.call_update (Machine.prisma m) callId data with
              | Some db => settle n updated (Machine.set_prisma db m)
              | None => settle n threw m
              end
          | None => m
          end
      end
  | _ => m
  end.

(** *** After the [await] *)

(** [this.activeCalls.set(id, object)] with a new object. *)
Definition store_object (callId : string) (object : Call.t)
    (m : Machine.t) : Machine.t :=
  Machine.set_activeCalls
    (MapData.set callId (length (Machine.objects m)))
    (Machine.set_objects (λ objs, objs ++ [object]) m).

Definition end_handleInitiateCall (client : Socket.t) (type : CallKind)
    (receiverSocketId : string) (o : Outcome) (m : Machine.t) : Outputs :=
  match o with
  | created row caller receiver =>
      (store_object (CallRow.id row)
         (Call.mk row caller receiver (Socket.id client) receiverSocketId)
         m,
       [ClientEmit (Socket.id client) (Out.call_initiated (CallRow.id row));
        ServerTo receiverSocketId
          (Out.incoming_call (CallRow.id row) caller type)])
  | _ =>
      (m, [ClientEmit (Socket.id client)
             (Out.call_failed None (Some "Failed to initiate call"))])
  end.

(** [{ ...call, receiverSocketId: client.id, status: 'accepted' }] reads
    the object as it is now and is a new object. *)
Definition end_handleAcceptCall (client : Socket.t) (callId : string)
    (call : nat) (o : Outcome) (m : Machine.t) : Outputs :=
  match o, Machine.objects m !! call with
  | updated, Some object =>
      (store_object callId
         (Call.set_status accepted
            (Call.set_receiverSocketId (Socket.id client) object)) m,
       (if live (view m) (Call.callerSocketId object)
        then [ServerTo (Call.callerSocketId object)
                (Out.call_accepted callId)]
        else [])
       ++ [ClientEmit (Socket.id client) (Out.call_accepted callId)])
  | _, _ =>
      (m, [ClientEmit (Socket.id client)
             (Out.call_failed None (Some "Failed to accept call"))])
  end.

Definition end_handleRejectCall (client : Socket.t) (callId : string)
    (call : nat) (o : Outcome) (m : Machine.t) : Outputs :=
  match o, Machine.objects m !! call with
  | updated, Some object =>
      (Machine.set_activeCalls (MapData.delete callId) m,
       if live (view m) (Call.callerSocketId object)
       then [ServerTo (Call.callerSocketId object)
               (Out.call_rejected callId)]
       else [])
  | _, _ =>
      (m, [ClientEmit (Socket.id client)
             (Out.call_failed None (Some "Failed to reject call"))])
  end.

Definition end_handleEndCall (client : Socket.t) (callId : string)
    (call : nat) (o : Outcome) (m : Machine.t) : Outputs :=
  match o, Machine.objects m !! call with
  | updated, Some object =>
      (Machine.set_activeCalls (MapData.delete callId) m,
       (λ socketId, ServerTo socketId (Out.call_ended callId))
         <$> List.filter (live (view m))
               [Call.callerSocketId object; Call.receiverSocketId object])
  | _, _ =>
      (m, [ClientEmit (Socket.id client)
             (Out.call_failed None (Some "Failed to end call"))])
  end.

(** One turn of the loop after its [await] (a failed update is caught
    and the turn goes on), then the loop up to its next [await]. *)
Definition turn_handleUserDisconnectFromCalls (userId callId : string)
    (call position : nat) (m : Machine.t) : Outputs :=
  match Machine.objects m !! call with
  | Some object =>
      let otherSocketId :=
        if decide (Call.callerId object = userId)
        then Call.receiverSocketId object
        else Call.callerSocketId object in
      (loop_handleUserDisconnectFromCalls userId position
         (Machine.set_activeCalls (MapData.delete callId) m),
       if live (view m) otherSocketId
       then [ServerTo otherSocketId (Out.call_ended callId)]
       else [])
  | None => (m, [])
  end.

Definition go_on (n : nat) (m : Machine.t) : Outputs :=
  match Machine.pending m !! n with
  | Some (mkTask h (Some o)) =>
      let m1 := Machine.set_pending (delete n) m in
      match h with
      | initiating client type _ _ receiverSocketId =>
          end_handleInitiateCall client type receiverSocketId o m1
      | accepting client callId call =>
          end_handleAcceptCall client callId call o m1
      | rejecting client callId call _ =>
          end_handleRejectCall client callId call o m1
      | ending client callId call _ _ =>
          end_handleEndCall client callId call o m1
      | tearing_down userId callId call _ position =>
          turn_handleUserDisconnectFromCalls userId callId call position m1
      end
  | _ => (m, [])
  end.

(** *** Schedules *)

Definition sched_step (m : Machine.t) (l : Label) : Outputs :=
  match l with
  | arrive i => arrival i m
  | commit n => (run_query n m, [])
  | resume n => go_on n m
  end.

Fixpoint sched_run (m : Machine.t) (ls : list Label) : Outputs :=
  match ls with
  | [] => (m, [])
  | l :: ls' =>
      let '(m1, out1) := sched_step m l in
      let '(m2, out2) := sched_run m1 ls' in
      (m2, out1 ++ out2)
  end.

(** The machines the gateway can be in: started empty over some store,
    then any schedule. *)
Inductive sched_reachable : Machine.t → Prop :=
| sched_reachable_initial db now :
    sched_reachable (Machine.initial db now)
| sched_reachable_step m l :
    sched_reachable m → sched_reachable (sched_step m l).1.

End Overlap.

(** ** Vocabulary for overlapping handlers *)

(** The columns of a call row that no update writes. *)
Definition same_call (r r' : CallRow.row) : Prop :=
  CallRow.id r' = CallRow.id r
  ∧ CallRow.type r' = CallRow.type r
  ∧ CallRow.createdAt r' = CallRow.createdAt r
  ∧ CallRow.callerId r' = CallRow.callerId r
  ∧ CallRow.receiverId r' = CallRow.receiverId r.

(** The reference points to an object of the call [callId]. *)
Definition refers_to (m : Machine.t) (callId : string) (ref : nat) : Prop :=
  ∃ object, Machine.objects m !! ref = Some object ∧ Call.id object = callId.

(** What a suspended handler holds is grounded: its reference points to
    an object of its call, and the row a create has answered with is an
    initiated row of the store. *)
Definition task_grounded (m : Machine.t) (task : Task) : Prop :=
  match handler task with
  | initiating _ _ _ _ _ =>
      match outcome task with
      | Some (created row _ _) =>
          CallRow.status row = initiated
          ∧ ∃ row', Store.calls (Machine.prisma m) !! CallRow.id row
                    = Some row'
                    ∧ same_call row row'
      | _ => True
      end
  | accepting _ callId call | rejecting _ callId call _
  | ending _ callId call _ _ | tearing_down _ callId call _ _ =>
      refers_to m callId call
  end.

(** Every call object is initiated or accepted and has its row in the
    store, every entry of [activeCalls] is filed under the id of its
    object, and every suspended handler is grounded. *)
Record grounded (m : Machine.t) : Prop := mkGrounded {
  objects_backed : ∀ ref object,
    Machine.objects m !! ref = Some object →
    active_status (Call.status object)
    ∧ ∃ row, Store.calls (Machine.prisma m) !! Call.id object = Some row
             ∧ same_call (Call.row object) row;
  table_filed : ∀ callId ref,
    Some (callId, ref) ∈ Machine.activeCalls m → refers_to m callId ref;
  tasks_grounded : Forall (task_grounded m) (Machine.pending m)
}.

(** From [m] to [m'] every object is still there with its id, and
    every row with its identity. *)
Definition evolves (m m' : Machine.t) : Prop :=
  (∀ ref object,
     Machine.objects m !! ref = Some object →
     ∃ object', Machine.objects m' !! ref = Some object'
                ∧ Call.id object' = Call.id object)
  ∧ (∀ k row,
       Store.calls (Machine.prisma m) !! k = Some row →
       ∃ row', Store.calls (Machine.prisma m') !! k = Some row'
               ∧ same_call row row').

(** ** A small deployment used for worked examples *)

Module Demo.
(** Alice's token expires at 100 s; Bob's and Carol's do not. *)
Definition verify (now : Z) (tok : string) : option string :=
  if decide (tok = "tok-alice")
  then (if now <? 100000 then Some "alice" else None)
  else if decide (tok = "tok-bob") then Some "bob"
  else if decide (tok = "tok-carol") then Some "carol"
  else None.

Definition alice := User.mk "alice" "Alice" "alice@example.org" None.
Definition bob := User.mk "bob" "Bob" "bob@example.org" None.
Definition carol := User.mk "carol" "Carol" "carol@example.org" None.

Definition users : gmap string User.row :=
  <["alice" := alice]> (<["bob" := bob]> (<["carol" := carol]> ∅)).

Definition store : Store.t := Store.mk users ∅ [].

Definition sA := Socket.mk "sA" (Some "tok-alice").
Definition sA2 := Socket.mk "sA2" (Some "tok-alice").
Definition sB := Socket.mk "sB" (Some "tok-bob").
Definition sC := Socket.mk "sC" (Some "tok-carol").

(** Alice, Bob and Carol are attached. *)
Definition attached : Gateway :=
  (run verify (initial store 0) [Connect sA; Connect sB; Connect sC]).1.

(** Alice rings Bob: the store names the call "0". *)
Definition ringing : Gateway :=
  (step verify attached (Receive sA (In.initiate_call "bob" video))).1.

(** The entry of that call in [activeCalls]. *)
Definition call0 : Call.t :=
  Call.mk (CallRow.mk "0" video initiated None 0 None "alice" "bob")
    (User.select_brief alice) (User.select_brief bob) "sA" "sB".

(** Bob has accepted. *)
Definition talking : Gateway :=
  (step verify ringing (Receive sB (In.accept_call "0"))).1.

(** Bob and Alice have talked for 30.5 s. *)
Definition talked : Gateway :=
  (step verify talking (Elapse 30500)).1.

(** Bob and Alice are talking and Alice's token has expired. *)
Definition late : Gateway :=
  (step verify talking (Elapse 200000)).1.

(** Alice has rung herself. *)
Definition self_ringing : Gateway :=
  (step verify attached (Receive sA (In.initiate_call "alice" audio))).1.
End Demo.

(** ** Further states of the small deployment *)

Module Scenes.
(** Alice and Bob have written to each other: "hi" at 0 ms and "again"
    at 2000 ms from Alice, "yo" at 1000 ms from Bob; nothing is read. *)
Definition chatted : Gateway :=
  (run Demo.verify Demo.attached
     [Receive Demo.sA (In.send_message "bob" "hi"); Elapse 1000;
      Receive Demo.sB (In.send_message "alice" "yo"); Elapse 1000;
      Receive Demo.sA
        (In.send_file_message "bob" "again" "a.txt" 10 "text/plain")]).1.

(** Alice rings Bob and the row of the call is then removed from the
    store behind the gateway's back. *)
Definition orphaned : Gateway :=
  set_prisma Demo.store Demo.ringing.

(** Alice and Bob are talking and Alice's socket has just closed. *)
Definition closing : Gateway :=
  (step Demo.verify Demo.talking (Disconnect Demo.sA)).1.

(** A socket whose token no user holds. *)
Definition sX := Socket.mk "sX" (Some "tok-mallory").
End Scenes.

(** ** Schedules with overlapping handlers *)

Module Overlaps.
(** Alice, Bob and Carol attach and Alice rings Bob, one handler at a
    time: the call is "0", its object has reference 0. *)
Definition ringing : Machine.t :=
  (sched_run Demo.verify (Machine.initial Demo.store 0)
     [arrive (Connect Demo.sA); arrive (Connect Demo.sB);
      arrive (Connect Demo.sC);
      arrive (Receive Demo.sA (In.initiate_call "bob" video));
      commit 0; resume 0]).1.

(** Bob's [accept_call] is suspended at its [await]; Alice's
    [end_call], one second later, runs to its end. *)
Definition ended_while_accepting : Machine.t :=
  (sched_run Demo.verify ringing
     [arrive (Receive Demo.sB (In.accept_call "0"));
      arrive (Elapse 1000);
      arrive (Receive Demo.sA (In.end_call "0"));
      commit 1; resume 1]).1.

(** Then the store runs Bob's update and his handler goes on. *)
Definition accepted_after_end : Machine.t :=
  (sched_run Demo.verify ended_while_accepting [commit 0; resume 0]).1.


(** The same inputs with each handler run to its end before the next
    input. *)
Definition end_after_teardown : list Label :=
  [arrive (Disconnect Demo.sA); arrive (Elapse 3000);
   commit 0; resume 0;
   arrive (Receive Demo.sB (In.end_call "0"))].
End Overlaps.

(** * Properties *)

(** ** [JsMap] *)

Module JsMapFacts.
Section Facts.
Context {V : Type}.
Implicit Types (m : JsMap.t V) (k : string) (v : V).

Lemma get_set_eq k v m : JsMap.get k (JsMap.set k v m) = Some v.
Proof.
  induction m as [|[k' v'] m IH]; simpl.
  - by rewrite decide_True.
  - destruct (decide (k' = k)) as [->|Hne]; simpl.
    + by rewrite decide_True.
    + by rewrite decide_False.
Qed.

Lemma get_set_ne k k' v m :
  k ≠ k' → JsMap.get k' (JsMap.set k v m) = JsMap.get k' m.
Proof.
  intros Hne. induction m as [|[k0 v0] m IH]; simpl.
  - by rewrite decide_False.
  - destruct (decide (k0 = k)) as [->|Hne0]; simpl.
    + by rewrite !decide_False.
    + by rewrite IH.
Qed.

Lemma get_delete_eq k m : JsMap.get k (JsMap.delete k m) = None.
Proof.
  induction m as [|[k0 v0] m IH]; simpl; [done|].
  destruct (decide (k0 = k)); simpl; [done|]. by rewrite decide_False.
Qed.

Lemma get_delete_ne k k' m :
  k ≠ k' → JsMap.get k' (JsMap.delete k m) = JsMap.get k' m.
Proof.
  intros Hne. induction m as [|[k0 v0] m IH]; simpl; [done|].
  destruct (decide (k0 = k)) as [->|Hne0]; simpl.
  - by rewrite decide_False.
  - by rewrite IH.
Qed.

Lemma get_Some_elem k v m : JsMap.get k m = Some v → (k, v) ∈ m.
Proof.
  induction m as [|[k0 v0] m IH]; simpl; [done|].
  destruct (decide (k0 = k)) as [->|Hne]; intros H.
  - injection H as ->. left.
  - right. by apply IH.
Qed.

Lemma get_None_keys k m : JsMap.get k m = None ↔ k ∉ JsMap.keys m.
Proof.
  unfold JsMap.keys. induction m as [|[k0 v0] m IH]; simpl.
  - split; [intros _; apply not_elem_of_nil | done].
  - rewrite not_elem_of_cons. destruct (decide (k0 = k)) as [->|Hne].
    + split; [done | intros [? _]; done].
    + rewrite IH. naive_solver.
Qed.

Lemma elem_keys k v m : (k, v) ∈ m → k ∈ JsMap.keys m.
Proof. intros H. unfold JsMap.keys. by apply (list_elem_of_fmap_2 fst) in H. Qed.

Lemma elem_get k v m :
  NoDup (JsMap.keys m) → (k, v) ∈ m → JsMap.get k m = Some v.
Proof.
  unfold JsMap.keys. induction m as [|[k0 v0] m IH]; simpl.
  - intros _ H. by apply elem_of_nil in H.
  - intros Hnd H. apply NoDup_cons in Hnd as [Hk0 Hnd].
    apply elem_of_cons in H as [Heq|Hin].
    + injection Heq as -> ->. by rewrite decide_True.
    + destruct (decide (k0 = k)) as [->|Hne].
      * exfalso. apply Hk0. by apply (elem_keys _ v).
      * by apply IH.
Qed.

Lemma elem_delete k k' v m :
  (k', v) ∈ JsMap.delete k m ↔ (k', v) ∈ m ∧ k' ≠ k.
Proof.
  induction m as [|[k0 v0] m IH]; simpl.
  - split; [intros H; by apply elem_of_nil in H | intros [H _]; by apply elem_of_nil in H].
  - destruct (decide (k0 = k)) as [->|Hne].
    + rewrite IH, elem_of_cons. naive_solver.
    + rewrite !elem_of_cons, IH. naive_solver.
Qed.

Lemma keys_delete_sub k m : JsMap.keys (JsMap.delete k m) `sublist_of` JsMap.keys m.
Proof.
  unfold JsMap.keys. induction m as [|[k0 v0] m IH]; simpl; [done|].
  destruct (decide (k0 = k)); simpl.
  - by apply sublist_cons.
  - by apply sublist_skip.
Qed.

Lemma NoDup_delete k m :
  NoDup (JsMap.keys m) → NoDup (JsMap.keys (JsMap.delete k m)).
Proof. intros H. eapply sublist_NoDup; [done | apply keys_delete_sub]. Qed.

Lemma elem_set k k' v v' m :
  (k', v') ∈ JsMap.set k v m → (k' = k ∧ v' = v) ∨ (k', v') ∈ m.
Proof.
  induction m as [|[k0 v0] m IH]; simpl.
  - intros H. apply list_elem_of_singleton in H. injection H as -> ->. by left.
  - destruct (decide (k0 = k)) as [->|Hne]; rewrite !elem_of_cons.
    + intros [H|H]; [injection H as -> ->; by left | right; by right].
    + intros [H|H]; [right; by left |].
      destruct (IH H) as [?|?]; [by left | right; by right].
Qed.

Lemma elem_set_nodup k k' v v' m :
  NoDup (JsMap.keys m) →
  (k', v') ∈ JsMap.set k v m →
  (k' = k ∧ v' = v) ∨ ((k', v') ∈ m ∧ k' ≠ k).
Proof.
  unfold JsMap.keys. induction m as [|[k0 v0] m IH]; simpl.
  - intros _ H. apply list_elem_of_singleton in H. injection H as -> ->.
    by left.
  - intros Hnd. apply NoDup_cons in Hnd as [Hk0 Hnd].
    destruct (decide (k0 = k)) as [->|Hne]; rewrite !elem_of_cons.
    + intros [H|H]; [injection H as -> ->; by left |].
      right. split; [by right |]. intros ->. apply Hk0.
      by apply (elem_keys _ v').
    + intros [H|H]; [injection H as -> ->; right; split; [by left | done] |].
      destruct (IH Hnd H) as [?|[? ?]]; [by left |].
      right. split; [by right | done].
Qed.

Lemma delete_filter k m :
  JsMap.delete k m = filter (λ e, e.1 ≠ k) m.
Proof.
  induction m as [|[k0 v0] m IH]; [done|]. cbn [JsMap.delete].
  destruct (decide (k0 = k)) as [->|Hne].
  - rewrite filter_cons_False; [done | simpl; by intros []].
  - rewrite filter_cons_True by done. by rewrite IH.
Qed.

Lemma NoDup_filter_keys (P : string * V → Prop) `{∀ e, Decision (P e)} m :
  NoDup (JsMap.keys m) → NoDup (JsMap.keys (filter P m)).
Proof.
  intros Hnd. eapply sublist_NoDup; [done|].
  unfold JsMap.keys. apply fmap_sublist, sublist_filter.
Qed.

Lemma get_filter_None (P : string * V → Prop) `{∀ e, Decision (P e)} k m :
  JsMap.get k m = None → JsMap.get k (filter P m) = None.
Proof.
  rewrite !get_None_keys. intros Hk Hin. apply Hk.
  unfold JsMap.keys in *. apply list_elem_of_fmap in Hin as (e & -> & Hin).
  apply list_elem_of_filter in Hin as [_ Hin].
  by apply (list_elem_of_fmap_2 fst).
Qed.

Lemma get_filter_out (P : string * V → Prop) `{∀ e, Decision (P e)} k m :
  (∀ v, ¬ P (k, v)) → JsMap.get k (filter P m) = None.
Proof.
  intros Hout. apply get_None_keys. unfold JsMap.keys. intros Hin.
  apply list_elem_of_fmap in Hin as ([k' v] & Hk & Hin). simpl in Hk. subst.
  apply list_elem_of_filter in Hin as [HP _]. by apply (Hout v).
Qed.

Lemma keys_get_Some k m : k ∈ JsMap.keys m → is_Some (JsMap.get k m).
Proof.
  intros Hin. destruct (JsMap.get k m) eqn:Hget; [by eexists|].
  by apply get_None_keys in Hget.
Qed.

Lemma keys_set k v m :
  JsMap.keys (JsMap.set k v m) =
    if decide (k ∈ JsMap.keys m) then JsMap.keys m else JsMap.keys m ++ [k].
Proof.
  unfold JsMap.keys. induction m as [|[k0 v0] m IH].
  - done.
  - cbn [JsMap.set]. destruct (decide (k0 = k)) as [->|Hne].
    + rewrite !fmap_cons. cbn [fst]. rewrite decide_True; [done | left].
    + rewrite !fmap_cons. cbn [fst]. rewrite IH.
      destruct (decide (k ∈ fst <$> m)) as [Hin|Hnin].
      * rewrite decide_True; [done | by right].
      * rewrite decide_False; [done |].
        rewrite not_elem_of_cons. split; [congruence | done].
Qed.

Lemma NoDup_set k v m :
  NoDup (JsMap.keys m) → NoDup (JsMap.keys (JsMap.set k v m)).
Proof.
  intros H. rewrite keys_set. case_decide; [done|].
  apply NoDup_app. split_and!; [done | | apply NoDup_singleton].
  intros x Hx Hx'. apply list_elem_of_singleton in Hx'. by subst.
Qed.

Lemma get_has k m : JsMap.has k m = bool_decide (is_Some (JsMap.get k m)).
Proof.
  unfold JsMap.has. destruct (JsMap.get k m); symmetry.
  - apply bool_decide_eq_true. eauto.
  - apply bool_decide_eq_false. by intros [? ?].
Qed.
End Facts.
End JsMapFacts.

(** ** Calls that are not in the Call Table *)

Section Handlers.
Variable jwt_verify : Z → string → option string.
Implicit Types (st : Gateway) (client : Socket.t) (callId : string).

Lemma handleAcceptCall_absent client callId st :
  JsMap.get callId (activeCalls st) = None →
  handleAcceptCall client callId st =
    (st, [ClientEmit (Socket.id client)
            (Out.call_failed None (Some "Call not found"))]).
Proof. unfold handleAcceptCall. by intros ->. Qed.

Lemma handleRejectCall_absent client callId st :
  JsMap.get callId (activeCalls st) = None →
  handleRejectCall client callId st = (st, []).
Proof. unfold handleRejectCall. by intros ->. Qed.

Lemma handleEndCall_absent client callId st :
  JsMap.get callId (activeCalls st) = None →
  handleEndCall client callId st = (st, []).
Proof. unfold handleEndCall. by intros ->. Qed.



(** C10. For a call id that is not in [activeCalls], [reject_call] and
    [end_call] emit nothing at all, while [accept_call] emits
    [call_failed] with message "Call not found" on the acting socket. *)
Theorem absent_call_replies client callId st :
  JsMap.get callId (activeCalls st) = None →
  (handle jwt_verify client (In.reject_call callId) st).2 = []
  ∧ (handle jwt_verify client (In.end_call callId) st).2 = []
  ∧ (handle jwt_verify client (In.accept_call callId) st).2 =
      [ClientEmit (Socket.id client)
         (Out.call_failed None (Some "Call not found"))].
Proof.
  intros Habs. simpl.
  by rewrite handleRejectCall_absent, handleEndCall_absent,
    handleAcceptCall_absent.
Qed.


(** ** Credential checks *)

(** C1 (amended). The handlers that start by verifying the token
    (the file relays, both message sends, [initiate_call],
    [get_messages], [mark_messages_read], [set_active_chat],
    [get_unread_counts]) change nothing and relay nothing when the
    token does not verify: what they emit is their [catch] branch, on
    the acting socket, that is nothing (the file relays), one
    [call_failed] ([initiate_call]) or one [error] (the others).
    [check_user_online], [accept_call], [reject_call], [end_call] and
    the in-call relays never look at the token. *)
Theorem credential_gate client ev st :
  verify jwt_verify st client = None →
  (verifies_credential ev = true →
     (handle jwt_verify client ev st).1 = st
     ∧ Forall (λ e, relayed e = false) (handle jwt_verify client ev st).2
     ∧ (handle jwt_verify client ev st).2
       = ClientEmit (Socket.id client) <$> refusal ev
     ∧ (refusal ev = []
        ∨ ∃ message, refusal ev = [Out.error message]
                     ∨ refusal ev = [Out.call_failed None (Some message)]))
  ∧ (verifies_credential ev = false →
     ∀ token,
       handle jwt_verify (Socket.mk (Socket.id client) token) ev st
       = handle jwt_verify client ev st).
Proof.
  intros Hv. split.
  - destruct ev; simpl; try discriminate; intros _;
      unfold handleFileWebRTCOffer, handleFileWebRTCAnswer,
        handleFileWebRTCIceCandidate, relay_by_user, handleFileMessage,
        handleInitiateCall, handleMessage, handleGetMessages,
        handleMarkMessagesRead, handleSetActiveChat,
        handleGetUnreadCounts;
      rewrite Hv; simpl;
      (split_and!; [done | repeat constructor | done | eauto 6]).
  - destruct ev; simpl; try discriminate; intros _ token; reflexivity.
Qed.

(** ** In-call relays *)

(** C7 (amended). With the call in [activeCalls]: [webrtc_offer] goes
    to the recorded receiver session and [webrtc_answer] to the
    recorded caller session, whoever sends them; only
    [webrtc_ice_candidate] compares the sending session, going to the
    receiver session when the sender is the recorded caller session
    and to the caller session otherwise. A target that is not live
    makes the candidate vanish and the offer or answer come back as
    [call_failed] on the sending socket. No relay changes the state. *)
Theorem in_call_relay client callId payload call st :
  JsMap.get callId (activeCalls st) = Some call →
  let offer := handle jwt_verify client (In.webrtc_offer callId payload) st in
  let answer :=
    handle jwt_verify client (In.webrtc_answer callId payload) st in
  let ice :=
    handle jwt_verify client (In.webrtc_ice_candidate callId payload) st in
  let ice_target :=
    if decide (Socket.id client = Call.callerSocketId call)
    then Call.receiverSocketId call else Call.callerSocketId call in
  (offer.1 = st ∧ answer.1 = st ∧ ice.1 = st)
  ∧ offer.2 =
      (if live st (Call.receiverSocketId call)
       then [ServerTo (Call.receiverSocketId call)
               (Out.webrtc_offer callId payload)]
       else [ClientEmit (Socket.id client)
               (Out.call_failed (Some "Receiver disconnected") None)])
  ∧ answer.2 =
      (if live st (Call.callerSocketId call)
       then [ServerTo (Call.callerSocketId call)
               (Out.webrtc_answer callId payload)]
       else [ClientEmit (Socket.id client)
               (Out.call_failed (Some "Caller disconnected") None)])
  ∧ ice.2 =
      (if live st ice_target
       then [ServerTo ice_target (Out.webrtc_ice_candidate callId payload)]
       else [])
  ∧ (∀ t, other_participant_session (Socket.id client) call = Some t →
          ice_target = t).
Proof.
  intros Hget. cbn zeta. cbn [handle].
  unfold handleWebRTCOffer, handleWebRTCAnswer, handleWebRTCIceCandidate.
  rewrite Hget. cbn zeta.
  split_and!.
  - by destruct (live st (Call.receiverSocketId call)).
  - by destruct (live st (Call.callerSocketId call)).
  - by destruct (live st _).
  - by destruct (live st (Call.receiverSocketId call)).
  - by destruct (live st (Call.callerSocketId call)).
  - by destruct (live st _).
  - intros t. unfold other_participant_session.
    destruct (decide (Socket.id client = Call.callerSocketId call));
      [congruence|].
    destruct (decide (Socket.id client = Call.receiverSocketId call));
      congruence.
Qed.

(** ** Message sends *)

Lemma sendUnreadCounts_to_receiver st db receiverId message flag :
  to_receiver db (connectedUsers st) receiverId message flag =
    match JsMap.get receiverId (connectedUsers st) with
    | Some rs =>
        if truthy rs
        then ServerTo rs (Out.receive_message message true flag)
             :: sendUnreadCounts (set_prisma db st) receiverId
        else []
    | None => []
    end.
Proof.
  unfold to_receiver, sendUnreadCounts. simpl.
  destruct (JsMap.get receiverId (connectedUsers st)) as [rs|]; [|done].
  by destruct (truthy rs).
Qed.

(** C8 (amended). A send whose token verifies and whose sender and
    receiver exist in the store appends the message to the store,
    gives a reachable receiver the message and fresh unread counts,
    and then acks the sender with the stored message: with the
    receiver-online flag for [send_file_message], without any such
    flag for [send_message]. *)
Theorem message_send_ack client receiverId content senderId su ru st :
  verify jwt_verify st client = Some senderId →
  Store.users (prisma st) !! senderId = Some su →
  Store.users (prisma st) !! receiverId = Some ru →
  let online := truthy_opt (JsMap.get receiverId (connectedUsers st)) in
  let stored row :=
    Store.set_messages (Store.messages (prisma st) ++ [row]) (prisma st) in
  (∃ row,
     Message.type row = text ∧ Message.content row = content
     ∧ Message.senderId row = senderId
     ∧ Message.receiverId row = receiverId
     ∧ handle jwt_verify client (In.send_message receiverId content) st =
         (set_prisma (stored row) st,
          to_receiver (stored row) (connectedUsers st) receiverId
            (Message.mkFull row su ru) None
          ++ [ClientEmit (Socket.id client)
                (Out.message_sent (Message.mkFull row su ru) None)]))
  ∧ (∀ fileName fileSize fileType, ∃ row,
     Message.type row = file ∧ Message.content row = content
     ∧ Message.senderId row = senderId
     ∧ Message.receiverId row = receiverId
     ∧ handle jwt_verify client
         (In.send_file_message receiverId content fileName fileSize
            fileType) st =
         (set_prisma (stored row) st,
          to_receiver (stored row) (connectedUsers st) receiverId
            (Message.mkFull row su ru) (Some online)
          ++ [ClientEmit (Socket.id client)
                (Out.message_sent (Message.mkFull row su ru)
                   (Some online))])).
Proof.
  intros Hv Hs Hr. cbn zeta. split.
  - eexists. split_and!; [| | | |].
    5: { cbn [handle]. unfold handleMessage, Prisma.message_create.
         rewrite Hv, Hs, Hr. cbn zeta.
         rewrite sendUnreadCounts_to_receiver. reflexivity. }
    all: reflexivity.
  - intros fileName fileSize fileType.
    eexists. split_and!; [| | | |].
    5: { cbn [handle]. unfold handleFileMessage, Prisma.message_create.
         rewrite Hv, Hs, Hr. cbn zeta.
         rewrite sendUnreadCounts_to_receiver.
         destruct (JsMap.get receiverId (connectedUsers st)) as [rs|];
           [|reflexivity].
         simpl. destruct (truthy rs); reflexivity. }
    all: reflexivity.
Qed.

End Handlers.

(** ** The store's call rows *)

Section StoreFacts.
Implicit Types (db : Store.t) (k : string).

Lemma call_update_Some db k f r :
  Store.calls db !! k = Some r →
  Prisma.call_update db k f =
    Some (Store.set_calls (<[k := f r]> (Store.calls db)) db).
Proof. unfold Prisma.call_update. by intros ->. Qed.

Lemma call_update_None db k f :
  Store.calls db !! k = None → Prisma.call_update db k f = None.
Proof. unfold Prisma.call_update. by intros ->. Qed.

Lemma call_create_fresh db now kind a b db' row cu ru :
  Prisma.call_create db now kind a b = Some (db', row, cu, ru) →
  Store.calls db !! CallRow.id row = None
  ∧ Store.calls db' = <[CallRow.id row := row]> (Store.calls db)
  ∧ CallRow.status row = initiated
  ∧ CallRow.createdAt row = now
  ∧ CallRow.callerId row = a ∧ CallRow.receiverId row = b.
Proof.
  unfold Prisma.call_create.
  destruct (Store.users db !! a), (Store.users db !! b); try discriminate.
  intros [= <- <- _ _]. simpl. split_and!; try done.
  apply not_elem_of_dom, is_fresh.
Qed.
End StoreFacts.

(** ** The invariant of reachable states *)

Section Invariant.
Variable jwt_verify : Z → string → option string.
Implicit Types (st : Gateway) (client : Socket.t) (callId : string).

Lemma consistent_initial db now : consistent (initial db now).
Proof.
  split; simpl; try apply NoDup_nil_2.
  intros callId call H. by apply elem_of_nil in H.
Qed.

(** A step that leaves the calls, their rows and the key set of the
    presence map alone keeps the invariant. *)
Lemma consistent_frame st st' :
  activeCalls st' = activeCalls st →
  Store.calls (prisma st') = Store.calls (prisma st) →
  connectedUsers st' = connectedUsers st →
  consistent st → consistent st'.
Proof.
  intros Hc Hr Hu [H1 H2 H3]. split; [by rewrite Hc | by rewrite Hu |].
  intros callId call. rewrite Hc, Hr. apply H3.
Qed.

Lemma consistent_get st callId call :
  consistent st → JsMap.get callId (activeCalls st) = Some call →
  Store.calls (prisma st) !! callId = Some (Call.row call)
  ∧ Call.id call = callId ∧ active_status (Call.status call).
Proof.
  intros Hc Hget. apply (calls_backed _ Hc).
  by apply JsMapFacts.get_Some_elem.
Qed.

Lemma handle_frame client ev st :
  call_control ev = false →
  let st' := (handle jwt_verify client ev st).1 in
  activeCalls st' = activeCalls st
  ∧ connectedUsers st' = connectedUsers st
  ∧ Store.calls (prisma st') = Store.calls (prisma st)
  ∧ sockets st' = sockets st ∧ timers st' = timers st
  ∧ clock st' = clock st.
Proof.
  destruct ev; try discriminate; intros _; cbn zeta; cbn [handle];
    unfold handleFileWebRTCOffer, handleFileWebRTCAnswer,
      handleFileWebRTCIceCandidate, relay_by_user, handleFileMessage,
      handleCheckUserOnline, handleWebRTCOffer, handleWebRTCAnswer,
      handleWebRTCIceCandidate, handleMessage, handleGetMessages,
      handleMarkMessagesRead, handleSetActiveChat, handleGetUnreadCounts,
      Prisma.message_create, Prisma.message_markRead;
    repeat case_match; simplify_eq; simpl; done.
Qed.

Lemma updateUserSocket_keys userId s st :
  JsMap.keys (activeCalls (updateUserSocketInActiveCalls userId s st))
  = JsMap.keys (activeCalls st).
Proof.
  unfold updateUserSocketInActiveCalls, JsMap.keys. simpl.
  rewrite <- list_fmap_compose. apply list_fmap_ext.
  intros _ [k c] _. simpl. by repeat case_decide.
Qed.

Lemma updateUserSocket_elem userId s st callId call' :
  (callId, call') ∈ activeCalls (updateUserSocketInActiveCalls userId s st) →
  ∃ call, (callId, call) ∈ activeCalls st
          ∧ Call.row call' = Call.row call
          ∧ call' =
              if decide (Call.callerId call = userId)
              then Call.set_callerSocketId s call
              else if decide (Call.receiverId call = userId)
              then Call.set_receiverSocketId s call
              else call.
Proof.
  unfold updateUserSocketInActiveCalls. simpl.
  intros H. apply list_elem_of_fmap in H as ([k c] & Heq & Hin).
  exists c. repeat case_decide; simplify_eq; done.
Qed.

Lemma consistent_updateUserSocket userId s st :
  consistent st → consistent (updateUserSocketInActiveCalls userId s st).
Proof.
  intros [H1 H2 H3]. split.
  - by rewrite updateUserSocket_keys.
  - done.
  - intros callId call' H.
    apply updateUserSocket_elem in H as (call & Hin & Hrow & _).
    destruct (H3 _ _ Hin) as (Hr & Hid & Hst).
    unfold Call.id, Call.status in *. rewrite Hrow. done.
Qed.

Lemma consistent_handleDisconnect client st :
  consistent st → consistent (handleDisconnect client st).
Proof.
  unfold handleDisconnect. repeat case_match; [|done].
  by apply consistent_frame.
Qed.

Lemma consistent_client_disconnect client st :
  consistent st → consistent (client_disconnect client st).
Proof.
  intros H. apply consistent_handleDisconnect.
  revert H. by apply consistent_frame.
Qed.

Lemma consistent_handleConnection client st :
  consistent st → consistent (handleConnection jwt_verify client st).1.
Proof.
  intros H. unfold handleConnection. case_match; simpl.
  - apply consistent_updateUserSocket.
    destruct H as [H1 H2 H3]. split; simpl; [done | | done].
    by apply JsMapFacts.NoDup_set.
  - by apply consistent_client_disconnect.
Qed.

Lemma consistent_handleInitiateCall client receiverId type st :
  consistent st →
  consistent (handleInitiateCall jwt_verify client receiverId type st).1.
Proof.
  intros Hc. unfold handleInitiateCall.
  repeat case_match; simpl; try done. subst.
  match goal with H : Prisma.call_create _ _ _ _ _ = _ |- _ =>
    apply call_create_fresh in H as (Hfresh & Hcalls & Hst & _) end.
  destruct Hc as [Hnd Hnu Hback]. split; simpl.
  - by apply JsMapFacts.NoDup_set.
  - done.
  - intros callId call Hin. rewrite Hcalls.
    apply JsMapFacts.elem_set in Hin as [[-> ->]|Hin].
    + rewrite lookup_insert_eq. split_and!; [done | done | by left].
    + destruct (Hback _ _ Hin) as (Hr & Hid & Hact).
      rewrite lookup_insert_ne; [done|]. intros <-. congruence.
Qed.

(** *** Call control on a call that is in the table *)

Lemma handleAcceptCall_present client callId call st :
  consistent st → JsMap.get callId (activeCalls st) = Some call →
  handleAcceptCall client callId st =
    (set_activeCalls
       (JsMap.set callId
          (Call.set_status accepted
             (Call.set_receiverSocketId (Socket.id client) call)))
       (set_prisma
          (Store.set_calls
             (<[callId := CallRow.set_status accepted (Call.row call)]>
                (Store.calls (prisma st))) (prisma st)) st),
     (if live st (Call.callerSocketId call)
      then [ServerTo (Call.callerSocketId call) (Out.call_accepted callId)]
      else [])
     ++ [ClientEmit (Socket.id client) (Out.call_accepted callId)]).
Proof.
  intros Hc Hget. destruct (consistent_get _ _ _ Hc Hget) as (Hrow & _).
  unfold handleAcceptCall. rewrite Hget.
  by rewrite (call_update_Some _ _ _ _ Hrow).
Qed.

Lemma handleRejectCall_present client callId call st :
  consistent st → JsMap.get callId (activeCalls st) = Some call →
  handleRejectCall client callId st =
    (set_activeCalls (JsMap.delete callId)
       (set_prisma
          (Store.set_calls
             (<[callId := CallRow.set_endedAt (clock st)
                            (CallRow.set_status rejected (Call.row call))]>
                (Store.calls (prisma st))) (prisma st)) st),
     if live st (Call.callerSocketId call)
     then [ServerTo (Call.callerSocketId call) (Out.call_rejected callId)]
     else []).
Proof.
  intros Hc Hget. destruct (consistent_get _ _ _ Hc Hget) as (Hrow & _).
  unfold handleRejectCall. rewrite Hget.
  by rewrite (call_update_Some _ _ _ _ Hrow).
Qed.

Lemma handleEndCall_present client callId call st :
  consistent st → JsMap.get callId (activeCalls st) = Some call →
  handleEndCall client callId st =
    (set_activeCalls (JsMap.delete callId)
       (set_prisma
          (Store.set_calls
             (<[callId :=
                  CallRow.set_duration (call_duration (clock st) call)
                    (CallRow.set_endedAt (clock st)
                       (CallRow.set_status ended (Call.row call)))]>
                (Store.calls (prisma st))) (prisma st)) st),
     (λ socketId, ServerTo socketId (Out.call_ended callId))
       <$> List.filter (live st)
             [Call.callerSocketId call; Call.receiverSocketId call]).
Proof.
  intros Hc Hget. destruct (consistent_get _ _ _ Hc Hget) as (Hrow & _).
  unfold handleEndCall. rewrite Hget. cbn zeta.
  by rewrite (call_update_Some _ _ _ _ Hrow).
Qed.

(** Removing a call and rewriting its row keeps the invariant. *)
Lemma consistent_remove callId r st :
  consistent st →
  consistent
    (set_activeCalls (JsMap.delete callId)
       (set_prisma
          (Store.set_calls (<[callId := r]> (Store.calls (prisma st)))
             (prisma st)) st)).
Proof.
  intros [Hnd Hnu Hback]. split; simpl.
  - by apply JsMapFacts.NoDup_delete.
  - done.
  - intros k c Hin. apply JsMapFacts.elem_delete in Hin as [Hin Hne].
    rewrite lookup_insert_ne by done. by apply Hback.
Qed.

Lemma consistent_handleAcceptCall client callId st :
  consistent st → consistent (handleAcceptCall client callId st).1.
Proof.
  intros Hc.
  destruct (JsMap.get callId (activeCalls st)) as [call|] eqn:Hget.
  - rewrite (handleAcceptCall_present _ _ _ _ Hc Hget). simpl.
    destruct (consistent_get _ _ _ Hc Hget) as (Hrow & Hid & Hact).
    destruct Hc as [Hnd Hnu Hback]. split; simpl.
    + by apply JsMapFacts.NoDup_set.
    + done.
    + intros k c Hin.
      apply JsMapFacts.elem_set_nodup in Hin as [[-> ->]|[Hin Hne]];
        [| |done].
      * rewrite lookup_insert_eq. split_and!; [done | done | by right].
      * rewrite lookup_insert_ne by done. by apply Hback.
  - by rewrite handleAcceptCall_absent.
Qed.

Lemma consistent_handleRejectCall client callId st :
  consistent st → consistent (handleRejectCall client callId st).1.
Proof.
  intros Hc.
  destruct (JsMap.get callId (activeCalls st)) as [call|] eqn:Hget.
  - rewrite (handleRejectCall_present _ _ _ _ Hc Hget).
    by apply consistent_remove.
  - by rewrite handleRejectCall_absent.
Qed.

Lemma consistent_handleEndCall client callId st :
  consistent st → consistent (handleEndCall client callId st).1.
Proof.
  intros Hc.
  destruct (JsMap.get callId (activeCalls st)) as [call|] eqn:Hget.
  - rewrite (handleEndCall_present _ _ _ _ Hc Hget).
    by apply consistent_remove.
  - by rewrite handleEndCall_absent.
Qed.

Lemma consistent_handle client ev st :
  consistent st → consistent (handle jwt_verify client ev st).1.
Proof.
  intros Hc. destruct (call_control ev) eqn:Hcc.
  - destruct ev; try discriminate; cbn [handle].
    + by apply consistent_handleInitiateCall.
    + by apply consistent_handleAcceptCall.
    + by apply consistent_handleRejectCall.
    + by apply consistent_handleEndCall.
  - destruct (handle_frame client ev st Hcc) as (H1 & H2 & H3 & _).
    by eapply consistent_frame.
Qed.

(** *** Ending the calls of a dropped user *)

Lemma filter_all {A} (P : A → Prop) `{!∀ x, Decision (P x)} (l : list A) :
  (∀ x, x ∈ l → P x) → filter P l = l.
Proof.
  induction l as [|x l IH]; intros Hall; [done|].
  rewrite filter_cons_True by (apply Hall; left).
  rewrite IH; [done|]. intros y Hy. apply Hall. by right.
Qed.

Lemma involved_keys_cons userId k c es :
  involved_keys userId ((k, c) :: es) =
    if involves userId c then k :: involved_keys userId es
    else involved_keys userId es.
Proof.
  unfold involved_keys. destruct (involves userId c) eqn:Hi.
  - rewrite filter_cons_True; [done | cbn [snd]; by apply Is_true_true].
  - rewrite filter_cons_False; [done | cbn [snd]; by apply Is_true_false].
Qed.

Lemma elem_involved_keys userId k es :
  k ∈ involved_keys userId es ↔
  ∃ c, (k, c) ∈ es ∧ involves userId c = true.
Proof.
  unfold involved_keys. rewrite list_elem_of_fmap. split.
  - intros ([k' c] & -> & Hin). apply list_elem_of_filter in Hin as [Hi Hin].
    exists c. split; [done|]. by apply Is_true_true.
  - intros (c & Hin & Hi). exists (k, c). split; [done|].
    apply list_elem_of_filter. split; [|done]. cbn [snd].
    by apply Is_true_true.
Qed.

Lemma ended_at_idem now r : ended_at now (ended_at now r) = ended_at now r.
Proof. done. Qed.

Lemma disconnect_notice_sockets st st' userId e :
  sockets st' = sockets st →
  disconnect_notice st' userId e = disconnect_notice st userId e.
Proof.
  intros H. unfold disconnect_notice, live, isSocketConnected.
  by rewrite H.
Qed.

Lemma endCallOnDisconnect_spec userId k c st :
  let r := endCallOnDisconnect userId k c st in
  (connectedUsers r.1 = connectedUsers st
   ∧ userActiveChats r.1 = userActiveChats st
   ∧ sockets r.1 = sockets st ∧ timers r.1 = timers st
   ∧ clock r.1 = clock st
   ∧ Store.users (prisma r.1) = Store.users (prisma st)
   ∧ Store.messages (prisma r.1) = Store.messages (prisma st))
  ∧ activeCalls r.1 = JsMap.delete k (activeCalls st)
  ∧ (∀ callId,
       Store.calls (prisma r.1) !! callId =
         if decide (callId = k)
         then ended_at (clock st) <$> Store.calls (prisma st) !! callId
         else Store.calls (prisma st) !! callId)
  ∧ r.2 = (if live st (otherSocketId userId c)
           then [ServerTo (otherSocketId userId c) (Out.call_ended k)]
           else []).
Proof.
  cbn zeta. unfold endCallOnDisconnect, Prisma.call_update.
  destruct (Store.calls (prisma st) !! k) as [r|] eqn:Hrow; simpl;
    (split_and!; try done); intros callId;
    destruct (decide (callId = k)) as [->|Hne].
  - by rewrite lookup_insert_eq, Hrow.
  - by rewrite lookup_insert_ne.
  - by rewrite Hrow.
  - done.
Qed.

Lemma endCallsOf_spec userId es st :
  let r := endCallsOf userId es st in
  (connectedUsers r.1 = connectedUsers st
   ∧ userActiveChats r.1 = userActiveChats st
   ∧ sockets r.1 = sockets st ∧ timers r.1 = timers st
   ∧ clock r.1 = clock st
   ∧ Store.users (prisma r.1) = Store.users (prisma st)
   ∧ Store.messages (prisma r.1) = Store.messages (prisma st))
  ∧ activeCalls r.1 =
      filter (λ e, e.1 ∉ involved_keys userId es) (activeCalls st)
  ∧ (∀ callId,
       Store.calls (prisma r.1) !! callId =
         if decide (callId ∈ involved_keys userId es)
         then ended_at (clock st) <$> Store.calls (prisma st) !! callId
         else Store.calls (prisma st) !! callId)
  ∧ r.2 = es ≫= disconnect_notice st userId.
Proof.
  cbn zeta. revert st. induction es as [|[k c] es IH]; intros st.
  - simpl. split_and!; try done.
    symmetry. apply filter_all. intros x _. apply not_elem_of_nil.
  - cbn [endCallsOf]. rewrite involved_keys_cons, bind_cons.
    unfold disconnect_notice at 1. cbn [fst snd].
    destruct (involves userId c) eqn:Hinv.
    + pose proof (endCallOnDisconnect_spec userId k c st) as Hone.
      cbn zeta in Hone.
      destruct (endCallOnDisconnect userId k c st) as [st1 out1].
      specialize (IH st1).
      destruct (endCallsOf userId es st1) as [st2 out2].
      cbn [fst snd] in *.
      destruct Hone as ((E1 & E2 & E3 & E4 & E5 & E6 & E7) & Ec & Er & Eo).
      destruct IH as ((F1 & F2 & F3 & F4 & F5 & F6 & F7) & Fc & Fr & Fo).
      split_and!; try congruence.
      * rewrite Fc, Ec, JsMapFacts.delete_filter, list_filter_filter.
        apply list_filter_iff. intros [k' c']. simpl.
        rewrite not_elem_of_cons. naive_solver.
      * intros callId. rewrite Fr, Er, E5.
        destruct (decide (callId = k)) as [->|Hne].
        -- rewrite (decide_True (P := k ∈ k :: _)) by left.
           case_decide; [|done].
           destruct (Store.calls (prisma st) !! k); done.
        -- destruct (decide (callId ∈ involved_keys userId es)).
           ++ rewrite decide_True by (by right). done.
           ++ rewrite decide_False; [done|].
              rewrite not_elem_of_cons. done.
      * rewrite Eo, Fo. f_equal.
        apply list_bind_ext; [|done]. intros e.
        by apply disconnect_notice_sockets.
    + apply IH.
Qed.

Lemma consistent_endCallsOf userId es st :
  consistent st → consistent (endCallsOf userId es st).1.
Proof.
  intros [Hnd Hnu Hback].
  destruct (endCallsOf_spec userId es st)
    as ((E1 & _) & Ec & Er & _).
  split.
  - rewrite Ec. by apply JsMapFacts.NoDup_filter_keys.
  - by rewrite E1.
  - intros k c. rewrite Ec, Er. intros Hin.
    apply list_elem_of_filter in Hin as [Hk Hin]. simpl in Hk.
    rewrite decide_False by done. by apply Hback.
Qed.

Lemma consistent_graceExpired userId socketId st :
  consistent st → consistent (graceExpired userId socketId st).1.
Proof.
  intros Hc. unfold graceExpired, handleUserDisconnectFromCalls.
  case_decide; [|done].
  apply consistent_endCallsOf. destruct Hc as [Hnd Hnu Hback].
  split; simpl; [done | by apply JsMapFacts.NoDup_delete | done].
Qed.

Lemma consistent_set_clock c st : consistent st → consistent (set_clock c st).
Proof. by apply consistent_frame. Qed.

Lemma consistent_runTimers deadline ts st :
  consistent st → consistent (runTimers deadline ts st).1.1.
Proof.
  revert st. induction ts as [|t ts IH]; intros st Hc; [done|].
  cbn [runTimers]. destruct (due t <=? deadline).
  - pose proof (consistent_graceExpired (t_userId t) (t_socketId t) _
                  (consistent_set_clock (Z.max (clock st) (due t)) _ Hc))
      as Hc1.
    destruct (graceExpired _ _ _) as [st1 out1]. simpl in Hc1.
    specialize (IH st1 Hc1).
    by destruct (runTimers deadline ts st1) as [[st2 out2] rest].
  - specialize (IH st Hc).
    by destruct (runTimers deadline ts st) as [[st2 out2] rest].
Qed.

Lemma consistent_elapse dt st :
  consistent st → consistent (elapse dt st).1.
Proof.
  intros Hc. unfold elapse.
  pose proof (consistent_runTimers (clock st + Z.max 0 dt) (timers st) st Hc)
    as Hc1.
  destruct (runTimers _ _ _) as [[st1 out] rest]. simpl in *.
  revert Hc1. by apply consistent_frame.
Qed.

Lemma consistent_step st i :
  consistent st → consistent (step jwt_verify st i).1.
Proof.
  intros Hc. destruct i as [client|client|client ev|dt]; cbn [step].
  - apply consistent_handleConnection. revert Hc. by apply consistent_frame.
  - by apply consistent_client_disconnect.
  - by apply consistent_handle.
  - by apply consistent_elapse.
Qed.

Lemma reachable_consistent st : reachable jwt_verify st → consistent st.
Proof.
  induction 1 as [db now|st i _ IH].
  - apply consistent_initial.
  - by apply consistent_step.
Qed.

Lemma reachable_run st inputs :
  reachable jwt_verify st → reachable jwt_verify (run jwt_verify st inputs).1.
Proof.
  revert st. induction inputs as [|i inputs IH]; intros st Hr; [done|].
  cbn [run]. pose proof (reachable_step _ _ i Hr) as Hr1.
  destruct (step jwt_verify st i) as [st1 out1]. simpl in Hr1.
  specialize (IH st1 Hr1).
  by destruct (run jwt_verify st1 inputs) as [st2 out2].
Qed.

(** *** How one step touches a call's row *)

Lemma grace_rel_refl st st' :
  activeCalls st' = activeCalls st →
  Store.calls (prisma st') = Store.calls (prisma st) →
  grace_rel st st'.
Proof.
  intros Hc Hr. split; [by rewrite Hc|].
  intros callId r. rewrite Hr. eauto.
Qed.

Lemma grace_rel_trans st1 st2 st3 :
  grace_rel st1 st2 → grace_rel st2 st3 → grace_rel st1 st3.
Proof.
  intros [Ha Hr] [Ha' Hr']. split; [by auto|].
  intros callId r Hrow.
  destruct (Hr _ _ Hrow) as (r' & Hrow' & Hch).
  destruct (Hr' _ _ Hrow') as (r'' & Hrow'' & Hch').
  exists r''. split; [done|].
  destruct Hch as [->|(Hs & Hn & t & ->)].
  - destruct Hch' as [->|(Hs' & Hn' & t' & ->)]; [by left|].
    right. split_and!; [|done|by eexists].
    destruct (JsMap.get callId (activeCalls st1)) eqn:Hg; [by eexists|].
    rewrite (Ha _ Hg) in Hs'. by destruct Hs'.
  - destruct Hch' as [->|(Hs' & _)].
    + right. split_and!; [done | by apply Ha' | by eexists].
    + rewrite Hn in Hs'. by destruct Hs'.
Qed.

Lemma grace_rel_endCallsOf userId st0 st :
  activeCalls st0 = activeCalls st → prisma st0 = prisma st →
  grace_rel st (endCallsOf userId (activeCalls st0) st0).1.
Proof.
  intros Hc Hp.
  destruct (endCallsOf_spec userId (activeCalls st0) st0)
    as (_ & Ec & Er & _).
  rewrite Hc, Hp in *. split.
  - intros callId Hg. rewrite Ec. by apply JsMapFacts.get_filter_None.
  - intros callId r Hrow. rewrite Er, Hrow, Ec. simpl.
    case_decide as Hin; [|by eauto].
    eexists. split; [done|]. right. split_and!.
    + apply elem_involved_keys in Hin as (c & Hin & _).
      apply JsMapFacts.keys_get_Some. by apply (JsMapFacts.elem_keys _ c).
    + apply JsMapFacts.get_filter_out. intros v. simpl. by intros Hn.
    + by eexists.
Qed.

Lemma grace_rel_graceExpired userId socketId st :
  grace_rel st (graceExpired userId socketId st).1.
Proof.
  unfold graceExpired, handleUserDisconnectFromCalls, JsMap.entries.
  case_decide; [|by apply grace_rel_refl].
  by apply grace_rel_endCallsOf.
Qed.

Lemma grace_rel_runTimers deadline ts st :
  grace_rel st (runTimers deadline ts st).1.1.
Proof.
  revert st. induction ts as [|t ts IH]; intros st.
  - by apply grace_rel_refl.
  - cbn [runTimers]. destruct (due t <=? deadline).
    + pose proof (grace_rel_graceExpired (t_userId t) (t_socketId t)
                    (set_clock (Z.max (clock st) (due t)) st)) as H1.
      destruct (graceExpired _ _ _) as [st1 out1]. simpl in H1.
      specialize (IH st1).
      destruct (runTimers deadline ts st1) as [[st2 out2] rest].
      simpl in *. eapply grace_rel_trans; [|done].
      eapply grace_rel_trans; [|done]. by apply grace_rel_refl.
    + specialize (IH st).
      by destruct (runTimers deadline ts st) as [[st2 out2] rest].
Qed.

Lemma grace_rel_elapse dt st : grace_rel st (elapse dt st).1.
Proof.
  unfold elapse.
  pose proof (grace_rel_runTimers (clock st + Z.max 0 dt) (timers st) st)
    as H1.
  destruct (runTimers _ _ _) as [[st1 out] rest]. simpl in *.
  eapply grace_rel_trans; [done|]. by apply grace_rel_refl.
Qed.

(** A call that has a row but is not in the table stays out of it. *)
Lemma step_absent st i callId :
  consistent st →
  is_Some (Store.calls (prisma st) !! callId) →
  JsMap.get callId (activeCalls st) = None →
  JsMap.get callId (activeCalls (step jwt_verify st i).1) = None.
Proof.
  intros Hc [r Hrow] Habs.
  destruct i as [client|client|client ev|dt]; cbn [step].
  - unfold handleConnection. case_match; cbn [fst].
    + apply JsMapFacts.get_None_keys.
      rewrite updateUserSocket_keys. simpl.
      by apply JsMapFacts.get_None_keys.
    + unfold client_disconnect, handleDisconnect.
      by repeat case_match.
  - unfold client_disconnect, handleDisconnect. by repeat case_match.
  - destruct (call_control ev) eqn:Hcc.
    + destruct ev; try discriminate; cbn [handle].
      * unfold handleInitiateCall. repeat case_match; simpl; try done.
        subst.
        match goal with H : Prisma.call_create _ _ _ _ _ = _ |- _ =>
          apply call_create_fresh in H as (Hfresh & _) end.
        rewrite JsMapFacts.get_set_ne; [done|]. intros E. congruence.
      * destruct (JsMap.get callId0 (activeCalls st)) as [call|] eqn:Hg.
        -- rewrite (handleAcceptCall_present _ _ _ _ Hc Hg). simpl.
           rewrite JsMapFacts.get_set_ne; [done|]. intros ->. congruence.
        -- by rewrite handleAcceptCall_absent.
      * destruct (JsMap.get callId0 (activeCalls st)) as [call|] eqn:Hg.
        -- rewrite (handleRejectCall_present _ _ _ _ Hc Hg). simpl.
           rewrite JsMapFacts.get_delete_ne; [done|]. intros ->. congruence.
        -- by rewrite handleRejectCall_absent.
      * destruct (JsMap.get callId0 (activeCalls st)) as [call|] eqn:Hg.
        -- rewrite (handleEndCall_present _ _ _ _ Hc Hg). simpl.
           rewrite JsMapFacts.get_delete_ne; [done|]. intros ->. congruence.
        -- by rewrite handleEndCall_absent.
    + destruct (handle_frame client ev st Hcc) as (-> & _). done.
  - by apply (grace_rel_elapse dt st).
Qed.

Lemma step_rows st i callId r :
  consistent st →
  Store.calls (prisma st) !! callId = Some r →
  ∃ r', Store.calls (prisma (step jwt_verify st i).1) !! callId = Some r'
        ∧ (r' = r
           ∨ (is_Some (JsMap.get callId (activeCalls st))
              ∧ row_write st callId r i r')).
Proof.
  intros Hc Hrow.
  destruct i as [client|client|client ev|dt]; cbn [step].
  - exists r. split; [|by left].
    unfold handleConnection. case_match; simpl; [done|].
    unfold client_disconnect, handleDisconnect. by repeat case_match.
  - exists r. split; [|by left].
    unfold client_disconnect, handleDisconnect. by repeat case_match.
  - destruct (call_control ev) eqn:Hcc.
    + destruct ev; try discriminate; cbn [handle].
      * exists r. split; [|by left].
        unfold handleInitiateCall. repeat case_match; simpl; try done.
        subst.
        match goal with H : Prisma.call_create _ _ _ _ _ = _ |- _ =>
          apply call_create_fresh in H as (Hfresh & -> & _) end.
        rewrite lookup_insert_ne; [done|]. intros E. congruence.
      * destruct (JsMap.get callId0 (activeCalls st)) as [call|] eqn:Hg.
        -- rewrite (handleAcceptCall_present _ _ _ _ Hc Hg). simpl.
           destruct (decide (callId0 = callId)) as [->|Hne].
           ++ destruct (consistent_get _ _ _ Hc Hg) as (Hrow' & _).
              rewrite lookup_insert_eq. eexists. split; [done|].
              right. split; [by eexists|].
              assert (Call.row call = r) as -> by congruence. constructor.
           ++ rewrite lookup_insert_ne by done. eauto.
        -- rewrite handleAcceptCall_absent by done. eauto.
      * destruct (JsMap.get callId0 (activeCalls st)) as [call|] eqn:Hg.
        -- rewrite (handleRejectCall_present _ _ _ _ Hc Hg). simpl.
           destruct (decide (callId0 = callId)) as [->|Hne].
           ++ destruct (consistent_get _ _ _ Hc Hg) as (Hrow' & _).
              rewrite lookup_insert_eq. eexists. split; [done|].
              right. split; [by eexists|].
              assert (Call.row call = r) as -> by congruence. constructor.
           ++ rewrite lookup_insert_ne by done. eauto.
        -- rewrite handleRejectCall_absent by done. eauto.
      * destruct (JsMap.get callId0 (activeCalls st)) as [call|] eqn:Hg.
        -- rewrite (handleEndCall_present _ _ _ _ Hc Hg). simpl.
           destruct (decide (callId0 = callId)) as [->|Hne].
           ++ destruct (consistent_get _ _ _ Hc Hg) as (Hrow' & _).
              rewrite lookup_insert_eq. eexists. split; [done|].
              right. split; [by eexists|].
              unfold call_duration, Call.createdAt.
              assert (Call.row call = r) as -> by congruence. constructor.
           ++ rewrite lookup_insert_ne by done. eauto.
        -- rewrite handleEndCall_absent by done. eauto.
    + destruct (handle_frame client ev st Hcc) as (_ & _ & -> & _). eauto.
  - destruct (grace_rel_elapse dt st) as [_ Hr].
    destruct (Hr _ _ Hrow) as (r' & Hrow' & [->|(Hs & _ & t & ->)]).
    + eauto.
    + exists (ended_at t r). split; [done|]. right. split; [done|].
      constructor.
Qed.

(** A row whose call has left the table is never written again. *)
Lemma settled_run st inputs callId r :
  consistent st →
  Store.calls (prisma st) !! callId = Some r →
  JsMap.get callId (activeCalls st) = None →
  Store.calls (prisma (run jwt_verify st inputs).1) !! callId = Some r.
Proof.
  revert st. induction inputs as [|i inputs IH]; intros st Hc Hrow Habs;
    [done|].
  cbn [run].
  pose proof (consistent_step st i Hc) as Hc1.
  pose proof (step_absent st i callId Hc (mk_is_Some _ _ Hrow) Habs) as Habs1.
  destruct (step_rows st i callId r Hc Hrow) as (r' & Hrow1 & Hch).
  destruct Hch as [->|[Hs _]]; [|rewrite Habs in Hs; by destruct Hs].
  destruct (step jwt_verify st i) as [st1 out1]. simpl in *.
  specialize (IH st1 Hc1 Hrow1 Habs1).
  by destruct (run jwt_verify st1 inputs) as [st2 out2].
Qed.



(** ** accept_call *)

(** C3 (amended). [accept_call] from any session, on a call that is in
    [activeCalls], sets the durable record and the entry to accepted,
    stores the accepting session as the receiver session, tells the
    caller session if it is live and then the accepting session. The
    handler does not compare the accepting session with the receiver's
    current session. *)
Theorem accept_call_effect client callId call st :
  reachable jwt_verify st →
  JsMap.get callId (activeCalls st) = Some call →
  let r := handle jwt_verify client (In.accept_call callId) st in
  JsMap.get callId (activeCalls r.1) =
    Some (Call.set_status accepted
            (Call.set_receiverSocketId (Socket.id client) call))
  ∧ Store.calls (prisma r.1) !! callId =
      Some (CallRow.set_status accepted (Call.row call))
  ∧ r.2 =
      (if live st (Call.callerSocketId call)
       then [ServerTo (Call.callerSocketId call) (Out.call_accepted callId)]
       else [])
      ++ [ClientEmit (Socket.id client) (Out.call_accepted callId)].
Proof.
  intros Hreach Hg. pose proof (reachable_consistent _ Hreach) as Hc.
  cbn zeta. cbn [handle].
  rewrite (handleAcceptCall_present _ _ _ _ Hc Hg). simpl.
  split_and!; [apply JsMapFacts.get_set_eq | apply lookup_insert_eq | done].
Qed.

(** ** end_call *)

(** C9. [end_call] on a call that is in [activeCalls] takes the whole
    seconds elapsed since the call's [createdAt] as its duration,
    writes status ended, the end time and that duration to the durable
    record, emits [call_ended] to the caller session and to the
    receiver session when live, and removes the call; nothing writes
    that record afterwards. *)
Theorem end_call_effect client callId call st :
  reachable jwt_verify st →
  JsMap.get callId (activeCalls st) = Some call →
  let r := handle jwt_verify client (In.end_call callId) st in
  let duration := (clock st - Call.createdAt call) / 1000 in
  let row' :=
    CallRow.set_duration duration
      (CallRow.set_endedAt (clock st)
         (CallRow.set_status ended (Call.row call))) in
  Store.calls (prisma st) !! callId = Some (Call.row call)
  ∧ 1000 * duration ≤ clock st - Call.createdAt call < 1000 * duration + 1000
  ∧ Store.calls (prisma r.1) !! callId = Some row'
  ∧ r.2 =
      (λ socketId, ServerTo socketId (Out.call_ended callId))
        <$> List.filter (live st)
              [Call.callerSocketId call; Call.receiverSocketId call]
  ∧ JsMap.get callId (activeCalls r.1) = None
  ∧ ∀ inputs,
      Store.calls (prisma (run jwt_verify r.1 inputs).1) !! callId
      = Some row'.
Proof.
  intros Hreach Hg. pose proof (reachable_consistent _ Hreach) as Hc.
  destruct (consistent_get _ _ _ Hc Hg) as (Hrow & _).
  cbn zeta. cbn [handle].
  pose proof (consistent_handleEndCall client callId st Hc) as Hc'.
  rewrite (handleEndCall_present _ _ _ _ Hc Hg) in *.
  cbn [fst snd] in *.
  assert (Hgone : JsMap.get callId
            (activeCalls (set_activeCalls (JsMap.delete callId)
               (set_prisma
                  (Store.set_calls
                     (<[callId :=
                          CallRow.set_duration
                            (call_duration (clock st) call)
                            (CallRow.set_endedAt (clock st)
                               (CallRow.set_status ended (Call.row call)))]>
                        (Store.calls (prisma st))) (prisma st)) st)))
            = None) by apply JsMapFacts.get_delete_eq.
  split_and!.
  - done.
  - apply Z.mul_div_le. lia.
  - pose proof (Z.mul_succ_div_gt (clock st - Call.createdAt call) 1000).
    lia.
  - simpl. apply lookup_insert_eq.
  - done.
  - done.
  - intros inputs. apply settled_run; [done | | done].
    simpl. apply lookup_insert_eq.
Qed.

(** ** The grace period *)





Lemma graceExpired_stale userId socketId st :
  JsMap.get userId (connectedUsers st) ≠ Some socketId →
  graceExpired userId socketId st = (st, []).
Proof. intros H. unfold graceExpired. by rewrite decide_False. Qed.


Lemma notices_once st userId callId (m : list (string * Call.t)) :
  NoDup (JsMap.keys m) →
  (length (List.filter (is_call_ended callId)
             (m ≫= disconnect_notice st userId)) ≤ 1)%nat.
Proof.
  unfold JsMap.keys.
  assert (Hnone : ∀ m' : list (string * Call.t),
            callId ∉ m'.*1 →
            List.filter (is_call_ended callId)
              (m' ≫= disconnect_notice st userId) = []).
  { induction m' as [|[k c] m' IH]; [done|]. intros Hk.
    apply not_elem_of_cons in Hk as [Hne Hk]. simpl in Hne.
    rewrite bind_cons, List.filter_app, (IH Hk), app_nil_r.
    unfold disconnect_notice. simpl.
    destruct (involves userId c); [|done].
    destruct (live st _); [|done]. simpl. unfold is_call_ended. simpl.
    by rewrite bool_decide_eq_false_2. }
  induction m as [|[k c] m IH]; intros Hnd; [simpl; lia|].
  apply NoDup_cons in Hnd as [Hk Hnd]. simpl in Hk.
  rewrite bind_cons, List.filter_app, length_app.
  destruct (decide (callId = k)) as [->|Hne].
  - rewrite (Hnone m Hk). simpl.
    unfold disconnect_notice. simpl.
    destruct (involves userId c); [|simpl; lia].
    destruct (live st _); simpl; [|lia].
    destruct (is_call_ended k _); simpl; lia.
  - specialize (IH Hnd).
    assert (List.filter (is_call_ended callId)
              (disconnect_notice st userId (k, c)) = []) as ->; [|simpl; lia].
    unfold disconnect_notice. simpl.
    destruct (involves userId c); [|done].
    destruct (live st _); [|done]. simpl. unfold is_call_ended. simpl.
    by rewrite bool_decide_eq_false_2.
Qed.

Lemma run_cons st i inputs :
  run jwt_verify st (i :: inputs) =
    ((run jwt_verify (step jwt_verify st i).1 inputs).1,
     (step jwt_verify st i).2
     ++ (run jwt_verify (step jwt_verify st i).1 inputs).2).
Proof.
  cbn [run]. destruct (step jwt_verify st i) as [st1 out1]. cbn [fst snd].
  by destruct (run jwt_verify st1 inputs) as [st2 out2].
Qed.

Lemma step_Disconnect_bound client userId socketId st :
  List.find (λ '(_, s), bool_decide (s = Socket.id client))
    (JsMap.entries (connectedUsers st)) = Some (userId, socketId) →
  step jwt_verify st (Disconnect client) =
    (set_timers
       (λ ts, ts ++ [mkTimer (clock st + GRACE_MS) userId
                       (Socket.id client)])
       (set_sockets (λ s, s ∖ {[Socket.id client]}) st), []).
Proof.
  intros Hf. cbn [step]. unfold client_disconnect, handleDisconnect.
  change (connectedUsers (set_sockets _ st)) with (connectedUsers st).
  by rewrite Hf.
Qed.

Lemma elapse_due t dt st :
  timers st = [t] → due t ≤ clock st + Z.max 0 dt →
  elapse dt st =
    (set_clock (clock st + Z.max 0 dt)
       (set_timers (λ _, [])
          (graceExpired (t_userId t) (t_socketId t)
             (set_clock (Z.max (clock st) (due t)) st)).1),
     (graceExpired (t_userId t) (t_socketId t)
        (set_clock (Z.max (clock st) (due t)) st)).2).
Proof.
  intros Ht Hdue. unfold elapse. rewrite Ht. cbn [runTimers].
  apply Z.leb_le in Hdue. rewrite Hdue.
  destruct (graceExpired _ _ _) as [st1 out1]. simpl.
  by rewrite app_nil_r.
Qed.

Lemma elapse_pending t dt st :
  timers st = [t] → clock st + Z.max 0 dt < due t →
  elapse dt st =
    (set_clock (clock st + Z.max 0 dt) (set_timers (λ _, [t]) st), []).
Proof.
  intros Ht Hdue. unfold elapse. rewrite Ht. cbn [runTimers].
  apply Z.leb_gt in Hdue. by rewrite Hdue.
Qed.



(** ** Reattaching within the grace period *)

Lemma updateUserSocket_entries userId s st :
  activeCalls (updateUserSocketInActiveCalls userId s st)
  = (λ e, (e.1, rebound userId s e.2)) <$> activeCalls st.
Proof.
  unfold updateUserSocketInActiveCalls. simpl.
  apply list_fmap_ext. intros _ [k c] _. unfold rebound. simpl.
  by repeat case_decide.
Qed.

Lemma get_fmap_values {V} (g : V → V) k (m : list (string * V)) :
  JsMap.get k ((λ e, (e.1, g e.2)) <$> m) = g <$> JsMap.get k m.
Proof.
  induction m as [|[k0 v0] m IH]; [done|].
  rewrite fmap_cons. cbn [JsMap.get fst snd].
  by destruct (decide (k0 = k)).
Qed.

Lemma updateUserSocket_get userId s callId st :
  JsMap.get callId
    (activeCalls (updateUserSocketInActiveCalls userId s st))
  = rebound userId s <$> JsMap.get callId (activeCalls st).
Proof. rewrite updateUserSocket_entries. apply get_fmap_values. Qed.

(** X1. From a reachable state with no timer pending: a user's socket
    closes, the same user attaches on a new socket before the grace
    period is over, nothing else arrives in between, and time goes on.
    Then the user is bound to the new socket,
    no call has left [activeCalls], no durable record has changed, no
    [call_ended] has been emitted, and every call has the new socket
    as caller session if the user is its caller, as receiver session
    if the user is its receiver and not also its caller. *)
Theorem reattach_within_grace old new userId dt1 dt2 st :
  reachable jwt_verify st →
  timers st = [] →
  List.find (λ '(_, s), bool_decide (s = Socket.id old))
    (JsMap.entries (connectedUsers st))
    = Some (userId, Socket.id old) →
  0 ≤ dt1 < GRACE_MS →
  Socket.token new ≫= jwt_verify (clock st + dt1) = Some userId →
  Socket.id new ≠ Socket.id old →
  let r := run jwt_verify st
             [Disconnect old; Elapse dt1; Connect new; Elapse dt2] in
  JsMap.get userId (connectedUsers r.1) = Some (Socket.id new)
  ∧ JsMap.keys (activeCalls r.1) = JsMap.keys (activeCalls st)
  ∧ (∀ callId,
       JsMap.get callId (activeCalls r.1)
       = rebound userId (Socket.id new)
           <$> JsMap.get callId (activeCalls st))
  ∧ (∀ callId call call',
       JsMap.get callId (activeCalls st) = Some call →
       JsMap.get callId (activeCalls r.1) = Some call' →
       (Call.callerId call = userId →
        Call.callerSocketId call' = Socket.id new)
       ∧ (Call.receiverId call = userId → Call.callerId call ≠ userId →
          Call.receiverSocketId call' = Socket.id new))
  ∧ Store.calls (prisma r.1) = Store.calls (prisma st)
  ∧ Forall (λ e, ∀ c, is_call_ended c e = false) r.2.
Proof.
  intros Hreach Ht Hfind [Hdt0 Hdt1] Hv Hne.
  pose proof (reachable_consistent _ Hreach) as Hc.
  cbn zeta. rewrite !run_cons.
  rewrite (step_Disconnect_bound _ _ _ _ Hfind). cbn [fst snd run].
  set (t := mkTimer (clock st + GRACE_MS) userId (Socket.id old)).
  set (st1 := set_timers _ _).
  assert (Ht1 : timers st1 = [t]) by (simpl; by rewrite Ht).
  assert (Hmax : Z.max 0 dt1 = dt1) by lia.
  assert (Hpend : clock st1 + Z.max 0 dt1 < due t) by (simpl; lia).
  cbn [step]. rewrite (elapse_pending t dt1 st1 Ht1 Hpend).
  cbn [fst snd]. rewrite Hmax.
  set (st2 := set_sockets _ _).
  assert (Hv2 : verify jwt_verify st2 new = Some userId) by done.
  unfold handleConnection. rewrite Hv2. cbn [fst snd].
  set (st3 := updateUserSocketInActiveCalls _ _ _).
  assert (Hb3 : JsMap.get userId (connectedUsers st3)
                = Some (Socket.id new)) by apply JsMapFacts.get_set_eq.
  assert (Ht3 : timers st3 = [t]) by done.
  assert (Hk3 : JsMap.keys (activeCalls st3) = JsMap.keys (activeCalls st)).
  { unfold st3. rewrite updateUserSocket_keys. reflexivity. }
  assert (Hg3 : ∀ callId, JsMap.get callId (activeCalls st3)
                = rebound userId (Socket.id new)
                    <$> JsMap.get callId (activeCalls st)).
  { intros callId. unfold st3. rewrite updateUserSocket_get. reflexivity. }
  assert (Hr3 : Store.calls (prisma st3) = Store.calls (prisma st)) by done.
  assert (Ho3 : Forall (λ e, ∀ c, is_call_ended c e = false)
                  (sendUnreadCounts st3 userId)).
  { unfold sendUnreadCounts. repeat case_match; repeat constructor. }
  assert (Hlast : elapse dt2 st3
                  = (set_clock (clock st3 + Z.max 0 dt2)
                       (set_timers (λ _, []) st3), [])
                  ∨ elapse dt2 st3
                  = (set_clock (clock st3 + Z.max 0 dt2)
                       (set_timers (λ _, [t]) st3), [])).
  { destruct (Z.le_gt_cases (due t) (clock st3 + Z.max 0 dt2)) as [Hd|Hd].
    - left. rewrite (elapse_due t dt2 st3 Ht3 Hd).
      rewrite graceExpired_stale; [done|].
      change (JsMap.get userId (connectedUsers st3) ≠ Some (Socket.id old)).
      rewrite Hb3. congruence.
    - right. apply elapse_pending; [done|lia]. }
  assert (Hfinal : ∃ st4, elapse dt2 st3 = (st4, [])
                   ∧ connectedUsers st4 = connectedUsers st3
                   ∧ activeCalls st4 = activeCalls st3
                   ∧ prisma st4 = prisma st3).
  { destruct Hlast as [-> | ->]; eexists; done. }
  destruct Hfinal as (st4 & -> & Eu & Ea & Ep). cbn [fst snd].
  rewrite !app_nil_r, Eu, Ea, Ep. split_and!; try done.
  intros callId call call' Hg Hg'. rewrite Hg3, Hg in Hg'.
  injection Hg' as <-. unfold rebound.
  split; [intros E | intros E E']; repeat case_decide; done.
Qed.

End Invariant.

(** * Further properties of the gateway *)

Section Presence.
Variable jwt_verify : Z → string → option string.
Implicit Types (st : Gateway) (client : Socket.t).

(** ** What an event can never touch *)

Lemma handle_keeps client ev st :
  let st' := (handle jwt_verify client ev st).1 in
  connectedUsers st' = connectedUsers st
  ∧ sockets st' = sockets st
  ∧ timers st' = timers st
  ∧ clock st' = clock st
  ∧ Store.users (prisma st') = Store.users (prisma st).
Proof.
  cbn zeta. destruct ev; cbn [handle];
    unfold handleFileWebRTCOffer, handleFileWebRTCAnswer,
      handleFileWebRTCIceCandidate, relay_by_user, handleFileMessage,
      handleCheckUserOnline, handleInitiateCall, handleAcceptCall,
      handleRejectCall, handleEndCall, handleWebRTCOffer,
      handleWebRTCAnswer, handleWebRTCIceCandidate, handleMessage,
      handleGetMessages, handleMarkMessagesRead, handleSetActiveChat,
      handleGetUnreadCounts, Prisma.message_create, Prisma.message_markRead,
      Prisma.call_create, Prisma.call_update;
    repeat case_match; simplify_eq; simpl; done.
Qed.

(** X2. No inbound event, whatever its payload and credential, changes
    the presence map, the transport's socket set, the pending timers,
    the clock or the users table: presence changes only on attach and
    on grace-period expiry. *)
Theorem events_keep_presence client ev st :
  let st' := (handle jwt_verify client ev st).1 in
  connectedUsers st' = connectedUsers st
  ∧ sockets st' = sockets st
  ∧ timers st' = timers st
  ∧ clock st' = clock st
  ∧ Store.users (prisma st') = Store.users (prisma st).
Proof. apply handle_keeps. Qed.


(** ** Attaching *)

Lemma filter_none {A} (P : A → Prop) `{!∀ x, Decision (P x)} (l : list A) :
  (∀ x, x ∈ l → ¬ P x) → filter P l = [].
Proof.
  induction l as [|x l IH]; intros Hall; [done|].
  rewrite filter_cons_False by (apply Hall; left).
  apply IH. intros y Hy. apply Hall. by right.
Qed.

Lemma bindings_of_nodup {V} k (m : list (string * V)) :
  NoDup (JsMap.keys m) → is_Some (JsMap.get k m) → bindings_of k m = 1%nat.
Proof.
  unfold bindings_of, JsMap.keys. induction m as [|[k0 v0] m IH].
  - intros _ [? ?]. done.
  - intros Hnd Hs. apply NoDup_cons in Hnd as [Hk0 Hnd]. simpl in Hk0.
    destruct (decide (k0 = k)) as [->|Hne].
    + rewrite filter_cons_True by done.
      rewrite filter_none; [done|].
      intros [k' v'] Hin. simpl. intros ->. apply Hk0.
      by apply (list_elem_of_fmap_2 fst) in Hin.
    + rewrite filter_cons_False by done. apply IH; [done|].
      cbn [JsMap.get] in Hs. by rewrite decide_False in Hs.
Qed.

Lemma step_Connect_verified client userId st :
  verify jwt_verify st client = Some userId →
  step jwt_verify st (Connect client) =
    (updateUserSocketInActiveCalls userId (Socket.id client)
       (set_connectedUsers (JsMap.set userId (Socket.id client))
          (set_sockets (λ s, {[Socket.id client]} ∪ s) st)),
     sendUnreadCounts
       (updateUserSocketInActiveCalls userId (Socket.id client)
          (set_connectedUsers (JsMap.set userId (Socket.id client))
             (set_sockets (λ s, {[Socket.id client]} ∪ s) st)))
       userId).
Proof.
  intros Hv. cbn [step]. unfold handleConnection.
  change (verify jwt_verify (set_sockets _ st) client)
    with (verify jwt_verify st client).
  by rewrite Hv.
Qed.

(** X4. Two sockets attach in turn with tokens of the same user: the
    user is bound to the second socket and to it alone, every other
    user's binding is as before, and the gateway has not closed the
    superseded socket. *)
Theorem attach_last_writer_wins c1 c2 userId st :
  reachable jwt_verify st →
  verify jwt_verify st c1 = Some userId →
  verify jwt_verify st c2 = Some userId →
  let r := run jwt_verify st [Connect c1; Connect c2] in
  JsMap.get userId (connectedUsers r.1) = Some (Socket.id c2)
  ∧ bindings_of userId (connectedUsers r.1) = 1%nat
  ∧ (∀ u, u ≠ userId →
          JsMap.get u (connectedUsers r.1) = JsMap.get u (connectedUsers st))
  ∧ Socket.id c1 ∈ sockets r.1 ∧ Socket.id c2 ∈ sockets r.1.
Proof.
  intros Hreach Hv1 Hv2.
  pose proof (reachable_consistent _ _
                (reachable_run jwt_verify st [Connect c1; Connect c2] Hreach))
    as Hc.
  cbn zeta. revert Hc. rewrite !run_cons.
  rewrite (step_Connect_verified _ _ _ Hv1). cbn [fst snd run].
  set (st1 := updateUserSocketInActiveCalls _ _ _).
  assert (Hv2' : verify jwt_verify st1 c2 = Some userId) by done.
  rewrite (step_Connect_verified _ _ _ Hv2'). cbn [fst snd].
  set (st2 := updateUserSocketInActiveCalls _ _ _).
  intros Hc.
  assert (Hget : JsMap.get userId (connectedUsers st2) = Some (Socket.id c2))
    by apply JsMapFacts.get_set_eq.
  split_and!.
  - done.
  - apply bindings_of_nodup; [apply Hc | by rewrite Hget].
  - intros u Hne.
    change (connectedUsers st2)
      with (JsMap.set userId (Socket.id c2)
              (JsMap.set userId (Socket.id c1) (connectedUsers st))).
    by rewrite !JsMapFacts.get_set_ne.
  - change (sockets st2)
      with ({[Socket.id c2]} ∪ ({[Socket.id c1]} ∪ sockets st)).
    set_solver.
  - change (sockets st2)
      with ({[Socket.id c2]} ∪ ({[Socket.id c1]} ∪ sockets st)).
    set_solver.
Qed.

(** X5. An attach whose token does not verify leaves presence, active
    chats, calls and the store as they were, emits nothing, and the
    socket is not in the transport's set afterwards. *)
Theorem unauthorized_attach client st :
  verify jwt_verify st client = None →
  let r := step jwt_verify st (Connect client) in
  connectedUsers r.1 = connectedUsers st
  ∧ userActiveChats r.1 = userActiveChats st
  ∧ activeCalls r.1 = activeCalls st
  ∧ prisma r.1 = prisma st
  ∧ (Socket.id client ∉ sockets r.1)
  ∧ r.2 = [].
Proof.
  intros Hv. cbn zeta. cbn [step]. unfold handleConnection.
  change (verify jwt_verify (set_sockets _ st) client)
    with (verify jwt_verify st client).
  rewrite Hv. cbn [fst snd]. unfold client_disconnect, handleDisconnect.
  destruct (find _ _) as [[u s]|];
    (simpl; split_and!; try done; set_solver).
Qed.

(** ** Closing a socket *)

(** X6. While the grace period runs nothing is torn down: after the
    bound socket of a user closes and less than 3000 ms pass, presence,
    active chats, calls and the store are as before, nothing has been
    emitted, one timer is pending for that user, and the user is still
    reported online. *)
Theorem grace_period_keeps_state client asker userId dt st :
  timers st = [] →
  List.find (λ '(_, s), bool_decide (s = Socket.id client))
    (JsMap.entries (connectedUsers st))
    = Some (userId, Socket.id client) →
  0 ≤ dt < GRACE_MS →
  let r := run jwt_verify st [Disconnect client; Elapse dt] in
  connectedUsers r.1 = connectedUsers st
  ∧ userActiveChats r.1 = userActiveChats st
  ∧ activeCalls r.1 = activeCalls st
  ∧ prisma r.1 = prisma st
  ∧ r.2 = []
  ∧ timers r.1 = [mkTimer (clock st + GRACE_MS) userId (Socket.id client)]
  ∧ (handle jwt_verify asker (In.check_user_online userId) r.1).2
    = [ClientEmit (Socket.id asker) (Out.user_online_status userId true)].
Proof.
  intros Ht Hfind [Hdt0 Hdt1]. cbn zeta. rewrite !run_cons.
  rewrite (step_Disconnect_bound _ _ _ _ _ Hfind). cbn [fst snd run].
  set (t := mkTimer (clock st + GRACE_MS) userId (Socket.id client)).
  set (st1 := set_timers _ _).
  assert (Ht1 : timers st1 = [t]) by (simpl; by rewrite Ht).
  assert (Hpend : clock st1 + Z.max 0 dt < due t) by (simpl; lia).
  cbn [step]. rewrite (elapse_pending t dt st1 Ht1 Hpend). cbn [fst snd].
  split_and!; try done.
  cbn [handle]. unfold handleCheckUserOnline. cbn [snd]. do 3 f_equal.
  change (connectedUsers _) with (connectedUsers st).
  unfold JsMap.entries in Hfind. apply find_some in Hfind as [Hin _].
  apply list_elem_of_In, JsMapFacts.elem_keys, JsMapFacts.keys_get_Some
    in Hin as [s Hs].
  unfold JsMap.has. by rewrite Hs.
Qed.

(** X7. Closing a socket that no user is bound to (a superseded tab)
    starts no timer: whatever time passes afterwards, presence, active
    chats, calls and the store are untouched and nothing is emitted. *)
Theorem unbound_socket_close client dt st :
  timers st = [] →
  List.find (λ '(_, s), bool_decide (s = Socket.id client))
    (JsMap.entries (connectedUsers st)) = None →
  let r := run jwt_verify st [Disconnect client; Elapse dt] in
  connectedUsers r.1 = connectedUsers st
  ∧ userActiveChats r.1 = userActiveChats st
  ∧ activeCalls r.1 = activeCalls st
  ∧ prisma r.1 = prisma st
  ∧ timers r.1 = []
  ∧ sockets r.1 = sockets st ∖ {[Socket.id client]}
  ∧ r.2 = [].
Proof.
  intros Ht Hfind. cbn zeta. rewrite !run_cons. cbn [run step fst snd].
  unfold client_disconnect, handleDisconnect.
  change (connectedUsers (set_sockets _ st)) with (connectedUsers st).
  rewrite Hfind. unfold elapse. cbn [timers set_sockets]. rewrite Ht.
  simpl. done.
Qed.

End Presence.

Section CallControl.
Variable jwt_verify : Z → string → option string.
Implicit Types (st : Gateway) (client : Socket.t) (callId : string).

(** ** The Call Table and the store *)

(** X8. In every state the gateway reaches with its handlers run one
    at a time, each entry of [activeCalls] is the only entry under its
    id, carries that id, equals its durable row field by field, and is
    initiated or accepted. (When handlers overlap an entry can differ
    from its row in status, end time and duration; what holds then is
    X24.) *)
Theorem call_table_mirrors_store callId call st :
  reachable jwt_verify st →
  (callId, call) ∈ activeCalls st →
  Store.calls (prisma st) !! callId = Some (Call.row call)
  ∧ Call.id call = callId
  ∧ active_status (Call.status call)
  ∧ JsMap.get callId (activeCalls st) = Some call
  ∧ bindings_of callId (activeCalls st) = 1%nat.
Proof.
  intros Hreach Hin. pose proof (reachable_consistent _ _ Hreach) as Hc.
  destruct (calls_backed _ Hc _ _ Hin) as (Hrow & Hid & Hact).
  pose proof (JsMapFacts.elem_get _ _ _ (calls_nodup _ Hc) Hin) as Hget.
  split_and!; try done.
  apply bindings_of_nodup; [apply Hc | by rewrite Hget].
Qed.

(** X9. A durable call record is never deleted, and one step of the
    gateway never changes its id, kind, creation time, caller or
    receiver; its duration changes only by an [end_call] for that id,
    and its end time only as it becomes rejected or ended. *)
Theorem call_row_identity_kept st i callId r :
  reachable jwt_verify st →
  Store.calls (prisma st) !! callId = Some r →
  ∃ r', Store.calls (prisma (step jwt_verify st i).1) !! callId = Some r'
        ∧ CallRow.id r' = CallRow.id r
        ∧ CallRow.type r' = CallRow.type r
        ∧ CallRow.createdAt r' = CallRow.createdAt r
        ∧ CallRow.callerId r' = CallRow.callerId r
        ∧ CallRow.receiverId r' = CallRow.receiverId r
        ∧ (CallRow.duration r' ≠ CallRow.duration r →
           ∃ client, i = Receive client (In.end_call callId))
        ∧ (CallRow.endedAt r' ≠ CallRow.endedAt r →
           CallRow.status r' = rejected ∨ CallRow.status r' = ended).
Proof.
  intros Hreach Hrow. pose proof (reachable_consistent _ _ Hreach) as Hc.
  destruct (step_rows jwt_verify st i callId r Hc Hrow)
    as (r' & Hrow' & Hch).
  exists r'. split; [done|].
  destruct Hch as [->|[_ Hw]]; [by split_and!|].
  destruct Hw; simpl; split_and!; try done; eauto.
Qed.

(** ** initiate_call *)

Lemma set_absent {V} k (v : V) (m : list (string * V)) :
  JsMap.get k m = None → JsMap.set k v m = m ++ [(k, v)].
Proof.
  induction m as [|[k0 v0] m IH]; [done|]. cbn [JsMap.get JsMap.set].
  destruct (decide (k0 = k)); [done|]. intros H. by rewrite IH.
Qed.

(** X10. [initiate_call] either changes nothing and answers the caller
    with one [call_failed], or it succeeds: the token verifies, the
    receiver is bound to a non-empty socket id, and one call is added
    at the end of [activeCalls] under an id the store did not hold, as
    an initiated row created now, with the acting socket as caller
    session and the receiver's bound socket as receiver session; the
    caller gets [call_initiated] and the receiver socket
    [incoming_call]. A receiver that is not bound always gives the
    first outcome, with reason "User is offline". *)
Theorem initiate_call_outcome client receiverId type st :
  reachable jwt_verify st →
  let r := handle jwt_verify client (In.initiate_call receiverId type) st in
  ((r.1 = st
    ∧ ∃ reason message,
        r.2 = [ClientEmit (Socket.id client)
                 (Out.call_failed reason message)])
   ∨ (∃ callerId receiverSocketId call,
        verify jwt_verify st client = Some callerId
        ∧ JsMap.get receiverId (connectedUsers st) = Some receiverSocketId
        ∧ truthy receiverSocketId = true
        ∧ Store.calls (prisma st) !! Call.id call = None
        ∧ Call.row call
          = CallRow.mk (Call.id call) type initiated None (clock st) None
              callerId receiverId
        ∧ Call.callerSocketId call = Socket.id client
        ∧ Call.receiverSocketId call = receiverSocketId
        ∧ activeCalls r.1 = activeCalls st ++ [(Call.id call, call)]
        ∧ Store.calls (prisma r.1)
          = <[Call.id call := Call.row call]> (Store.calls (prisma st))
        ∧ r.2 = [ClientEmit (Socket.id client)
                   (Out.call_initiated (Call.id call));
                 ServerTo receiverSocketId
                   (Out.incoming_call (Call.id call) (Call.caller call)
                      type)]))
  ∧ (∀ callerId,
       verify jwt_verify st client = Some callerId →
       truthy_opt (JsMap.get receiverId (connectedUsers st)) = false →
       r = (st, [ClientEmit (Socket.id client)
                   (Out.call_failed (Some "User is offline") None)])).
Proof.
  intros Hreach. pose proof (reachable_consistent _ _ Hreach) as Hc.
  cbn zeta. cbn [handle]. unfold handleInitiateCall. split.
  - destruct (verify jwt_verify st client) as [callerId|] eqn:Hv;
      [|left; eauto].
    destruct (JsMap.get receiverId (connectedUsers st)) as [rs|] eqn:Hg;
      [|left; eauto].
    destruct (truthy rs) eqn:Htr; [|left; eauto].
    destruct (Prisma.call_create _ _ _ _ _) as [[[[db row] cu] ru]|] eqn:Hcr;
      [|left; eauto].
    right. pose proof Hcr as Hcr'.
    apply call_create_fresh in Hcr' as (Hfresh & Hcalls & _).
    unfold Prisma.call_create in Hcr.
    destruct (Store.users (prisma st) !! callerId); [|done].
    destruct (Store.users (prisma st) !! receiverId); [|done].
    injection Hcr as <- <- <- <-.
    eexists callerId, rs, (Call.mk _ _ _ _ _).
    split_and!; try done. simpl.
    apply set_absent.
    destruct (JsMap.get _ (activeCalls st)) as [c|] eqn:Hget; [|done].
    destruct (consistent_get _ _ _ Hc Hget) as (Hrow & _).
    unfold Call.id in Hrow. simpl in Hfresh, Hrow. congruence.
  - intros callerId -> Hoff.
    destruct (JsMap.get receiverId (connectedUsers st)) as [rs|]; [|done].
    simpl in Hoff. by rewrite Hoff.
Qed.

(** ** accept_call and reject_call *)

Lemma set_set {V} k (v : V) (m : list (string * V)) :
  JsMap.set k v (JsMap.set k v m) = JsMap.set k v m.
Proof.
  induction m as [|[k0 v0] m IH]; cbn [JsMap.set].
  - by rewrite decide_True.
  - destruct (decide (k0 = k)) as [->|Hne]; cbn [JsMap.set].
    + by rewrite decide_True.
    + rewrite decide_False by done. by rewrite IH.
Qed.

(** X11. Accepting twice is accepting once: a second [accept_call]
    from the same socket leaves the state reached by the first one
    exactly as it is and emits the same events again. *)
Theorem accept_call_idempotent client callId call st :
  reachable jwt_verify st →
  JsMap.get callId (activeCalls st) = Some call →
  let once := handle jwt_verify client (In.accept_call callId) st in
  let twice := handle jwt_verify client (In.accept_call callId) once.1 in
  twice.1 = once.1 ∧ twice.2 = once.2.
Proof.
  intros Hreach Hg. pose proof (reachable_consistent _ _ Hreach) as Hc.
  cbn zeta. cbn [handle].
  pose proof (consistent_handleAcceptCall client callId st Hc) as Hc1.
  rewrite (handleAcceptCall_present client callId call st Hc Hg) in *.
  cbn [fst snd] in *.
  set (u := Call.set_status accepted
              (Call.set_receiverSocketId (Socket.id client) call)) in *.
  set (st1 := set_activeCalls _ _) in *.
  assert (Hg1 : JsMap.get callId (activeCalls st1) = Some u)
    by apply JsMapFacts.get_set_eq.
  rewrite (handleAcceptCall_present client callId u st1 Hc1 Hg1).
  cbn [fst snd]. split.
  - unfold st1, set_activeCalls, set_prisma, Store.set_calls. simpl.
    rewrite set_set, insert_insert_eq. reflexivity.
  - reflexivity.
Qed.

(** X12. [reject_call] on a call that is in [activeCalls], run with
    no other handler in between, writes status rejected and the end
    time (no duration) to its durable row, removes that call and no
    other, tells the caller session if it is live and sends nothing to
    the rejecting socket. *)
Theorem reject_call_effect client callId call st :
  reachable jwt_verify st →
  JsMap.get callId (activeCalls st) = Some call →
  let r := handle jwt_verify client (In.reject_call callId) st in
  let row' :=
    CallRow.set_endedAt (clock st)
      (CallRow.set_status rejected (Call.row call)) in
  Store.calls (prisma r.1) !! callId = Some row'
  ∧ CallRow.duration row' = CallRow.duration (Call.row call)
  ∧ activeCalls r.1 = filter (λ e, e.1 ≠ callId) (activeCalls st)
  ∧ r.2 =
      (if live st (Call.callerSocketId call)
       then [ServerTo (Call.callerSocketId call) (Out.call_rejected callId)]
       else []).
Proof.
  intros Hreach Hg. pose proof (reachable_consistent _ _ Hreach) as Hc.
  cbn zeta. cbn [handle].
  rewrite (handleRejectCall_present _ _ _ _ Hc Hg) in *.
  cbn [fst snd] in *. split_and!.
  - simpl. apply lookup_insert_eq.
  - done.
  - simpl. apply JsMapFacts.delete_filter.
  - done.
Qed.

(** X13. When the store has no row for a call that is in
    [activeCalls], the update of [accept_call], [reject_call] and
    [end_call] throws: the whole state stays as it is, the call stays in
    the table, nothing is relayed, and the acting socket gets
    [call_failed] naming the operation. *)
Theorem call_update_failure client callId call st :
  JsMap.get callId (activeCalls st) = Some call →
  Store.calls (prisma st) !! callId = None →
  handle jwt_verify client (In.accept_call callId) st
  = (st, [ClientEmit (Socket.id client)
            (Out.call_failed None (Some "Failed to accept call"))])
  ∧ handle jwt_verify client (In.reject_call callId) st
    = (st, [ClientEmit (Socket.id client)
              (Out.call_failed None (Some "Failed to reject call"))])
  ∧ handle jwt_verify client (In.end_call callId) st
    = (st, [ClientEmit (Socket.id client)
              (Out.call_failed None (Some "Failed to end call"))]).
Proof.
  intros Hg Hrow. cbn [handle].
  unfold handleAcceptCall, handleRejectCall, handleEndCall.
  rewrite Hg. cbn zeta. by rewrite !(call_update_None _ _ _ Hrow).
Qed.

End CallControl.

Section Messages.
Variable jwt_verify : Z → string → option string.
Implicit Types (st : Gateway) (client : Socket.t) (db : Store.t).

(** ** Unread counts *)

Lemma unreadCounts_fold userId a (l : list Message.row)
    (acc : gmap string nat) :
  foldl (λ acc m,
           if bool_decide (Message.receiverId m = userId)
              && negb (Message.isRead m)
           then <[Message.senderId m :=
                    S (default 0%nat (acc !! Message.senderId m))]> acc
           else acc) acc l !! a
  = match length (List.filter (Prisma.unread_from_to a userId) l) with
    | O => acc !! a
    | S n => Some (default 0 (acc !! a) + S n)%nat
    end.
Proof.
  revert acc. induction l as [|m l IH]; intros acc; [done|].
  cbn [foldl List.filter]. rewrite IH. unfold Prisma.unread_from_to at 2.
  destruct (bool_decide (Message.receiverId m = userId)) eqn:Hr;
    destruct (Message.isRead m) eqn:Hread; simpl;
    rewrite ?andb_false_r; simpl; try done.
  destruct (decide (Message.senderId m = a)) as [->|Hne].
  - rewrite bool_decide_eq_true_2 by done. simpl.
    rewrite lookup_insert_eq. simpl.
    destruct (length _); f_equal; lia.
  - rewrite bool_decide_eq_false_2 by done. simpl.
    by rewrite lookup_insert_ne.
Qed.

Lemma message_unreadCounts_lookup db userId a :
  Prisma.message_unreadCounts db userId !! a
  = positive_count (unread_count db a userId).
Proof.
  unfold Prisma.message_unreadCounts, unread_count.
  rewrite unreadCounts_fold, lookup_empty.
  by destruct (length _).
Qed.

Lemma sendUnreadCounts_to_bound st userId :
  sendUnreadCounts st userId
  = to_bound (connectedUsers st) userId
      (Out.unread_counts (Prisma.message_unreadCounts (prisma st) userId)).
Proof. reflexivity. Qed.

(** X14. [get_unread_counts] from a socket whose token verifies
    changes nothing and answers on the socket the user is bound to
    (which need not be the asking socket) with one [unread_counts]
    object: its entry for a sender is the number of unread messages
    from that sender to the user, and senders with none have no
    entry. *)
Theorem unread_counts_reply client userId st :
  verify jwt_verify st client = Some userId →
  let r := handle jwt_verify client In.get_unread_counts st in
  r.1 = st
  ∧ ∃ counts,
      (∀ senderId,
         counts !! senderId
         = positive_count (unread_count (prisma st) senderId userId))
      ∧ r.2 = to_bound (connectedUsers st) userId (Out.unread_counts counts).
Proof.
  intros Hv. cbn zeta. cbn [handle]. unfold handleGetUnreadCounts.
  rewrite Hv. split; [done|]. eexists. split; [|reflexivity].
  intros senderId. apply message_unreadCounts_lookup.
Qed.

(** ** Marking messages read *)

Lemma unread_after_mark senderId userId a b (m : Message.row) :
  Prisma.unread_from_to a b
    (if Prisma.unread_from_to senderId userId m
     then Message.mark_read m else m)
  = Prisma.unread_from_to a b m
    && negb (bool_decide (a = senderId) && bool_decide (b = userId)).
Proof.
  unfold Prisma.unread_from_to. destruct m as [i c t fn fs ft s r rd ca].
  simpl. destruct rd; simpl;
    repeat (case_bool_decide; simpl); simplify_eq; done.
Qed.

Lemma unread_count_markRead db senderId userId a b :
  unread_count (Prisma.message_markRead db senderId userId).1 a b
  = if bool_decide (a = senderId) && bool_decide (b = userId)
    then 0%nat else unread_count db a b.
Proof.
  unfold unread_count, Prisma.message_markRead. cbn [fst Store.messages
    Store.set_messages].
  induction (Store.messages db) as [|m l IH].
  - by destruct (_ && _).
  - rewrite fmap_cons. cbn [List.filter]. rewrite unread_after_mark.
    destruct (bool_decide (a = senderId) && bool_decide (b = userId)).
    + rewrite andb_false_r. apply IH.
    + rewrite andb_true_r.
      destruct (Prisma.unread_from_to a b m); simpl; by rewrite IH.
Qed.

Lemma markRead_evolves db senderId userId :
  Forall2 message_evolves (Store.messages db)
    (Store.messages (Prisma.message_markRead db senderId userId).1).
Proof.
  unfold Prisma.message_markRead. cbn [fst Store.messages Store.set_messages].
  apply Forall2_fmap_r, Forall_Forall2_diag, Forall_forall. intros m _.
  unfold message_evolves, compose. cbn beta.
  destruct (Prisma.unread_from_to senderId userId m) eqn:Hu; [|by left].
  right. split; [|done]. unfold Prisma.unread_from_to in Hu.
  apply andb_true_iff in Hu as [_ Hu]. by destruct (Message.isRead m).
Qed.

(** X15. [mark_messages_read] with a token that verifies leaves no
    unread message from that sender to the user and keeps every other
    unread count; stored messages are only flipped from unread to read.
    The user's bound socket gets fresh unread counts without an entry
    for that sender, the sender's bound socket gets
    [messages_marked_read], and the asking socket gets it last. Calls,
    presence and active chats are untouched. *)
Theorem mark_messages_read_effect client senderId userId st :
  verify jwt_verify st client = Some userId →
  let r := handle jwt_verify client (In.mark_messages_read senderId) st in
  unread_count (prisma r.1) senderId userId = 0%nat
  ∧ (∀ a b, (a, b) ≠ (senderId, userId) →
            unread_count (prisma r.1) a b = unread_count (prisma st) a b)
  ∧ Forall2 message_evolves (Store.messages (prisma st))
      (Store.messages (prisma r.1))
  ∧ activeCalls r.1 = activeCalls st
  ∧ connectedUsers r.1 = connectedUsers st
  ∧ userActiveChats r.1 = userActiveChats st
  ∧ ∃ counts,
      counts !! senderId = None
      ∧ r.2 = to_bound (connectedUsers st) userId (Out.unread_counts counts)
              ++ to_bound (connectedUsers st) senderId
                   (Out.messages_marked_read senderId userId)
              ++ [ClientEmit (Socket.id client)
                    (Out.messages_marked_read senderId userId)].
Proof.
  intros Hv. cbn zeta. cbn [handle]. unfold handleMarkMessagesRead.
  rewrite Hv.
  pose proof (unread_count_markRead (prisma st) senderId userId) as Hcnt.
  pose proof (markRead_evolves (prisma st) senderId userId) as Hev.
  destruct (Prisma.message_markRead (prisma st) senderId userId)
    as [db n] eqn:Hmr.
  cbn [fst snd] in *. split_and!; try done.
  - rewrite Hcnt. by rewrite !bool_decide_eq_true_2.
  - intros a b Hne. rewrite Hcnt.
    destruct (decide (a = senderId)) as [->|Ha].
    + rewrite (bool_decide_eq_false_2 (b = userId)) by congruence.
      by rewrite andb_false_r.
    + by rewrite (bool_decide_eq_false_2 (a = senderId)).
  - exists (Prisma.message_unreadCounts db userId). split.
    + rewrite message_unreadCounts_lookup, Hcnt.
      by rewrite !bool_decide_eq_true_2.
    + reflexivity.
Qed.

(** ** The active chat *)

(** X16. [set_active_chat] with a token that verifies: given a
    non-empty peer id it records the peer as the user's active chat,
    leaves other users' entries alone, marks every unread message from
    the peer to the user read, sends the user's bound socket fresh
    unread counts and, only if some message was marked, tells the
    peer's bound socket; nothing goes back on the asking socket. Given
    null or the empty string it only removes the user's entry. *)
Theorem set_active_chat_effect client userId st :
  verify jwt_verify st client = Some userId →
  (∀ peer, truthy peer = true →
     let r := handle jwt_verify client (In.set_active_chat (Some peer)) st in
     JsMap.get userId (userActiveChats r.1) = Some peer
     ∧ (∀ u, u ≠ userId →
             JsMap.get u (userActiveChats r.1)
             = JsMap.get u (userActiveChats st))
     ∧ unread_count (prisma r.1) peer userId = 0%nat
     ∧ (∀ a b, (a, b) ≠ (peer, userId) →
               unread_count (prisma r.1) a b = unread_count (prisma st) a b)
     ∧ ∃ counts,
         counts !! peer = None
         ∧ r.2 = to_bound (connectedUsers st) userId
                   (Out.unread_counts counts)
                 ++ match unread_count (prisma st) peer userId with
                    | O => []
                    | S _ => to_bound (connectedUsers st) peer
                               (Out.messages_marked_read peer userId)
                    end)
  ∧ (∀ o, truthy_opt o = false →
     let r := handle jwt_verify client (In.set_active_chat o) st in
     JsMap.get userId (userActiveChats r.1) = None
     ∧ (∀ u, u ≠ userId →
             JsMap.get u (userActiveChats r.1)
             = JsMap.get u (userActiveChats st))
     ∧ prisma r.1 = prisma st
     ∧ r.2 = []).
Proof.
  intros Hv. split.
  - intros peer Htr. cbn zeta. cbn [handle]. unfold handleSetActiveChat.
    rewrite Hv, Htr.
    pose proof (unread_count_markRead (prisma st) peer userId) as Hcnt.
    change (prisma (set_userActiveChats _ st)) with (prisma st).
    assert (Hn : (Prisma.message_markRead (prisma st) peer userId).2
                 = unread_count (prisma st) peer userId) by reflexivity.
    destruct (Prisma.message_markRead (prisma st) peer userId)
      as [db n] eqn:Hmr.
    cbn [fst snd] in *. subst n. split_and!.
    + simpl. apply JsMapFacts.get_set_eq.
    + intros u Hne. simpl. by rewrite JsMapFacts.get_set_ne.
    + simpl. rewrite Hcnt. by rewrite !bool_decide_eq_true_2.
    + intros a b Hne. simpl. rewrite Hcnt.
      destruct (decide (a = peer)) as [->|Ha].
      * rewrite (bool_decide_eq_false_2 (b = userId)) by congruence.
        by rewrite andb_false_r.
      * by rewrite (bool_decide_eq_false_2 (a = peer)).
    + exists (Prisma.message_unreadCounts db userId). split.
      * rewrite message_unreadCounts_lookup, Hcnt.
        by rewrite !bool_decide_eq_true_2.
      * rewrite sendUnreadCounts_to_bound. simpl. f_equal.
        destruct (unread_count (prisma st) peer userId); [done|].
        rewrite bool_decide_eq_true_2 by lia. reflexivity.
  - intros o Hf. cbn zeta. cbn [handle]. unfold handleSetActiveChat.
    rewrite Hv.
    destruct o as [peer|]; [simpl in Hf; rewrite Hf|];
      (simpl; split_and!; try done;
       [ apply JsMapFacts.get_delete_eq
       | intros u Hne; by rewrite JsMapFacts.get_delete_ne ]).
Qed.

(** ** Sending *)

Lemma unread_count_append db m a b :
  unread_count (Store.set_messages (Store.messages db ++ [m]) db) a b
  = (unread_count db a b
     + if Prisma.unread_from_to a b m then 1 else 0)%nat.
Proof.
  unfold unread_count. simpl. rewrite List.filter_app, length_app. simpl.
  by destruct (Prisma.unread_from_to a b m).
Qed.

Lemma unread_count_new db m senderId receiverId :
  Message.senderId m = senderId → Message.receiverId m = receiverId →
  Message.isRead m = false →
  unread_count (Store.set_messages (Store.messages db ++ [m]) db)
    senderId receiverId
  = S (unread_count db senderId receiverId)
  ∧ ∀ a b, (a, b) ≠ (senderId, receiverId) →
           unread_count (Store.set_messages (Store.messages db ++ [m]) db)
             a b
           = unread_count db a b.
Proof.
  intros Hs Hr Hread. split.
  - rewrite unread_count_append. unfold Prisma.unread_from_to.
    rewrite Hread, !bool_decide_eq_true_2 by done. simpl. lia.
  - intros a b Hne. rewrite unread_count_append.
    unfold Prisma.unread_from_to. rewrite Hs, Hr.
    destruct (decide (senderId = a)) as [->|Ha].
    + rewrite (bool_decide_eq_false_2 (receiverId = b)) by congruence.
      rewrite andb_false_r. simpl. lia.
    + rewrite (bool_decide_eq_false_2 (senderId = a)) by done. simpl. lia.
Qed.

Lemma message_create_spec db now content kind fn fs ft senderId receiverId
    su ru :
  Store.users db !! senderId = Some su →
  Store.users db !! receiverId = Some ru →
  ∃ m, Prisma.message_create db now content kind fn fs ft senderId receiverId
       = Some (Store.set_messages (Store.messages db ++ [m]) db,
               Message.mkFull m su ru)
       ∧ m = Message.mk (Message.id m) content kind fn fs ft senderId
               receiverId false now
       ∧ Message.id m ∉ Message.id <$> Store.messages db.
Proof.
  intros Hs Hr. unfold Prisma.message_create. rewrite Hs, Hr.
  eexists. split_and!; [reflexivity | reflexivity |]. simpl.
  intros Hin. apply (is_fresh (Prisma.message_ids db)).
  unfold Prisma.message_ids. by apply elem_of_list_to_set.
Qed.

(** X17. A send ([send_message] or [send_file_message]) whose token
    verifies and whose sender and receiver exist appends exactly one
    message to the store, unread, stamped with the current time, under
    an id no stored message has; the receiver's unread count for the
    sender goes up by one and no other count changes, whatever the
    receiver's active chat is. If the receiver is not bound, the only
    emission is the ack on the sending socket. Calls, presence and
    active chats are untouched. *)
Theorem send_adds_one_unread client receiverId content senderId ev st :
  verify jwt_verify st client = Some senderId →
  is_Some (Store.users (prisma st) !! senderId) →
  is_Some (Store.users (prisma st) !! receiverId) →
  (ev = In.send_message receiverId content
   ∨ ∃ fn fs ft, ev = In.send_file_message receiverId content fn fs ft) →
  let r := handle jwt_verify client ev st in
  (∃ m, Store.messages (prisma r.1) = Store.messages (prisma st) ++ [m]
        ∧ Message.content m = content
        ∧ Message.senderId m = senderId
        ∧ Message.receiverId m = receiverId
        ∧ Message.isRead m = false
        ∧ Message.createdAt m = clock st
        ∧ Message.id m ∉ Message.id <$> Store.messages (prisma st))
  ∧ unread_count (prisma r.1) senderId receiverId
    = S (unread_count (prisma st) senderId receiverId)
  ∧ (∀ a b, (a, b) ≠ (senderId, receiverId) →
            unread_count (prisma r.1) a b = unread_count (prisma st) a b)
  ∧ (JsMap.get receiverId (connectedUsers st) = None →
     ∃ e, r.2 = [e] ∧ relayed e = false ∧ is_message_sent e = true)
  ∧ activeCalls r.1 = activeCalls st
  ∧ connectedUsers r.1 = connectedUsers st
  ∧ userActiveChats r.1 = userActiveChats st.
Proof.
  intros Hv [su Hs] [ru Hr] Hev. cbn zeta.
  destruct Hev as [->|(fn & fs & ft & ->)]; cbn [handle].
  - unfold handleMessage. rewrite Hv.
    destruct (message_create_spec (prisma st) (clock st) content text
                None None None senderId receiverId su ru Hs Hr)
      as (m & -> & Hm & Hid).
    assert (Hf : Message.content m = content ∧ Message.senderId m = senderId
                 ∧ Message.receiverId m = receiverId
                 ∧ Message.isRead m = false
                 ∧ Message.createdAt m = clock st) by (by rewrite Hm).
    destruct Hf as (F1 & F2 & F3 & F4 & F5).
    destruct (unread_count_new (prisma st) m senderId receiverId F2 F3 F4)
      as [Hone Hother].
    cbn [fst snd]. split_and!; try done.
    + by exists m.
    + intros Hoff. simpl. rewrite Hoff. simpl. eexists. done.
  - unfold handleFileMessage. rewrite Hv.
    destruct (message_create_spec (prisma st) (clock st) content file
                (Some fn) (Some fs) (Some ft) senderId receiverId su ru
                Hs Hr)
      as (m & -> & Hm & Hid).
    assert (Hf : Message.content m = content ∧ Message.senderId m = senderId
                 ∧ Message.receiverId m = receiverId
                 ∧ Message.isRead m = false
                 ∧ Message.createdAt m = clock st) by (by rewrite Hm).
    destruct Hf as (F1 & F2 & F3 & F4 & F5).
    destruct (unread_count_new (prisma st) m senderId receiverId F2 F3 F4)
      as [Hone Hother].
    cbn [fst snd]. split_and!; try done.
    + by exists m.
    + intros Hoff. simpl. rewrite Hoff. simpl. eexists. done.
Qed.

(** X18. A send whose token verifies but whose sender or receiver is
    not a user of the store fails in the store: nothing is stored, the
    state is unchanged, nothing is relayed, and the sending socket gets
    one generic [error]. *)
Theorem send_failure client receiverId content senderId st :
  verify jwt_verify st client = Some senderId →
  Store.users (prisma st) !! senderId = None
  ∨ Store.users (prisma st) !! receiverId = None →
  handle jwt_verify client (In.send_message receiverId content) st
  = (st, [ClientEmit (Socket.id client)
            (Out.error "Failed to send message")])
  ∧ ∀ fn fs ft,
      handle jwt_verify client
        (In.send_file_message receiverId content fn fs ft) st
      = (st, [ClientEmit (Socket.id client)
                (Out.error "Failed to send file message")]).
Proof.
  intros Hv Hmiss. cbn [handle].
  unfold handleMessage, handleFileMessage, Prisma.message_create.
  rewrite Hv.
  destruct Hmiss as [-> | Hr]; [done|].
  rewrite Hr. by destruct (Store.users (prisma st) !! senderId).
Qed.

(** ** The message log *)

Lemma graceExpired_messages userId socketId st :
  Store.messages (prisma (graceExpired userId socketId st).1)
  = Store.messages (prisma st).
Proof.
  unfold graceExpired, handleUserDisconnectFromCalls. case_decide; [|done].
  match goal with |- context [endCallsOf ?u ?es ?s] =>
    destruct (endCallsOf_spec u es s) as ((_ & _ & _ & _ & _ & _ & E) & _)
  end.
  by rewrite E.
Qed.

Lemma runTimers_messages deadline ts st :
  Store.messages (prisma (runTimers deadline ts st).1.1)
  = Store.messages (prisma st).
Proof.
  revert st. induction ts as [|t ts IH]; intros st; [done|].
  cbn [runTimers]. destruct (due t <=? deadline).
  - pose proof (graceExpired_messages (t_userId t) (t_socketId t)
                  (set_clock (Z.max (clock st) (due t)) st)) as H1.
    destruct (graceExpired _ _ _) as [st1 out1]. cbn [fst] in H1.
    specialize (IH st1).
    destruct (runTimers deadline ts st1) as [[st2 out2] rest].
    cbn [fst] in *. by rewrite IH, H1.
  - specialize (IH st).
    by destruct (runTimers deadline ts st) as [[st2 out2] rest].
Qed.

Lemma handle_messages client ev st :
  let db' := prisma (handle jwt_verify client ev st).1 in
  Store.messages db' = Store.messages (prisma st)
  ∨ (∃ m, Store.messages db' = Store.messages (prisma st) ++ [m])
  ∨ (∃ a b, Store.messages db'
            = Store.messages (Prisma.message_markRead (prisma st) a b).1).
Proof.
  cbn zeta. destruct ev; cbn [handle];
    unfold handleFileWebRTCOffer, handleFileWebRTCAnswer,
      handleFileWebRTCIceCandidate, relay_by_user, handleFileMessage,
      handleCheckUserOnline, handleInitiateCall, handleAcceptCall,
      handleRejectCall, handleEndCall, handleWebRTCOffer,
      handleWebRTCAnswer, handleWebRTCIceCandidate, handleMessage,
      handleGetMessages, handleMarkMessagesRead, handleSetActiveChat,
      handleGetUnreadCounts, Prisma.message_create,
      Prisma.call_create, Prisma.call_update;
    repeat case_match; simplify_eq; cbn [fst snd prisma set_prisma
      set_activeCalls set_userActiveChats Store.messages Store.set_messages
      Store.set_calls];
    try (by left); try (right; left; by eexists).
  all: right; right;
    match goal with H : Prisma.message_markRead _ ?a ?b = _ |- _ =>
      exists a, b; simpl in H; rewrite H; reflexivity
    end.
Qed.

(** X19. The message log only grows: one step of the gateway keeps
    every stored message in place, unchanged or flipped from unread to
    read, and appends at most one message; no message is ever removed,
    reordered, edited or marked unread again. *)
Theorem messages_only_grow st i :
  ∃ kept new,
    Store.messages (prisma (step jwt_verify st i).1) = kept ++ new
    ∧ Forall2 message_evolves (Store.messages (prisma st)) kept
    ∧ (length new ≤ 1)%nat.
Proof.
  assert (Hsame : ∀ l : list Message.row, Forall2 message_evolves l l).
  { intros l. apply Forall_Forall2_diag, Forall_forall. intros m _. by left. }
  assert (Hkeep : ∀ st' : Gateway,
            Store.messages (prisma st') = Store.messages (prisma st) →
            ∃ kept new,
              Store.messages (prisma st') = kept ++ new
              ∧ Forall2 message_evolves (Store.messages (prisma st)) kept
              ∧ (length new ≤ 1)%nat).
  { intros st' E. exists (Store.messages (prisma st)), [].
    rewrite app_nil_r. split_and!; [done | apply Hsame | simpl; lia]. }
  destruct i as [client|client|client ev|dt]; cbn [step].
  - apply Hkeep. unfold handleConnection, client_disconnect, handleDisconnect.
    by repeat case_match.
  - apply Hkeep. unfold client_disconnect, handleDisconnect.
    by repeat case_match.
  - destruct (handle_messages client ev st) as [E|[[m E]|(a & b & E)]].
    + by apply Hkeep.
    + exists (Store.messages (prisma st)), [m].
      split_and!; [done | apply Hsame | simpl; lia].
    + eexists _, []. rewrite app_nil_r.
      split_and!; [exact E | apply markRead_evolves | simpl; lia].
  - apply Hkeep. unfold elapse.
    pose proof (runTimers_messages (clock st + Z.max 0 dt) (timers st) st)
      as E.
    by destruct (runTimers _ _ _) as [[st1 out] rest].
Qed.

(** ** History *)

Lemma insert_by_createdAt_perm m l :
  Prisma.insert_by_createdAt m l ≡ₚ m :: l.
Proof.
  induction l as [|x l IH]; [done|]. cbn [Prisma.insert_by_createdAt].
  destruct (Message.createdAt m <? Message.createdAt x); [done|].
  rewrite IH. apply Permutation_swap.
Qed.

Lemma insert_by_createdAt_sorted m l :
  StronglySorted created_le l →
  StronglySorted created_le (Prisma.insert_by_createdAt m l).
Proof.
  induction 1 as [|x l Hs IH Hx]; cbn [Prisma.insert_by_createdAt].
  - repeat constructor.
  - destruct (Message.createdAt m <? Message.createdAt x) eqn:Hlt.
    + apply Z.ltb_lt in Hlt. constructor; [by constructor|].
      constructor; [unfold created_le; lia|].
      eapply Forall_impl; [exact Hx|]. unfold created_le. intros y. lia.
    + apply Z.ltb_ge in Hlt. constructor; [done|].
      rewrite insert_by_createdAt_perm. by constructor.
Qed.

Lemma order_by_createdAt_spec l :
  StronglySorted created_le (Prisma.order_by_createdAt l)
  ∧ Prisma.order_by_createdAt l ≡ₚ l.
Proof.
  unfold Prisma.order_by_createdAt.
  assert (H : ∀ acc, StronglySorted created_le acc →
            StronglySorted created_le
              (foldl (λ acc m, Prisma.insert_by_createdAt m acc) acc l)
            ∧ foldl (λ acc m, Prisma.insert_by_createdAt m acc) acc l
              ≡ₚ acc ++ l).
  { induction l as [|m l IH]; intros acc Hacc.
    - by rewrite app_nil_r.
    - cbn [foldl].
      destruct (IH _ (insert_by_createdAt_sorted m acc Hacc)) as [H1 H2].
      split; [done|]. rewrite H2, insert_by_createdAt_perm. simpl.
      apply Permutation_middle. }
  destruct (H [] (SSorted_nil _)) as [H1 H2]. done.
Qed.

Lemma include_users_msg db m f :
  Prisma.include_users db m = Some f →
  Message.msg f = m
  ∧ Store.users db !! Message.senderId m = Some (Message.sender f)
  ∧ Store.users db !! Message.receiverId m = Some (Message.receiver f).
Proof.
  unfold Prisma.include_users.
  destruct (Store.users db !! Message.senderId m) as [su|]; [|done].
  destruct (Store.users db !! Message.receiverId m) as [ru|]; [|done].
  by intros [= <-].
Qed.

Lemma omap_include_sorted db l :
  StronglySorted created_le l →
  StronglySorted created_le
    (Message.msg <$> omap (Prisma.include_users db) l).
Proof.
  induction 1 as [|x l Hs IH Hx]; [constructor|]. cbn [omap list_omap].
  destruct (Prisma.include_users db x) as [f|] eqn:Hf; [|done].
  rewrite fmap_cons. apply include_users_msg in Hf as (-> & _).
  constructor; [done|]. apply Forall_forall. intros y Hy.
  apply list_elem_of_fmap in Hy as (g & -> & Hg).
  apply list_elem_of_omap in Hg as (m' & Hm' & Hg).
  apply include_users_msg in Hg as (-> & _).
  rewrite Forall_forall in Hx. by apply Hx.
Qed.

(** X20. [get_messages] with a token that verifies changes nothing and
    answers on the asking socket with one history: it is in ascending
    creation time, every entry is a stored message exchanged between
    the user and the named peer (in either direction) together with its
    sender's and receiver's user rows, and every such stored message
    whose users exist is in it. *)
Theorem get_messages_history client otherUserId userId st :
  verify jwt_verify st client = Some userId →
  ∃ history,
    handle jwt_verify client (In.get_messages otherUserId) st
    = (st, [ClientEmit (Socket.id client) (Out.messages_history history)])
    ∧ StronglySorted created_le (Message.msg <$> history)
    ∧ (∀ f, f ∈ history →
         Message.msg f ∈ Store.messages (prisma st)
         ∧ Prisma.between userId otherUserId (Message.msg f) = true
         ∧ Store.users (prisma st) !! Message.senderId (Message.msg f)
           = Some (Message.sender f)
         ∧ Store.users (prisma st) !! Message.receiverId (Message.msg f)
           = Some (Message.receiver f))
    ∧ (∀ m, m ∈ Store.messages (prisma st) →
         Prisma.between userId otherUserId m = true →
         is_Some (Store.users (prisma st) !! Message.senderId m) →
         is_Some (Store.users (prisma st) !! Message.receiverId m) →
         ∃ f, f ∈ history ∧ Message.msg f = m).
Proof.
  intros Hv. cbn [handle]. unfold handleGetMessages. rewrite Hv.
  eexists. split; [reflexivity|]. unfold Prisma.message_findMany.
  destruct (order_by_createdAt_spec
              (List.filter (Prisma.between userId otherUserId)
                 (Store.messages (prisma st)))) as [Hsorted Hperm].
  split_and!.
  - by apply omap_include_sorted.
  - intros f Hf. apply list_elem_of_omap in Hf as (m & Hm & Hf).
    apply include_users_msg in Hf as (-> & Hs & Hr).
    rewrite Hperm in Hm. apply list_elem_of_In, filter_In in Hm as [Hm Hb].
    split_and!; try done. by apply list_elem_of_In.
  - intros m Hm Hb [su Hs] [ru Hr].
    exists (Message.mkFull m su ru). split; [|done].
    apply list_elem_of_omap. exists m. split.
    + rewrite Hperm. apply list_elem_of_In, filter_In.
      split; [by apply list_elem_of_In | done].
    + unfold Prisma.include_users. by rewrite Hs, Hr.
Qed.

End Messages.

Section WholeRuns.
Variable jwt_verify : Z → string → option string.
Implicit Types (st a b : Gateway) (client : Socket.t).

(** ** The active-chat map is never read *)

Lemma same_but_chats_eq a b :
  same_but_chats a b → a = set_userActiveChats (λ _, userActiveChats a) b.
Proof.
  destruct a, b. unfold same_but_chats. simpl.
  intros (-> & -> & -> & -> & -> & ->). done.
Qed.

Lemma same_but_chats_set f b : same_but_chats (set_userActiveChats f b) b.
Proof. by repeat split. Qed.

Lemma handle_chats client ev c st :
  (handle jwt_verify client ev (set_userActiveChats (λ _, c) st)).2
  = (handle jwt_verify client ev st).2
  ∧ same_but_chats
      (handle jwt_verify client ev (set_userActiveChats (λ _, c) st)).1
      (handle jwt_verify client ev st).1.
Proof.
  destruct ev; cbn [handle];
    unfold handleFileWebRTCOffer, handleFileWebRTCAnswer,
      handleFileWebRTCIceCandidate, relay_by_user, handleFileMessage,
      handleCheckUserOnline, handleInitiateCall, handleAcceptCall,
      handleRejectCall, handleEndCall, handleWebRTCOffer,
      handleWebRTCAnswer, handleWebRTCIceCandidate, handleMessage,
      handleGetMessages, handleMarkMessagesRead, handleSetActiveChat,
      handleGetUnreadCounts, verify, live, isSocketConnected,
      sendUnreadCounts;
    cbn [set_userActiveChats set_prisma set_activeCalls connectedUsers
         userActiveChats activeCalls sockets prisma timers clock];
    repeat (case_match; simplify_eq;
            cbn [set_userActiveChats set_prisma set_activeCalls
                 connectedUsers userActiveChats activeCalls sockets prisma
                 timers clock] in *);
    simplify_eq; split; try reflexivity; by repeat split.
Qed.

Lemma endCallsOf_chats userId es c st :
  endCallsOf userId es (set_userActiveChats (λ _, c) st)
  = (set_userActiveChats (λ _, c) (endCallsOf userId es st).1,
     (endCallsOf userId es st).2).
Proof.
  revert st. induction es as [|[k call] es IH]; intros st; [done|].
  cbn [endCallsOf]. destruct (involves userId call); [|apply IH].
  assert (endCallOnDisconnect userId k call (set_userActiveChats (λ _, c) st)
          = (set_userActiveChats (λ _, c)
               (endCallOnDisconnect userId k call st).1,
             (endCallOnDisconnect userId k call st).2)) as ->.
  { unfold endCallOnDisconnect.
    cbn [set_userActiveChats prisma clock].
    by destruct (Prisma.call_update _ _ _). }
  destruct (endCallOnDisconnect userId k call st) as [st1 out1].
  cbn [fst snd]. rewrite IH.
  by destruct (endCallsOf userId es st1) as [st2 out2].
Qed.

Lemma graceExpired_chats userId socketId a b :
  same_but_chats a b →
  (graceExpired userId socketId a).2 = (graceExpired userId socketId b).2
  ∧ same_but_chats (graceExpired userId socketId a).1
      (graceExpired userId socketId b).1.
Proof.
  intros Hab. rewrite (same_but_chats_eq a b Hab).
  generalize (userActiveChats a). intros c.
  unfold graceExpired, handleUserDisconnectFromCalls, JsMap.entries.
  change (connectedUsers (set_userActiveChats (λ _, c) b))
    with (connectedUsers b).
  change (activeCalls
            (set_userActiveChats (JsMap.delete userId)
               (set_connectedUsers (JsMap.delete userId)
                  (set_userActiveChats (λ _, c) b))))
    with (activeCalls b).
  change (activeCalls
            (set_userActiveChats (JsMap.delete userId)
               (set_connectedUsers (JsMap.delete userId) b)))
    with (activeCalls b).
  change (set_userActiveChats (JsMap.delete userId)
            (set_connectedUsers (JsMap.delete userId)
               (set_userActiveChats (λ _, c) b)))
    with (set_userActiveChats (λ _, JsMap.delete userId c)
            (set_userActiveChats (JsMap.delete userId)
               (set_connectedUsers (JsMap.delete userId) b))).
  case_decide; [|split; [done | apply same_but_chats_set]].
  rewrite endCallsOf_chats. cbn [fst snd].
  split; [done | apply same_but_chats_set].
Qed.

Lemma runTimers_chats deadline ts a b :
  same_but_chats a b →
  (runTimers deadline ts a).1.2 = (runTimers deadline ts b).1.2
  ∧ (runTimers deadline ts a).2 = (runTimers deadline ts b).2
  ∧ same_but_chats (runTimers deadline ts a).1.1 (runTimers deadline ts b).1.1.
Proof.
  revert a b. induction ts as [|t ts IH]; intros a b Hab; [done|].
  cbn [runTimers]. destruct (due t <=? deadline).
  - assert (Hclk : same_but_chats (set_clock (Z.max (clock a) (due t)) a)
                     (set_clock (Z.max (clock b) (due t)) b)).
    { destruct Hab as (? & ? & ? & ? & ? & Hk). rewrite Hk.
      by repeat split. }
    destruct (graceExpired_chats (t_userId t) (t_socketId t) _ _ Hclk)
      as [Ho Hs].
    destruct (graceExpired _ _ (set_clock _ a)) as [a1 oa].
    destruct (graceExpired _ _ (set_clock _ b)) as [b1 ob].
    cbn [fst snd] in *. destruct (IH a1 b1 Hs) as (I1 & I2 & I3).
    destruct (runTimers deadline ts a1) as [[a2 oa2] ra].
    destruct (runTimers deadline ts b1) as [[b2 ob2] rb].
    cbn [fst snd] in *. by subst.
  - destruct (IH a b Hab) as (I1 & I2 & I3).
    destruct (runTimers deadline ts a) as [[a2 oa2] ra].
    destruct (runTimers deadline ts b) as [[b2 ob2] rb].
    cbn [fst snd] in *. by subst.
Qed.

Lemma step_chats a b i :
  same_but_chats a b →
  (step jwt_verify a i).2 = (step jwt_verify b i).2
  ∧ same_but_chats (step jwt_verify a i).1 (step jwt_verify b i).1.
Proof.
  intros Hab. destruct i as [client|client|client ev|dt].
  - rewrite (same_but_chats_eq a b Hab). generalize (userActiveChats a).
    intros c. cbn [step].
    unfold handleConnection, verify, client_disconnect, handleDisconnect,
      sendUnreadCounts, updateUserSocketInActiveCalls.
    cbn [set_userActiveChats set_sockets set_connectedUsers set_activeCalls
         connectedUsers userActiveChats activeCalls sockets prisma timers
         clock].
    repeat case_match; simplify_eq; split; try reflexivity; by repeat split.
  - rewrite (same_but_chats_eq a b Hab). generalize (userActiveChats a).
    intros c. cbn [step]. unfold client_disconnect, handleDisconnect.
    cbn [set_userActiveChats set_sockets connectedUsers].
    repeat case_match; simplify_eq; split; try reflexivity; by repeat split.
  - rewrite (same_but_chats_eq a b Hab). apply handle_chats.
  - cbn [step]. unfold elapse.
    assert (timers a = timers b ∧ clock a = clock b) as [Ht Hk]
      by (destruct Hab as (? & ? & ? & ? & ? & ?); done).
    rewrite Ht, Hk.
    destruct (runTimers_chats (clock b + Z.max 0 dt) (timers b) a b Hab)
      as (I1 & I2 & I3).
    destruct (runTimers _ _ a) as [[a2 oa2] ra].
    destruct (runTimers _ _ b) as [[b2 ob2] rb].
    cbn [fst snd] in *. subst. split; [done|].
    destruct I3 as (? & ? & ? & ? & ? & ?). by repeat split.
Qed.

(** X21. [userActiveChats] is only ever written: replace its content
    by anything and, over any sequence of inputs, the gateway emits the
    same events and reaches the same presence, calls, sockets, store,
    timers and clock. In particular an incoming message is never marked
    read because the receiver is viewing the sender's chat. *)
Theorem active_chats_never_read chats inputs st :
  (run jwt_verify (set_userActiveChats (λ _, chats) st) inputs).2
  = (run jwt_verify st inputs).2
  ∧ same_but_chats
      (run jwt_verify (set_userActiveChats (λ _, chats) st) inputs).1
      (run jwt_verify st inputs).1.
Proof.
  assert (H : ∀ a b, same_but_chats a b →
            (run jwt_verify a inputs).2 = (run jwt_verify b inputs).2
            ∧ same_but_chats (run jwt_verify a inputs).1
                (run jwt_verify b inputs).1).
  { induction inputs as [|i inputs IH]; intros a b Hab; [done|].
    rewrite !run_cons. cbn [fst snd].
    destruct (step_chats a b i Hab) as [Ho Hs].
    destruct (IH _ _ Hs) as [Ho' Hs']. by rewrite Ho, Ho'. }
  apply H, same_but_chats_set.
Qed.

(** ** Pending timers *)

Lemma graceExpired_timers userId socketId st :
  timers (graceExpired userId socketId st).1 = timers st.
Proof.
  unfold graceExpired, handleUserDisconnectFromCalls. case_decide; [|done].
  match goal with |- context [endCallsOf ?u ?es ?s] =>
    destruct (endCallsOf_spec u es s) as ((_ & _ & _ & E & _) & _)
  end.
  by rewrite E.
Qed.

Lemma runTimers_rest deadline ts st :
  (runTimers deadline ts st).2 = filter (λ t, deadline < due t) ts.
Proof.
  revert st. induction ts as [|t ts IH]; intros st; [done|].
  cbn [runTimers]. destruct (due t <=? deadline) eqn:Hd.
  - apply Z.leb_le in Hd. rewrite filter_cons_False by lia.
    destruct (graceExpired _ _ _) as [st1 out1]. specialize (IH st1).
    by destruct (runTimers deadline ts st1) as [[st2 out2] rest].
  - apply Z.leb_gt in Hd. rewrite filter_cons_True by lia.
    specialize (IH st).
    destruct (runTimers deadline ts st) as [[st2 out2] rest].
    cbn [snd] in *. by rewrite IH.
Qed.

Lemma StronglySorted_filter {A} (R : relation A) (P : A → Prop)
    `{!∀ x, Decision (P x)} (l : list A) :
  StronglySorted R l → StronglySorted R (filter P l).
Proof.
  induction 1 as [|x l Hs IH Hx]; [constructor|].
  destruct (decide (P x)).
  - rewrite filter_cons_True by done. constructor; [done|].
    apply Forall_forall. intros y Hy.
    apply list_elem_of_filter in Hy as [_ Hy].
    rewrite Forall_forall in Hx. by apply Hx.
  - by rewrite filter_cons_False.
Qed.

Lemma timers_pending_disconnect client st :
  timers_pending st → timers_pending (handleDisconnect client st).
Proof.
  intros [Hs Hb]. unfold handleDisconnect.
  destruct (find _ _) as [[u s]|]; [|done].
  split; simpl.
  - apply StronglySorted_app_2; [|done|repeat constructor].
    intros t1 t2 H1 ->%list_elem_of_singleton.
    rewrite Forall_forall in Hb. destruct (Hb _ H1) as [_ Hle].
    unfold due_le. simpl. done.
  - apply Forall_app. split; [done|]. repeat constructor; simpl;
      unfold GRACE_MS; lia.
Qed.

Lemma timers_pending_step st i :
  timers_pending st → timers_pending (step jwt_verify st i).1.
Proof.
  intros Hp. destruct i as [client|client|client ev|dt]; cbn [step].
  - unfold handleConnection. case_match; cbn [fst]; [done|].
    unfold client_disconnect. by apply timers_pending_disconnect.
  - unfold client_disconnect. by apply timers_pending_disconnect.
  - destruct (handle_keeps jwt_verify client ev st) as (_ & _ & Ht & Hk & _).
    unfold timers_pending. by rewrite Ht, Hk.
  - destruct Hp as [Hs Hb]. unfold elapse.
    pose proof (runTimers_rest (clock st + Z.max 0 dt) (timers st) st) as Hr.
    destruct (runTimers _ _ _) as [[st1 out] rest]. cbn [fst snd] in *.
    subst rest. split; simpl.
    + by apply StronglySorted_filter.
    + apply Forall_forall. intros t Ht.
      apply list_elem_of_filter in Ht as [Hlt Ht].
      rewrite Forall_forall in Hb. destruct (Hb _ Ht) as [_ Hle].
      split; lia.
Qed.

(** X22. In every reachable state the pending grace timers stand in
    the order they are due, none is overdue and none is due later than
    3000 ms from now, so the timers fire in the order in which the
    sockets closed. *)
Theorem timers_in_order st :
  reachable jwt_verify st → timers_pending st.
Proof.
  induction 1 as [db now|st i _ IH].
  - split; constructor.
  - by apply timers_pending_step.
Qed.

(** ** File-transfer relays *)

Lemma file_relay_to_bound client targetUserId payload senderId st :
  verify jwt_verify st client = Some senderId →
  handle jwt_verify client (In.file_webrtc_offer targetUserId payload) st
  = (st, to_bound (connectedUsers st) targetUserId
           (Out.file_webrtc_offer senderId payload))
  ∧ handle jwt_verify client (In.file_webrtc_answer targetUserId payload) st
    = (st, to_bound (connectedUsers st) targetUserId
             (Out.file_webrtc_answer senderId payload))
  ∧ handle jwt_verify client
      (In.file_webrtc_ice_candidate targetUserId payload) st
    = (st, to_bound (connectedUsers st) targetUserId
             (Out.file_webrtc_ice_candidate senderId payload)).
Proof.
  intros Hv. cbn [handle].
  unfold handleFileWebRTCOffer, handleFileWebRTCAnswer,
    handleFileWebRTCIceCandidate, relay_by_user, to_bound.
  rewrite Hv.
  destruct (JsMap.get targetUserId (connectedUsers st)) as [s|]; [|done].
  by destruct (truthy s).
Qed.

Lemma grace_run_presence client dt st :
  timers st = [] → 0 ≤ dt < GRACE_MS →
  let st' := (run jwt_verify st [Disconnect client; Elapse dt]).1 in
  connectedUsers st' = connectedUsers st
  ∧ sockets st' = sockets st ∖ {[Socket.id client]}.
Proof.
  intros Ht [Hdt0 Hdt1]. cbn zeta. rewrite !run_cons. cbn [run fst snd].
  destruct (List.find (λ '(_, s), bool_decide (s = Socket.id client))
              (JsMap.entries (connectedUsers st))) as [[u s]|] eqn:Hfind.
  - rewrite (step_Disconnect_bound _ _ _ _ _ Hfind). cbn [fst snd].
    set (t := mkTimer (clock st + GRACE_MS) u (Socket.id client)).
    set (st1 := set_timers _ _).
    assert (Ht1 : timers st1 = [t]) by (simpl; by rewrite Ht).
    assert (Hpend : clock st1 + Z.max 0 dt < due t) by (simpl; lia).
    cbn [step]. by rewrite (elapse_pending t dt st1 Ht1 Hpend).
  - cbn [step]. unfold client_disconnect, handleDisconnect.
    change (connectedUsers (set_sockets _ st)) with (connectedUsers st).
    rewrite Hfind. cbn [fst]. unfold elapse. cbn [timers set_sockets].
    rewrite Ht. simpl. done.
Qed.

(** X23. The file-transfer relays do not check that the target's
    socket is connected. After the socket a user is bound to closes,
    and while the grace period runs, a [file_webrtc_offer],
    [file_webrtc_answer] or [file_webrtc_ice_candidate] for that user
    from a socket whose token verifies is emitted to the closed socket,
    labelled with the verified id of the sender; the state does not
    change and the sender is told nothing. *)
Theorem file_relay_during_grace client peer targetUserId payload senderId
    dt st :
  timers st = [] →
  0 ≤ dt < GRACE_MS →
  JsMap.get targetUserId (connectedUsers st) = Some (Socket.id peer) →
  truthy (Socket.id peer) = true →
  let st' := (run jwt_verify st [Disconnect peer; Elapse dt]).1 in
  verify jwt_verify st' client = Some senderId →
  (Socket.id peer ∉ sockets st')
  ∧ handle jwt_verify client (In.file_webrtc_offer targetUserId payload) st'
    = (st', [ServerTo (Socket.id peer)
               (Out.file_webrtc_offer senderId payload)])
  ∧ handle jwt_verify client (In.file_webrtc_answer targetUserId payload) st'
    = (st', [ServerTo (Socket.id peer)
               (Out.file_webrtc_answer senderId payload)])
  ∧ handle jwt_verify client
      (In.file_webrtc_ice_candidate targetUserId payload) st'
    = (st', [ServerTo (Socket.id peer)
               (Out.file_webrtc_ice_candidate senderId payload)]).
Proof.
  intros Ht Hdt Hget Htr st' Hv.
  destruct (grace_run_presence peer dt st Ht Hdt) as [Hu Hs].
  fold st' in Hu, Hs.
  destruct (file_relay_to_bound client targetUserId payload senderId st' Hv)
    as (H1 & H2 & H3).
  rewrite H1, H2, H3. unfold to_bound. rewrite Hu, Hget, Htr.
  split; [|done]. rewrite Hs. set_solver.
Qed.

End WholeRuns.

(** * Handlers that overlap *)

Section OverlapFacts.

Variable jwt_verify : Z → string → option string.


Lemma loop_teardown_frame userId position m :
  let m' := loop_handleUserDisconnectFromCalls userId position m in
  Machine.prisma m' = Machine.prisma m
  ∧ Machine.sockets m' = Machine.sockets m
  ∧ Machine.activeCalls m' = Machine.activeCalls m
  ∧ Machine.objects m' = Machine.objects m
  ∧ Machine.connectedUsers m' = Machine.connectedUsers m
  ∧ Machine.userActiveChats m' = Machine.userActiveChats m
  ∧ Machine.timers m' = Machine.timers m
  ∧ Machine.clock m' = Machine.clock m.
Proof.
  cbn zeta. unfold loop_handleUserDisconnectFromCalls.
  by repeat case_match.
Qed.

Lemma begin_graceExpired_frame userId socketId m :
  let m' := begin_graceExpired userId socketId m in
  Machine.prisma m' = Machine.prisma m
  ∧ Machine.sockets m' = Machine.sockets m
  ∧ Machine.activeCalls m' = Machine.activeCalls m
  ∧ Machine.objects m' = Machine.objects m.
Proof.
  cbn zeta. unfold begin_graceExpired. case_decide; [|done].
  match goal with |- context [loop_handleUserDisconnectFromCalls ?u ?p ?x] =>
    destruct (loop_teardown_frame u p x) as (-> & -> & -> & -> & _)
  end.
  done.
Qed.

Lemma begin_timers_frame deadline ts m :
  let m' := (begin_timers deadline ts m).1 in
  Machine.prisma m' = Machine.prisma m
  ∧ Machine.sockets m' = Machine.sockets m
  ∧ Machine.activeCalls m' = Machine.activeCalls m
  ∧ Machine.objects m' = Machine.objects m.
Proof.
  cbn zeta. revert m. induction ts as [|t ts IH]; intros m; [done|].
  cbn [begin_timers]. destruct (due t <=? deadline).
  - match goal with |- context [begin_timers _ _ ?x] =>
      destruct (IH x) as (-> & -> & -> & ->) end.
    match goal with |- context [begin_graceExpired ?u ?s ?x] =>
      destruct (begin_graceExpired_frame u s x) as (-> & -> & -> & ->) end.
    done.
  - specialize (IH m). by destruct (begin_timers deadline ts m).
Qed.

Lemma arrival_rows i m :
  Store.calls (Machine.prisma (arrival jwt_verify i m).1)
  = Store.calls (Machine.prisma m).
Proof.
  destruct i as [client|client|client ev|dt]; cbn [arrival].
  - unfold begin_handleConnection, in_one_piece, client_disconnect,
      handleDisconnect.
    by repeat case_match.
  - unfold in_one_piece, client_disconnect, handleDisconnect.
    by repeat case_match.
  - destruct (call_control ev) eqn:Hcc.
    + destruct ev; try discriminate; cbn [receive];
        unfold begin_handleInitiateCall, begin_handleAcceptCall,
          begin_handleRejectCall, begin_handleEndCall;
        by repeat case_match.
    + assert (receive jwt_verify client ev m
              = in_one_piece (handle jwt_verify client ev) m) as ->
        by (by destruct ev).
      unfold in_one_piece.
      destruct (handle_frame jwt_verify client ev (view m) Hcc)
        as (_ & _ & Hr & _).
      by destruct (handle jwt_verify client ev (view m)).
  - cbn [fst]. unfold pass.
    pose proof (begin_timers_frame (Machine.clock m + Z.max 0 dt)
                  (Machine.timers m) m) as (Hp & _).
    destruct (begin_timers _ _ _) as [m1 rest]. simpl in *. by rewrite Hp.
Qed.

Lemma go_on_rows n m :
  Machine.prisma (go_on n m).1 = Machine.prisma m.
Proof.
  unfold go_on. destruct (Machine.pending m !! n) as [[h [o|]]|]; [|done..].
  destruct h; cbn zeta.
  - unfold end_handleInitiateCall. by destruct o.
  - unfold end_handleAcceptCall. by repeat case_match.
  - unfold end_handleRejectCall. by repeat case_match.
  - unfold end_handleEndCall. by repeat case_match.
  - unfold turn_handleUserDisconnectFromCalls.
    destruct (_ !! call); [|done]. cbn [fst].
    match goal with |- context [loop_handleUserDisconnectFromCalls ?u ?p ?x] =>
      destruct (loop_teardown_frame u p x) as (-> & _) end.
    done.
Qed.

Lemma written_status_spec h callId data r :
  update_of h = Some (callId, data) →
  CallRow.status (data r) = written_status h
  ∧ written_status h ≠ initiated.
Proof. destruct h; simpl; intros; simplify_eq; done. Qed.

Lemma sched_step_rows m l callId r :
  Store.calls (Machine.prisma m) !! callId = Some r →
  ∃ r', Store.calls (Machine.prisma (sched_step jwt_verify m l).1) !! callId
        = Some r'
        ∧ (r' = r
           ∨ ∃ n h data,
               l = commit n
               ∧ Machine.pending m !! n = Some (mkTask h None)
               ∧ update_of h = Some (callId, data)
               ∧ r' = data r).
Proof.
  intros Hrow. destruct l as [i|n|n]; cbn [sched_step].
  - rewrite arrival_rows. eauto.
  - cbn [fst]. unfold run_query.
    destruct (Machine.pending m !! n) as [[h [o|]]|] eqn:Hn; [eauto| |eauto].
    destruct (update_of h) as [[cid data]|] eqn:Hu.
    + assert (Hrun : ∀ m0 : Machine.t,
        match Prisma.call_update (Machine.prisma m) cid data with
        | Some db => settle n updated (Machine.set_prisma db m)
        | None => settle n threw m
        end = m0 →
        ∃ r', Store.calls (Machine.prisma m0) !! callId = Some r'
              ∧ (r' = r ∨ ∃ n0 h0 data0, commit n = commit n0
                   ∧ Machine.pending m !! n0 = Some (mkTask h0 None)
                   ∧ update_of h0 = Some (callId, data0) ∧ r' = data0 r)).
      { intros m0 <-. unfold Prisma.call_update.
        destruct (Store.calls (Machine.prisma m) !! cid) as [r0|] eqn:Hr0;
          simpl; [|eauto].
        destruct (decide (cid = callId)) as [->|Hne].
        - rewrite lookup_insert_eq. eexists. split; [done|].
          right. exists n, h, data. by simplify_eq.
        - rewrite lookup_insert_ne by done. eauto. }
      destruct h; simpl in Hu; try discriminate; by apply Hrun.
    + destruct h; simpl in Hu; try discriminate.
      destruct (Prisma.call_create _ _ _ _ _) as [[[[db row] cu] ru]|] eqn:Hc;
        simpl; [|eauto].
      apply call_create_fresh in Hc as (Hfresh & -> & _).
      rewrite lookup_insert_ne; [eauto|]. intros E. congruence.
  - rewrite go_on_rows. eauto.
Qed.

Lemma live_view_pending f m s :
  live (view (Machine.set_pending f m)) s = live (view m) s.
Proof. done. Qed.


Lemma sched_run_cons m l ls :
  sched_run jwt_verify m (l :: ls) =
    ((sched_run jwt_verify (sched_step jwt_verify m l).1 ls).1,
     (sched_step jwt_verify m l).2
     ++ (sched_run jwt_verify (sched_step jwt_verify m l).1 ls).2).
Proof.
  cbn [sched_run]. destruct (sched_step jwt_verify m l) as [m1 out1].
  cbn [fst snd]. by destruct (sched_run jwt_verify m1 ls) as [m2 out2].
Qed.

Lemma sched_reachable_run m ls :
  sched_reachable jwt_verify m →
  sched_reachable jwt_verify (sched_run jwt_verify m ls).1.
Proof.
  revert m. induction ls as [|l ls IH]; intros m Hr; [done|].
  rewrite sched_run_cons. cbn [fst]. apply IH. by constructor.
Qed.

End OverlapFacts.

(** * The grace period in general *)

Section GracePeriod.

Variable jwt_verify : Z → string → option string.
Implicit Types (st : Gateway) (client : Socket.t) (callId : string).






















End GracePeriod.

(** * Call status under any schedule *)

Section CallStatus.

Variable jwt_verify : Z → string → option string.

(** C2 (amended). No handler reads the status of a call. Under any
    schedule, a step either leaves the durable record of a call as it
    is or is the store running the update of a suspended handler for
    that call, which sets the status that belongs to the handler
    (accepted for [accept_call], rejected for [reject_call], ended for
    [end_call] and for the teardown after the grace period): a record
    is never deleted and never set back to initiated. The update of a
    suspended handler is applied whatever the record has become in the
    meantime. When handlers run one at a time, the changes of status
    are initiated→accepted, accepted→accepted, initiated→rejected,
    accepted→rejected, initiated→ended and accepted→ended, and a record
    that is rejected or ended is not written again. *)
Theorem status_transitions :
  (∀ m l callId r,
     Store.calls (Machine.prisma m) !! callId = Some r →
     ∃ r', Store.calls (Machine.prisma (sched_step jwt_verify m l).1)
             !! callId = Some r'
           ∧ (r' = r
              ∨ ∃ n h data,
                  l = commit n
                  ∧ Machine.pending m !! n = Some (mkTask h None)
                  ∧ update_of h = Some (callId, data)
                  ∧ r' = data r
                  ∧ CallRow.status r' = written_status h
                  ∧ written_status h ≠ initiated))
  ∧ (∀ m n h callId data r,
       Machine.pending m !! n = Some (mkTask h None) →
       update_of h = Some (callId, data) →
       Store.calls (Machine.prisma m) !! callId = Some r →
       Store.calls (Machine.prisma (sched_step jwt_verify m (commit n)).1)
         !! callId = Some (data r))
  ∧ (∀ st i callId r,
       reachable jwt_verify st →
       Store.calls (prisma st) !! callId = Some r →
       ∃ r', Store.calls (prisma (step jwt_verify st i).1) !! callId
               = Some r'
             ∧ (CallRow.status r' = CallRow.status r
                ∨ performed (CallRow.status r) (CallRow.status r'))
             ∧ (CallRow.status r = rejected ∨ CallRow.status r = ended →
                r' = r)).
Proof.
  split_and!.
  2:{ intros m n h callId data r Hn Hu Hrow. cbn [sched_step fst].
      unfold run_query. rewrite Hn.
      destruct h; simpl in Hu; try discriminate; simplify_eq;
        cbn [update_of]; unfold Prisma.call_update; rewrite Hrow; simpl;
        apply lookup_insert_eq. }
  - intros m l callId r Hrow.
    destruct (sched_step_rows jwt_verify m l callId r Hrow)
      as (r' & Hrow' & Hch).
    exists r'. split; [done|].
    destruct Hch as [->|(n & h & data & -> & Hn & Hu & ->)]; [by left|].
    right. exists n, h, data.
    destruct (written_status_spec h callId data r Hu) as [Hs Hi].
    by split_and!.
  - intros st i callId r Hreach Hrow.
    pose proof (reachable_consistent _ _ Hreach) as Hc.
    destruct (step_rows jwt_verify st i callId r Hc Hrow)
      as (r' & Hrow' & Hch).
    exists r'. split; [done|].
    destruct Hch as [->|[[call Hg] Hw]]; [by split; [left|]|].
    destruct (consistent_get _ _ _ Hc Hg) as (Hrc & _ & Hact).
    assert (Call.row call = r) as Hr by congruence.
    unfold Call.status in Hact. rewrite Hr in Hact.
    split.
    + right. destruct Hw; simpl; destruct Hact as [-> | ->]; constructor.
    + intros [E|E]; destruct Hact as [E'|E']; congruence.
Qed.

End CallStatus.

(** * What holds of the Call Table under any schedule *)

Module MapDataFacts.
Section Facts.
Context {V : Type}.
Implicit Types (m : list (option (string * V))).

Lemma get_slot k v m : MapData.get k m = Some v → Some (k, v) ∈ m.
Proof.
  induction m as [|[[k' v']|] m IH]; simpl; [done| |].
  - destruct (decide (k' = k)) as [->|Hne]; intros H.
    + injection H as ->. left.
    + right. by apply IH.
  - intros H. right. by apply IH.
Qed.

Lemma slot_set k v e m :
  Some e ∈ MapData.set k v m → e = (k, v) ∨ Some e ∈ m.
Proof.
  induction m as [|[[k' v']|] m IH]; simpl.
  - intros H%list_elem_of_singleton. left. congruence.
  - destruct (decide (k' = k)) as [->|Hne]; rewrite !elem_of_cons.
    + intros [H|H]; [left; congruence | right; by right].
    + intros [H|H]; [right; by left|].
      destruct (IH H); [by left | right; by right].
  - rewrite !elem_of_cons. intros [H|H]; [done|].
    destruct (IH H); [by left | right; by right].
Qed.

Lemma slot_delete k e m : Some e ∈ MapData.delete k m → Some e ∈ m.
Proof.
  induction m as [|[[k' v']|] m IH]; simpl; [done| |].
  - destruct (decide (k' = k)) as [->|Hne]; rewrite !elem_of_cons.
    + intros [H|H]; [done | by right].
    + intros [H|H]; [by left | right; by apply IH].
  - rewrite !elem_of_cons. intros [H|H]; [done | right; by apply IH].
Qed.

End Facts.
End MapDataFacts.

Section Grounded.

Variable jwt_verify : Z → string → option string.
Implicit Types (m : Machine.t).

Lemma same_call_refl r : same_call r r.
Proof. by split_and!. Qed.

Lemma same_call_trans r1 r2 r3 :
  same_call r1 r2 → same_call r2 r3 → same_call r1 r3.
Proof.
  intros (?&?&?&?&?) (?&?&?&?&?). split_and!; congruence.
Qed.

Lemma update_same_call h callId data r :
  update_of h = Some (callId, data) → same_call r (data r).
Proof. destruct h; simpl; intros; simplify_eq; by split_and!. Qed.

Lemma evolves_same m m' :
  Machine.objects m' = Machine.objects m →
  Store.calls (Machine.prisma m') = Store.calls (Machine.prisma m) →
  evolves m m'.
Proof.
  intros Ho Hr. split.
  - intros ref object H. exists object. by rewrite Ho.
  - intros k row H. exists row. rewrite Hr. split; [done|].
    apply same_call_refl.
Qed.

Lemma refers_to_mono m m' callId ref :
  evolves m m' → refers_to m callId ref → refers_to m' callId ref.
Proof.
  intros [He _] (object & Ho & Hid).
  destruct (He _ _ Ho) as (object' & Ho' & Hid'). exists object'.
  split; [done | congruence].
Qed.

Lemma task_grounded_mono m m' task :
  evolves m m' → task_grounded m task → task_grounded m' task.
Proof.
  intros He. unfold task_grounded.
  destruct (handler task); try by apply refers_to_mono.
  destruct (outcome task) as [[row cu ru| |]|]; try done.
  intros (Hst & row' & Hr & Hs). destruct He as [_ He].
  destruct (He _ _ Hr) as (row'' & Hr' & Hs'). split; [done|]. exists row''.
  split; [done|]. by eapply same_call_trans.
Qed.

Lemma grounded_same m m' :
  Machine.objects m' = Machine.objects m →
  Store.calls (Machine.prisma m') = Store.calls (Machine.prisma m) →
  Machine.activeCalls m' = Machine.activeCalls m →
  Forall (task_grounded m) (Machine.pending m') →
  grounded m → grounded m'.
Proof.
  intros Ho Hr Ha Hp [Hb Hf Ht].
  pose proof (evolves_same m m' Ho Hr) as He.
  split.
  - intros ref object. rewrite Ho, Hr. apply Hb.
  - intros callId ref. rewrite Ha. intros Hin.
    by apply (refers_to_mono m), Hf.
  - eapply Forall_impl; [done|]. intros task. by apply task_grounded_mono.
Qed.

Lemma grounded_suspend h m :
  grounded m → task_grounded m (mkTask h None) → grounded (suspend h m).
Proof.
  intros Hg Ht. apply (grounded_same m); try done.
  simpl. apply Forall_app. split; [apply Hg|]. by constructor.
Qed.

Lemma next_involving_elem userId objects position rest at_ callId call :
  next_involving userId objects position rest = Some (at_, callId, call) →
  Some (callId, call) ∈ rest.
Proof.
  revert position. induction rest as [|[[k c]|] rest IH]; intros position;
    simpl; [done| |].
  - destruct (objects !! c) as [object|].
    + destruct (involves userId object).
      * intros [= _ <- <-]. left.
      * intros H. right. by eapply IH.
    + intros H. right. by eapply IH.
  - intros H. right. by eapply IH.
Qed.

Lemma grounded_loop userId position m :
  grounded m → grounded (loop_handleUserDisconnectFromCalls userId position m).
Proof.
  intros Hg. unfold loop_handleUserDisconnectFromCalls.
  destruct (next_involving _ _ _ _) as [[[at_ callId] call]|] eqn:Hn; [|done].
  apply grounded_suspend; [done|]. simpl.
  apply next_involving_elem in Hn.
  apply (table_filed _ Hg). by apply (subseteq_drop position).
Qed.

Lemma rebind_objects_row userId s (table : list (option (string * nat)))
    objects ref :
  Call.row <$> (rebind_objects userId s table objects !! ref)
  = Call.row <$> (objects !! ref).
Proof.
  unfold rebind_objects. generalize (MapData.entries table) as es.
  intros es. revert objects.
  induction es as [|[k c] es IH]; intros objects; [done|].
  cbn [foldl]. rewrite IH.
  destruct (objects !! c) as [object|] eqn:Ho; [|done].
  assert (Hins : ∀ object' : Call.t,
            Call.row object' = Call.row object →
            Call.row <$> (<[c := object']> objects !! ref)
            = Call.row <$> (objects !! ref)).
  { intros object' Hrow. destruct (decide (c = ref)) as [->|Hne].
    - rewrite list_lookup_insert_eq by by eapply lookup_lt_Some.
      rewrite Ho. simpl. by rewrite Hrow.
    - by rewrite list_lookup_insert_ne. }
  repeat case_decide; [by apply Hins..|done].
Qed.

Lemma rebind_objects_evolves userId s (table : list (option (string * nat)))
    objects ref object' :
  rebind_objects userId s table objects !! ref = Some object' →
  ∃ object, objects !! ref = Some object
            ∧ Call.row object' = Call.row object.
Proof.
  intros H. pose proof (rebind_objects_row userId s table objects ref) as E.
  rewrite H in E. simpl in E.
  destruct (objects !! ref) as [object|]; [|done].
  exists object. split; [done|]. simpl in E. congruence.
Qed.

Lemma rebind_objects_keeps userId s (table : list (option (string * nat)))
    objects ref object :
  objects !! ref = Some object →
  ∃ object', rebind_objects userId s table objects !! ref = Some object'
             ∧ Call.row object' = Call.row object.
Proof.
  intros H. pose proof (rebind_objects_row userId s table objects ref) as E.
  rewrite H in E. simpl in E.
  destruct (rebind_objects _ _ _ _ !! ref) as [object'|]; [|done].
  exists object'. split; [done|]. simpl in E. congruence.
Qed.

Lemma prisma_client_disconnect client g :
  prisma (client_disconnect client g) = prisma g.
Proof. unfold client_disconnect, handleDisconnect. by repeat case_match. Qed.

Lemma grounded_begin_timers deadline ts m :
  grounded m → grounded (begin_timers deadline ts m).1.
Proof.
  revert m. induction ts as [|t ts IH]; intros m Hg; [done|].
  cbn [begin_timers]. destruct (due t <=? deadline).
  - apply IH. unfold begin_graceExpired. case_decide.
    + apply grounded_loop. by apply (grounded_same m); try apply Hg.
    + by apply (grounded_same m); try apply Hg.
  - specialize (IH m Hg). by destruct (begin_timers deadline ts m).
Qed.

Lemma grounded_arrival i m :
  grounded m → grounded (arrival jwt_verify i m).1.
Proof.
  intros Hg. destruct i as [client|client|client ev|dt]; cbn [arrival].
  - unfold begin_handleConnection.
    destruct (verify _ _ _) as [userId|]; cbn [fst].
    + destruct Hg as [Hb Hf Ht].
      set (objects' := rebind_objects _ _ _ _).
      assert (He : ∀ ref object,
                Machine.objects m !! ref = Some object →
                ∃ object', objects' !! ref = Some object'
                           ∧ Call.row object' = Call.row object).
      { intros ref object. apply rebind_objects_keeps. }
      split.
      * intros ref object' Ho. simpl in Ho.
        apply rebind_objects_evolves in Ho as (object & Ho & Hrow).
        destruct (Hb _ _ Ho) as (Hact & row & Hr & Hs).
        unfold Call.status, Call.id in *. rewrite Hrow. eauto.
      * intros callId ref Hin. destruct (Hf _ _ Hin) as (object & Ho & Hid).
        destruct (He _ _ Ho) as (object' & Ho' & Hrow).
        exists object'. split; [done|].
        unfold Call.id in *. by rewrite Hrow.
      * eapply Forall_impl; [done|]. intros task.
        apply task_grounded_mono. split.
        -- intros ref object Ho. destruct (He _ _ Ho) as (object' & Ho' & Hrow).
           exists object'. split; [done|]. unfold Call.id. by rewrite Hrow.
        -- intros k row Hr. exists row. split; [done|]. apply same_call_refl.
    + unfold in_one_piece. cbn [fst]. apply (grounded_same m); try apply Hg;
        try done.
      simpl. by rewrite prisma_client_disconnect.
  - unfold in_one_piece. cbn [fst]. apply (grounded_same m); try apply Hg;
      try done.
    simpl. by rewrite prisma_client_disconnect.
  - destruct (call_control ev) eqn:Hcc.
    + destruct ev; try discriminate; cbn [receive].
      * unfold begin_handleInitiateCall. repeat case_match; cbn [fst];
          try done.
        by apply grounded_suspend.
      * unfold begin_handleAcceptCall.
        destruct (MapData.get _ _) as [call|] eqn:Hget; cbn [fst]; [|done].
        apply grounded_suspend; [done|].
        by apply (table_filed _ Hg), MapDataFacts.get_slot.
      * unfold begin_handleRejectCall.
        destruct (MapData.get _ _) as [call|] eqn:Hget; cbn [fst]; [|done].
        apply grounded_suspend; [done|].
        by apply (table_filed _ Hg), MapDataFacts.get_slot.
      * unfold begin_handleEndCall.
        destruct (MapData.get _ _) as [call|] eqn:Hget; cbn [fst]; [|done].
        destruct (Machine.objects m !! call); cbn [fst]; [|done].
        apply grounded_suspend; [done|].
        by apply (table_filed _ Hg), MapDataFacts.get_slot.
    + assert (receive jwt_verify client ev m
              = in_one_piece (handle jwt_verify client ev) m) as ->
        by (by destruct ev).
      unfold in_one_piece.
      destruct (handle_frame jwt_verify client ev (view m) Hcc)
        as (_ & _ & Hr & _).
      destruct (handle jwt_verify client ev (view m)) as [g out].
      cbn [fst] in *. by apply (grounded_same m); try apply Hg.
  - cbn [fst]. unfold pass.
    pose proof (grounded_begin_timers (Machine.clock m + Z.max 0 dt)
                  (Machine.timers m) m Hg) as Hg1.
    destruct (begin_timers _ _ _) as [m1 rest]. cbn [fst] in Hg1.
    by apply (grounded_same m1); try apply Hg1.
Qed.

Lemma task_grounded_settle m h o o' :
  (∀ row cu ru, o' = created row cu ru →
     ∃ cl ty a b s, h = initiating cl ty a b s
     ∧ CallRow.status row = initiated
     ∧ ∃ row', Store.calls (Machine.prisma m) !! CallRow.id row = Some row'
               ∧ same_call row row') →
  task_grounded m (mkTask h o) → task_grounded m (mkTask h (Some o')).
Proof.
  intros Hc. unfold task_grounded. simpl. destruct h; try done.
  intros _. destruct o' as [row cu ru| |]; try done.
  destruct (Hc row cu ru eq_refl) as (? & ? & ? & ? & ? & _ & Hst & Hrow).
  done.
Qed.

Lemma grounded_commit n m : grounded m → grounded (run_query n m).
Proof.
  intros Hg. unfold run_query.
  destruct (Machine.pending m !! n) as [[h [o|]]|] eqn:Hn; try done.
  assert (Hthrew : grounded (settle n threw m)).
  { apply (grounded_same m); try done. simpl.
    apply Forall_alter; [apply Hg|]. intros [h' o'] _ Hx. simpl.
    apply (task_grounded_settle _ _ o'); [intros; discriminate | done]. }
  assert (Hupd : ∀ callId data,
            update_of h = Some (callId, data) →
            grounded
              match Prisma.call_update (Machine.prisma m) callId data with
              | Some db => settle n updated (Machine.set_prisma db m)
              | None => settle n threw m
              end).
  { intros callId data Hu. unfold Prisma.call_update.
    destruct (Store.calls (Machine.prisma m) !! callId) as [r0|] eqn:Hr0;
      [|done].
    set (m' := settle n updated _).
    assert (He : evolves m m').
    { split; [by eauto|]. intros k row Hk. simpl.
      destruct (decide (callId = k)) as [->|Hne].
      - rewrite lookup_insert_eq. eexists. split; [done|].
        assert (row = r0) as -> by congruence.
        by apply (update_same_call h k).
      - rewrite lookup_insert_ne by done. exists row. split; [done|].
        apply same_call_refl. }
    destruct Hg as [Hb Hf Ht]. split.
    - intros ref object Ho. destruct (Hb _ _ Ho) as (Hact & row & Hr & Hs).
      split; [done|]. destruct He as [_ He].
      destruct (He _ _ Hr) as (row' & Hr' & Hs'). exists row'.
      split; [done|]. by eapply same_call_trans.
    - intros k ref Hin. by apply (refers_to_mono m), Hf.
    - simpl. apply Forall_alter.
      + eapply Forall_impl; [done|]. intros task.
        by apply task_grounded_mono.
      + intros [h' o'] Hx Hp. simpl.
        assert (h' = h) as -> by congruence.
        apply (task_grounded_settle _ _ o'); [|done].
        intros; discriminate. }
  destruct h; try (by eapply Hupd).
  destruct (Prisma.call_create _ _ _ _ _) as [[[[db row] cu] ru]|] eqn:Hc;
    [|done].
  apply call_create_fresh in Hc as (Hfresh & Hdb & Hst & _).
  set (m' := settle n _ _).
  assert (He : evolves m m').
  { split; [by eauto|]. intros k row0 Hk. simpl. rewrite Hdb.
    rewrite lookup_insert_ne by congruence. exists row0.
    split; [done|]. apply same_call_refl. }
  destruct Hg as [Hb Hf Ht]. split.
  - intros ref object Ho. destruct (Hb _ _ Ho) as (Hact & row0 & Hr & Hs).
    split; [done|]. destruct He as [_ He].
    destruct (He _ _ Hr) as (row' & Hr' & Hs'). exists row'.
    split; [done|]. by eapply same_call_trans.
  - intros k ref Hin. by apply (refers_to_mono m), Hf.
  - simpl. apply Forall_alter.
    + eapply Forall_impl; [done|]. intros task. by apply task_grounded_mono.
    + intros [h' o'] Hx Hp. simpl. unfold task_grounded. simpl.
      assert (h' = initiating client type callerId receiverId
                     receiverSocketId) as -> by congruence.
      split; [done|]. exists row. rewrite Hdb, lookup_insert_eq.
      split; [done|]. apply same_call_refl.
Qed.

Lemma grounded_store_object callId object m :
  grounded m →
  Call.id object = callId →
  active_status (Call.status object) →
  (∃ row, Store.calls (Machine.prisma m) !! callId = Some row
          ∧ same_call (Call.row object) row) →
  grounded (store_object callId object m).
Proof.
  intros [Hb Hf Ht] Hid Hact Hrow.
  assert (He : evolves m (store_object callId object m)).
  { split.
    - intros ref o Ho. exists o. split; [|done]. simpl.
      by apply lookup_app_l_Some.
    - intros k row Hk. exists row. split; [done|]. apply same_call_refl. }
  split.
  - intros ref o. simpl. rewrite lookup_snoc_Some.
    intros [[_ Ho]|[_ <-]]; [by apply (Hb ref)|].
    split; [done|]. by rewrite Hid.
  - intros k ref Hin. simpl in Hin.
    apply MapDataFacts.slot_set in Hin as [[= -> ->]|Hin].
    + exists object. split; [|done]. simpl. apply list_lookup_middle. done.
    + by apply (refers_to_mono m), Hf.
  - simpl. eapply Forall_impl; [done|]. intros task.
    by apply task_grounded_mono.
Qed.

Lemma grounded_delete callId m :
  grounded m → grounded (Machine.set_activeCalls (MapData.delete callId) m).
Proof.
  intros [Hb Hf Ht]. split; [done| |done].
  intros k ref Hin. simpl in Hin.
  apply MapDataFacts.slot_delete in Hin. by apply Hf in Hin.
Qed.

Lemma grounded_resume n m : grounded m → grounded (go_on n m).1.
Proof.
  intros Hg. unfold go_on.
  destruct (Machine.pending m !! n) as [[h [o|]]|] eqn:Hn; try done.
  pose proof (Forall_lookup_1 _ _ _ _ (tasks_grounded _ Hg) Hn) as Htask.
  set (m1 := Machine.set_pending (delete n) m).
  assert (Hg1 : grounded m1).
  { apply (grounded_same m); try done. simpl. apply Forall_delete, Hg. }
  assert (Hobj : ∀ callId call object,
            refers_to m callId call →
            Machine.objects m1 !! call = Some object →
            Call.id object = callId
            ∧ active_status (Call.status object)
            ∧ ∃ row, Store.calls (Machine.prisma m1) !! callId = Some row
                     ∧ same_call (Call.row object) row).
  { intros callId call object (object0 & Ho0 & Hid) Ho. simpl in Ho.
    assert (object0 = object) as -> by congruence.
    destruct (objects_backed _ Hg _ _ Ho) as (Hact & row & Hr & Hs).
    rewrite Hid in Hr. eauto. }
  destruct h; cbn zeta.
  - unfold end_handleInitiateCall.
    destruct o as [row caller receiver| |]; try done. cbn [fst].
    destruct Htask as (Hst & row' & Hr & Hs).
    apply grounded_store_object; [done | done | by left | by eauto].
  - unfold end_handleAcceptCall.
    destruct o; try done.
    destruct (Machine.objects m1 !! call) as [object|] eqn:Ho; [|done].
    cbn [fst].
    destruct (Hobj _ _ _ Htask Ho) as (Hid & Hact & row & Hr & Hs).
    apply grounded_store_object; [done | done | by right |].
    exists row. split; [done|]. destruct Hs as (?&?&?&?&?). by split_and!.
  - unfold end_handleRejectCall.
    destruct o; try done.
    destruct (Machine.objects m1 !! call) as [object|]; [|done].
    by apply grounded_delete.
  - unfold end_handleEndCall.
    destruct o; try done.
    destruct (Machine.objects m1 !! call) as [object|]; [|done].
    by apply grounded_delete.
  - unfold turn_handleUserDisconnectFromCalls.
    destruct (Machine.objects m1 !! call) as [object|]; [|done].
    cbn [fst]. by apply grounded_loop, grounded_delete.
Qed.

Lemma grounded_step m l : grounded m → grounded (sched_step jwt_verify m l).1.
Proof.
  intros Hg. destruct l as [i|n|n]; cbn [sched_step].
  - by apply grounded_arrival.
  - by apply grounded_commit.
  - by apply grounded_resume.
Qed.

Lemma sched_reachable_grounded m : sched_reachable jwt_verify m → grounded m.
Proof.
  induction 1 as [db now|m l _ IH].
  - split; [done | | constructor]. intros callId ref Hin.
    by apply elem_of_nil in Hin.
  - by apply grounded_step.
Qed.

(** X24. Under any schedule of overlapping handlers, every entry of
    [activeCalls] points to an object of its own call id that is
    initiated or accepted, and the store has a row under that id with
    the same id, type, creation time, caller and receiver. The status,
    end time and duration of the row need not be those of the entry. *)
Theorem entries_grounded_under_any_schedule m callId ref :
  sched_reachable jwt_verify m →
  MapData.get callId (Machine.activeCalls m) = Some ref →
  ∃ object row,
    Machine.objects m !! ref = Some object
    ∧ Call.id object = callId
    ∧ active_status (Call.status object)
    ∧ Store.calls (Machine.prisma m) !! callId = Some row
    ∧ same_call (Call.row object) row.
Proof.
  intros Hreach Hget. pose proof (sched_reachable_grounded m Hreach) as Hg.
  apply MapDataFacts.get_slot in Hget.
  destruct (table_filed _ Hg _ _ Hget) as (object & Ho & Hid).
  destruct (objects_backed _ Hg _ _ Ho) as (Hact & row & Hr & Hs).
  exists object, row. rewrite Hid in Hr. by split_and!.
Qed.

End Grounded.

(** * Worked examples on the small deployment *)

Module DemoFacts.

Lemma attached_reachable : reachable Demo.verify Demo.attached.
Proof. apply reachable_run, reachable_initial. Qed.

Lemma ringing_reachable : reachable Demo.verify Demo.ringing.
Proof. apply reachable_step, attached_reachable. Qed.

Lemma talking_reachable : reachable Demo.verify Demo.talking.
Proof. apply reachable_step, ringing_reachable. Qed.

Lemma talked_reachable : reachable Demo.verify Demo.talked.
Proof. apply reachable_step, talking_reachable. Qed.

Lemma self_ringing_reachable : reachable Demo.verify Demo.self_ringing.
Proof. apply reachable_step, attached_reachable. Qed.

(** The scenario of the specification: Alice rings Bob with video, Bob
  accepts, Alice ends the call 30.5 s after it was created. *)
Example call_scenario :
JsMap.get "0" (activeCalls Demo.ringing) = Some Demo.call0
∧ Call.status <$> JsMap.get "0" (activeCalls Demo.talking) = Some accepted
∧ (let r := handle Demo.verify Demo.sA (In.end_call "0") Demo.talked in
   Store.calls (prisma r.1) !! "0"
   = Some (CallRow.mk "0" video ended (Some 30) 0 (Some 30500)
             "alice" "bob")
   ∧ r.2 = [ServerTo "sA" (Out.call_ended "0");
            ServerTo "sB" (Out.call_ended "0")]
   ∧ activeCalls r.1 = []).
Proof. vm_compute. done. Qed.

End DemoFacts.

(** ** Counterexamples to the claims as stated *)

(** C1 as stated fails: Alice's token no longer verifies, yet her
    [end_call] removes the call and relays [call_ended] to both
    sessions. *)
Lemma expired_token_ends_call :
  let r := handle Demo.verify Demo.sA (In.end_call "0") Demo.late in
  verify Demo.verify Demo.late Demo.sA = None
  ∧ JsMap.has "0" (activeCalls Demo.late) = true
  ∧ JsMap.has "0" (activeCalls r.1) = false
  ∧ r.2 = [ServerTo "sA" (Out.call_ended "0");
           ServerTo "sB" (Out.call_ended "0")].
Proof. vm_compute. done. Qed.

(** C2 as stated fails: the call is accepted, and Bob's [reject_call]
    makes its durable record rejected. *)
Lemma accepted_then_rejected :
  let r := step Demo.verify Demo.talking
             (Receive Demo.sB (In.reject_call "0")) in
  CallRow.status <$> Store.calls (prisma Demo.talking) !! "0" = Some accepted
  ∧ CallRow.status <$> Store.calls (prisma r.1) !! "0" = Some rejected
  ∧ r.2 = [ServerTo "sA" (Out.call_rejected "0")].
Proof. vm_compute. done. Qed.

(** C3 as stated fails: the receiver Bob is bound to socket sB, and
    Carol's [accept_call] on socket sC makes the call accepted with sC
    stored as the receiver session. *)
Lemma third_party_accepts :
  let r := handle Demo.verify Demo.sC (In.accept_call "0") Demo.ringing in
  JsMap.get "0" (activeCalls Demo.ringing) = Some Demo.call0
  ∧ JsMap.get (Call.receiverId Demo.call0) (connectedUsers Demo.ringing)
    = Some "sB"
  ∧ Socket.id Demo.sC ≠ "sB"
  ∧ JsMap.get "0" (activeCalls r.1)
    = Some (Call.set_status accepted
              (Call.set_receiverSocketId "sC" Demo.call0))
  ∧ CallRow.status <$> Store.calls (prisma r.1) !! "0" = Some accepted.
Proof. vm_compute. done. Qed.

(** C7 as stated fails: Bob's session sB is the recorded receiver
    session, so the other participant's session is sA, which is live;
    yet a [webrtc_offer] sent from sB is emitted to sB. *)
Lemma offer_from_receiver_goes_to_receiver :
  JsMap.get "0" (activeCalls Demo.ringing) = Some Demo.call0
  ∧ other_participant_session (Socket.id Demo.sB) Demo.call0 = Some "sA"
  ∧ live Demo.ringing "sA" = true
  ∧ (handle Demo.verify Demo.sB (In.webrtc_offer "0" "sdp") Demo.ringing).2
    = [ServerTo "sB" (Out.webrtc_offer "0" "sdp")].
Proof. vm_compute. done. Qed.

(** C8 as stated fails: Alice's [send_message] to Bob is stored and
    acknowledged with [message_sent], and no emission carries a
    receiver-online flag. *)
Lemma text_ack_has_no_online_flag :
  let r := handle Demo.verify Demo.sA (In.send_message "bob" "hi")
             Demo.attached in
  Message.content <$> Store.messages (prisma r.1) = ["hi"]
  ∧ is_message_sent <$> r.2 = [false; false; true]
  ∧ ack_with_online_flag <$> r.2 = [false; false; false].
Proof. vm_compute. done. Qed.

(** ** The self-call case of reattachment *)

(** C5 fails on a call a user placed to herself: Alice rings Alice,
    her socket sA closes, she attaches again on sA2 one second later.
    The call stays in [activeCalls] with sA2 as caller session, but its
    receiver session is still the closed socket sA. *)
Theorem self_call_receiver_session_stale :
  let r := run Demo.verify Demo.self_ringing
             [Disconnect Demo.sA; Elapse 1000; Connect Demo.sA2;
              Elapse 5000] in
  JsMap.get "alice" (connectedUsers r.1) = Some "sA2"
  ∧ Call.receiverId <$> JsMap.get "0" (activeCalls r.1) = Some "alice"
  ∧ Call.callerSocketId <$> JsMap.get "0" (activeCalls r.1) = Some "sA2"
  ∧ Call.receiverSocketId <$> JsMap.get "0" (activeCalls r.1) = Some "sA"
  ∧ isSocketConnected r.1 "sA" = false.
Proof. vm_compute. done. Qed.

(** ** The theorems at concrete inputs *)

Lemma absent_call_replies_witness :
  JsMap.get "7" (activeCalls Demo.ringing) = None
  ∧ (handle Demo.verify Demo.sB (In.reject_call "7") Demo.ringing).2 = []
  ∧ (handle Demo.verify Demo.sB (In.end_call "7") Demo.ringing).2 = []
  ∧ (handle Demo.verify Demo.sB (In.accept_call "7") Demo.ringing).2
    = [ClientEmit "sB" (Out.call_failed None (Some "Call not found"))].
Proof.
  assert (H : JsMap.get "7" (activeCalls Demo.ringing) = None)
    by (vm_compute; reflexivity).
  split; [exact H|].
  exact (absent_call_replies Demo.verify Demo.sB "7" Demo.ringing H).
Defined.


Lemma credential_gate_witness :
  verify Demo.verify Demo.late Demo.sA = None
  ∧ (handle Demo.verify Demo.sA (In.send_message "bob" "hi") Demo.late).1
    = Demo.late
  ∧ Forall (λ e, relayed e = false)
      (handle Demo.verify Demo.sA (In.send_message "bob" "hi") Demo.late).2
  ∧ (handle Demo.verify Demo.sA (In.send_message "bob" "hi") Demo.late).2
    = [ClientEmit "sA" (Out.error "Failed to send message")]
  ∧ (handle Demo.verify Demo.sA (In.initiate_call "bob" video) Demo.late).2
    = [ClientEmit "sA"
         (Out.call_failed None (Some "Failed to initiate call"))]
  ∧ handle Demo.verify (Socket.mk "sA" None) (In.end_call "0") Demo.late
    = handle Demo.verify Demo.sA (In.end_call "0") Demo.late.
Proof.
  assert (H : verify Demo.verify Demo.late Demo.sA = None)
    by (vm_compute; reflexivity).
  pose proof (credential_gate Demo.verify Demo.sA
                (In.send_message "bob" "hi") Demo.late H) as [Hgate _].
  pose proof (credential_gate Demo.verify Demo.sA
                (In.initiate_call "bob" video) Demo.late H) as [Hcall _].
  pose proof (credential_gate Demo.verify Demo.sA
                (In.end_call "0") Demo.late H) as [_ Hfree].
  destruct (Hgate eq_refl) as (H1 & H2 & H3 & _).
  destruct (Hcall eq_refl) as (_ & _ & H4 & _).
  split_and!; [exact H | exact H1 | exact H2 | exact H3 | exact H4
              | apply (Hfree eq_refl None)].
Defined.

Lemma in_call_relay_witness :
  JsMap.get "0" (activeCalls Demo.ringing) = Some Demo.call0
  ∧ (handle Demo.verify Demo.sA (In.webrtc_offer "0" "sdp") Demo.ringing)
    = (Demo.ringing, [ServerTo "sB" (Out.webrtc_offer "0" "sdp")])
  ∧ (handle Demo.verify Demo.sB (In.webrtc_answer "0" "sdp") Demo.ringing)
    = (Demo.ringing, [ServerTo "sA" (Out.webrtc_answer "0" "sdp")])
  ∧ (handle Demo.verify Demo.sB (In.webrtc_ice_candidate "0" "c")
       Demo.ringing)
    = (Demo.ringing, [ServerTo "sA" (Out.webrtc_ice_candidate "0" "c")]).
Proof.
  assert (H : JsMap.get "0" (activeCalls Demo.ringing) = Some Demo.call0)
    by (vm_compute; reflexivity).
  pose proof (in_call_relay Demo.verify Demo.sA "0" "sdp" _ _ H) as HA.
  pose proof (in_call_relay Demo.verify Demo.sB "0" "sdp" _ _ H) as HB.
  pose proof (in_call_relay Demo.verify Demo.sB "0" "c" _ _ H) as HC.
  cbn zeta in *.
  destruct HA as ((HA1 & _) & HA2 & _).
  destruct HB as ((_ & HB1 & _) & _ & HB2 & _).
  destruct HC as ((_ & _ & HC1) & _ & _ & HC2 & _).
  split_and!; [exact H | | |]; apply injective_projections;
    first [assumption | rewrite HA2 | rewrite HB2 | rewrite HC2];
    vm_compute; reflexivity.
Defined.

Lemma message_send_ack_witness :
  verify Demo.verify Demo.attached Demo.sA = Some "alice"
  ∧ Store.users (prisma Demo.attached) !! "alice" = Some Demo.alice
  ∧ Store.users (prisma Demo.attached) !! "bob" = Some Demo.bob
  ∧ (∃ row,
       Message.type row = text
       ∧ last (handle Demo.verify Demo.sA (In.send_message "bob" "hi")
                 Demo.attached).2
         = Some (ClientEmit "sA"
                   (Out.message_sent
                      (Message.mkFull row Demo.alice Demo.bob) None)))
  ∧ (∃ row,
       Message.type row = file
       ∧ last (handle Demo.verify Demo.sA
                 (In.send_file_message "bob" "hi" "a.txt" 10 "text/plain")
                 Demo.attached).2
         = Some (ClientEmit "sA"
                   (Out.message_sent
                      (Message.mkFull row Demo.alice Demo.bob)
                      (Some true)))).
Proof.
  assert (H1 : verify Demo.verify Demo.attached Demo.sA = Some "alice")
    by (vm_compute; reflexivity).
  assert (H2 : Store.users (prisma Demo.attached) !! "alice"
               = Some Demo.alice) by (vm_compute; reflexivity).
  assert (H3 : Store.users (prisma Demo.attached) !! "bob" = Some Demo.bob)
    by (vm_compute; reflexivity).
  pose proof (message_send_ack Demo.verify Demo.sA "bob" "hi" "alice"
                _ _ _ H1 H2 H3) as H.
  cbn zeta in H. destruct H as [(row & Ht & _ & _ & _ & Htext) Hfile].
  destruct (Hfile "a.txt" 10 "text/plain")
    as (row' & Ht' & _ & _ & _ & Hfile').
  split_and!; [exact H1 | exact H2 | exact H3 | |].
  - exists row. split; [exact Ht|]. rewrite Htext. cbn [snd].
    apply last_snoc.
  - exists row'. split; [exact Ht'|]. rewrite Hfile'. cbn [snd].
    apply last_snoc.
Defined.

Lemma status_transitions_witness :
  Store.calls (Machine.prisma Overlaps.ended_while_accepting) !! "0"
  = Some (CallRow.mk "0" video ended (Some 1) 0 (Some 1000) "alice" "bob")
  ∧ (∃ r',
       Store.calls
         (Machine.prisma
            (sched_step Demo.verify Overlaps.ended_while_accepting
               (commit 0)).1) !! "0" = Some r'
       ∧ (CallRow.status r' = ended ∨ CallRow.status r' = accepted))
  ∧ reachable Demo.verify Demo.talking
  ∧ Store.calls (prisma Demo.talking) !! "0"
    = Some (CallRow.set_status accepted (Call.row Demo.call0))
  ∧ ∃ r',
      Store.calls
        (prisma (step Demo.verify Demo.talking
                   (Receive Demo.sB (In.reject_call "0"))).1) !! "0"
      = Some r'
      ∧ (CallRow.status r' = accepted ∨ performed accepted (CallRow.status r')).
Proof.
  assert (H0 : Store.calls (Machine.prisma Overlaps.ended_while_accepting)
                 !! "0"
               = Some (CallRow.mk "0" video ended (Some 1) 0 (Some 1000)
                         "alice" "bob"))
    by (vm_compute; reflexivity).
  assert (H : Store.calls (prisma Demo.talking) !! "0"
              = Some (CallRow.set_status accepted (Call.row Demo.call0)))
    by (vm_compute; reflexivity).
  destruct (status_transitions Demo.verify) as (Hany & _ & Hserial).
  destruct (Hany Overlaps.ended_while_accepting (commit 0) "0" _ H0)
    as (r0 & Hrow0 & Hch).
  destruct (Hserial Demo.talking (Receive Demo.sB (In.reject_call "0")) "0" _
              DemoFacts.talking_reachable H) as (r' & Hrow & Hst & _).
  split_and!; [exact H0 | | exact DemoFacts.talking_reachable | exact H |].
  - exists r0. split; [exact Hrow0|].
    destruct Hch as [->|(n & h & data & Hl & Hn & _ & _ & Hs & _)];
      [left; reflexivity|].
    right. injection Hl as <-. vm_compute in Hn. injection Hn as <-.
    exact Hs.
  - exists r'. split; [exact Hrow | exact Hst].
Defined.

Lemma accept_call_effect_witness :
  let r := handle Demo.verify Demo.sB (In.accept_call "0") Demo.ringing in
  reachable Demo.verify Demo.ringing
  ∧ JsMap.get "0" (activeCalls Demo.ringing) = Some Demo.call0
  ∧ JsMap.get "0" (activeCalls r.1)
    = Some (Call.set_status accepted Demo.call0)
  ∧ CallRow.status <$> Store.calls (prisma r.1) !! "0" = Some accepted
  ∧ r.2 = [ServerTo "sA" (Out.call_accepted "0");
           ClientEmit "sB" (Out.call_accepted "0")].
Proof.
  assert (H : JsMap.get "0" (activeCalls Demo.ringing) = Some Demo.call0)
    by (vm_compute; reflexivity).
  pose proof (accept_call_effect Demo.verify Demo.sB "0" _ _
                DemoFacts.ringing_reachable H) as Hacc.
  cbn zeta in *. destruct Hacc as (Hget & Hrow & Hout).
  split_and!; [exact DemoFacts.ringing_reachable | exact H | | |].
  - rewrite Hget. reflexivity.
  - rewrite Hrow. reflexivity.
  - rewrite Hout. vm_compute. reflexivity.
Defined.

Lemma end_call_effect_witness :
  let r := handle Demo.verify Demo.sA (In.end_call "0") Demo.talked in
  reachable Demo.verify Demo.talked
  ∧ JsMap.get "0" (activeCalls Demo.talked)
    = Some (Call.set_status accepted Demo.call0)
  ∧ Store.calls (prisma r.1) !! "0"
    = Some (CallRow.mk "0" video ended (Some 30) 0 (Some 30500)
              "alice" "bob")
  ∧ r.2 = [ServerTo "sA" (Out.call_ended "0");
           ServerTo "sB" (Out.call_ended "0")]
  ∧ JsMap.get "0" (activeCalls r.1) = None.
Proof.
  assert (H : JsMap.get "0" (activeCalls Demo.talked)
              = Some (Call.set_status accepted Demo.call0))
    by (vm_compute; reflexivity).
  pose proof (end_call_effect Demo.verify Demo.sA "0" _ _
                DemoFacts.talked_reachable H) as Hend.
  cbn zeta in *. destruct Hend as (_ & _ & Hrow & Hout & Hgone & _).
  split_and!; [exact DemoFacts.talked_reachable | exact H | | | exact Hgone].
  - rewrite Hrow. vm_compute. reflexivity.
  - rewrite Hout. vm_compute. reflexivity.
Defined.


Lemma reattach_within_grace_witness :
  let r := run Demo.verify Demo.talking
             [Disconnect Demo.sA; Elapse 1000; Connect Demo.sA2;
              Elapse 5000] in
  reachable Demo.verify Demo.talking
  ∧ timers Demo.talking = []
  ∧ List.find (λ '(_, s), bool_decide (s = Socket.id Demo.sA))
      (JsMap.entries (connectedUsers Demo.talking))
    = Some ("alice", Socket.id Demo.sA)
  ∧ 0 ≤ 1000 < GRACE_MS
  ∧ Socket.token Demo.sA2 ≫= Demo.verify (clock Demo.talking + 1000)
    = Some "alice"
  ∧ Socket.id Demo.sA2 ≠ Socket.id Demo.sA
  ∧ JsMap.get "alice" (connectedUsers r.1) = Some "sA2"
  ∧ JsMap.get "0" (activeCalls r.1)
    = Some (Call.set_callerSocketId "sA2"
              (Call.set_status accepted Demo.call0))
  ∧ Forall (λ e, ∀ c, is_call_ended c e = false) r.2.
Proof.
  assert (H1 : timers Demo.talking = []) by (vm_compute; reflexivity).
  assert (H2 : List.find (λ '(_, s), bool_decide (s = Socket.id Demo.sA))
                 (JsMap.entries (connectedUsers Demo.talking))
               = Some ("alice", Socket.id Demo.sA))
    by (vm_compute; reflexivity).
  assert (H3 : 0 ≤ 1000 < GRACE_MS) by (unfold GRACE_MS; lia).
  assert (H4 : Socket.token Demo.sA2
                 ≫= Demo.verify (clock Demo.talking + 1000) = Some "alice")
    by (vm_compute; reflexivity).
  assert (H5 : Socket.id Demo.sA2 ≠ Socket.id Demo.sA) by discriminate.
  pose proof (reattach_within_grace Demo.verify Demo.sA Demo.sA2 "alice"
                1000 5000 _ DemoFacts.talking_reachable H1 H2 H3 H4 H5)
    as Hr.
  cbn zeta in *. destruct Hr as (Hu & _ & Hg & _ & _ & Ho).
  split_and!; [exact DemoFacts.talking_reachable | exact H1 | exact H2
              | exact (proj1 H3) | exact (proj2 H3) | exact H4 | exact H5
              | exact Hu | | exact Ho].
  rewrite Hg. vm_compute. reflexivity.
Defined.

(** * Further worked examples *)

Module ScenesFacts.

Lemma chatted_reachable : reachable Demo.verify Scenes.chatted.
Proof. apply reachable_run, DemoFacts.attached_reachable. Qed.

Lemma closing_reachable : reachable Demo.verify Scenes.closing.
Proof. apply reachable_step, DemoFacts.talking_reachable. Qed.

End ScenesFacts.


Lemma attach_last_writer_wins_witness :
  let r := run Demo.verify Demo.attached
             [Connect Demo.sA; Connect Demo.sA2] in
  reachable Demo.verify Demo.attached
  ∧ verify Demo.verify Demo.attached Demo.sA = Some "alice"
  ∧ verify Demo.verify Demo.attached Demo.sA2 = Some "alice"
  ∧ JsMap.get "alice" (connectedUsers r.1) = Some "sA2"
  ∧ bindings_of "alice" (connectedUsers r.1) = 1%nat
  ∧ JsMap.get "bob" (connectedUsers r.1) = Some "sB"
  ∧ "sA" ∈ sockets r.1.
Proof.
  assert (H1 : verify Demo.verify Demo.attached Demo.sA = Some "alice")
    by (vm_compute; reflexivity).
  assert (H2 : verify Demo.verify Demo.attached Demo.sA2 = Some "alice")
    by (vm_compute; reflexivity).
  pose proof (attach_last_writer_wins Demo.verify Demo.sA Demo.sA2 "alice"
                _ DemoFacts.attached_reachable H1 H2) as H.
  cbn zeta in *. destruct H as (Hg & Hb & Ho & Hs1 & _).
  split_and!; [exact DemoFacts.attached_reachable | exact H1 | exact H2
              | exact Hg | exact Hb | | exact Hs1].
  rewrite (Ho "bob") by discriminate. vm_compute. reflexivity.
Defined.

Lemma unauthorized_attach_witness :
  let r := step Demo.verify Demo.attached (Connect Scenes.sX) in
  verify Demo.verify Demo.attached Scenes.sX = None
  ∧ connectedUsers r.1 = connectedUsers Demo.attached
  ∧ ("sX" ∉ sockets r.1)
  ∧ r.2 = [].
Proof.
  assert (H1 : verify Demo.verify Demo.attached Scenes.sX = None)
    by (vm_compute; reflexivity).
  pose proof (unauthorized_attach Demo.verify Scenes.sX _ H1) as H.
  cbn zeta in *. destruct H as (Hu & _ & _ & _ & Hs & Ho).
  split_and!; [exact H1 | exact Hu | exact Hs | exact Ho].
Defined.

Lemma grace_period_keeps_state_witness :
  let r := run Demo.verify Demo.talking
             [Disconnect Demo.sA; Elapse 2999] in
  timers Demo.talking = []
  ∧ List.find (λ '(_, s), bool_decide (s = Socket.id Demo.sA))
      (JsMap.entries (connectedUsers Demo.talking))
    = Some ("alice", Socket.id Demo.sA)
  ∧ 0 ≤ 2999 < GRACE_MS
  ∧ activeCalls r.1 = activeCalls Demo.talking
  ∧ r.2 = []
  ∧ timers r.1 = [mkTimer 3000 "alice" "sA"]
  ∧ (handle Demo.verify Demo.sB (In.check_user_online "alice") r.1).2
    = [ClientEmit "sB" (Out.user_online_status "alice" true)].
Proof.
  assert (H1 : timers Demo.talking = []) by (vm_compute; reflexivity).
  assert (H2 : List.find (λ '(_, s), bool_decide (s = Socket.id Demo.sA))
                 (JsMap.entries (connectedUsers Demo.talking))
               = Some ("alice", Socket.id Demo.sA))
    by (vm_compute; reflexivity).
  assert (H3 : 0 ≤ 2999 < GRACE_MS) by (unfold GRACE_MS; lia).
  pose proof (grace_period_keeps_state Demo.verify Demo.sA Demo.sB "alice"
                2999 _ H1 H2 H3) as H.
  cbn zeta in *. destruct H as (_ & _ & Hc & _ & Ho & Ht & Hon).
  split_and!; [exact H1 | exact H2 | exact (proj1 H3) | exact (proj2 H3)
              | exact Hc | exact Ho | | exact Hon].
  rewrite Ht. vm_compute. reflexivity.
Defined.

Lemma unbound_socket_close_witness :
  let r := run Demo.verify Demo.talking
             [Disconnect Demo.sA2; Elapse 5000] in
  timers Demo.talking = []
  ∧ List.find (λ '(_, s), bool_decide (s = Socket.id Demo.sA2))
      (JsMap.entries (connectedUsers Demo.talking)) = None
  ∧ connectedUsers r.1 = connectedUsers Demo.talking
  ∧ activeCalls r.1 = activeCalls Demo.talking
  ∧ timers r.1 = []
  ∧ r.2 = [].
Proof.
  assert (H1 : timers Demo.talking = []) by (vm_compute; reflexivity).
  assert (H2 : List.find (λ '(_, s), bool_decide (s = Socket.id Demo.sA2))
                 (JsMap.entries (connectedUsers Demo.talking)) = None)
    by (vm_compute; reflexivity).
  pose proof (unbound_socket_close Demo.verify Demo.sA2 5000 _ H1 H2) as H.
  cbn zeta in *. destruct H as (Hu & _ & Hc & _ & Ht & _ & Ho).
  split_and!; [exact H1 | exact H2 | exact Hu | exact Hc | exact Ht
              | exact Ho].
Defined.

Lemma call_table_mirrors_store_witness :
  reachable Demo.verify Demo.ringing
  ∧ ("0", Demo.call0) ∈ activeCalls Demo.ringing
  ∧ Store.calls (prisma Demo.ringing) !! "0"
    = Some (CallRow.mk "0" video initiated None 0 None "alice" "bob")
  ∧ bindings_of "0" (activeCalls Demo.ringing) = 1%nat.
Proof.
  assert (H1 : ("0", Demo.call0) ∈ activeCalls Demo.ringing)
    by (vm_compute; left).
  pose proof (call_table_mirrors_store Demo.verify "0" Demo.call0 _
                DemoFacts.ringing_reachable H1) as H.
  destruct H as (Hr & _ & _ & _ & Hb).
  split_and!; [exact DemoFacts.ringing_reachable | exact H1 | exact Hr
              | exact Hb].
Defined.

Lemma call_row_identity_kept_witness :
  reachable Demo.verify Demo.talked
  ∧ Store.calls (prisma Demo.talked) !! "0"
    = Some (CallRow.mk "0" video accepted None 0 None "alice" "bob")
  ∧ ∃ r',
      Store.calls
        (prisma (step Demo.verify Demo.talked
                   (Receive Demo.sA (In.end_call "0"))).1) !! "0"
      = Some r'
      ∧ CallRow.callerId r' = "alice"
      ∧ CallRow.receiverId r' = "bob"
      ∧ CallRow.createdAt r' = 0.
Proof.
  assert (H1 : Store.calls (prisma Demo.talked) !! "0"
               = Some (CallRow.mk "0" video accepted None 0 None
                         "alice" "bob"))
    by (vm_compute; reflexivity).
  pose proof (call_row_identity_kept Demo.verify Demo.talked
                (Receive Demo.sA (In.end_call "0")) "0" _
                DemoFacts.talked_reachable H1) as H.
  destruct H as (r' & Hr & _ & _ & Hc & Hca & Hre & _).
  split_and!; [exact DemoFacts.talked_reachable | exact H1 |].
  exists r'. split_and!; [exact Hr | exact Hca | exact Hre | exact Hc].
Defined.

Lemma initiate_call_outcome_witness :
  reachable Demo.verify Demo.attached
  ∧ (let r := handle Demo.verify Demo.sA (In.initiate_call "bob" video)
                Demo.attached in
     ∃ call,
       activeCalls r.1 = activeCalls Demo.attached ++ [(Call.id call, call)]
       ∧ Call.callerSocketId call = "sA"
       ∧ Call.receiverSocketId call = "sB"
       ∧ Call.status call = initiated)
  ∧ verify Demo.verify Demo.attached Demo.sA = Some "alice"
  ∧ truthy_opt (JsMap.get "dave" (connectedUsers Demo.attached)) = false
  ∧ handle Demo.verify Demo.sA (In.initiate_call "dave" video) Demo.attached
    = (Demo.attached,
       [ClientEmit "sA" (Out.call_failed (Some "User is offline") None)]).
Proof.
  assert (H1 : verify Demo.verify Demo.attached Demo.sA = Some "alice")
    by (vm_compute; reflexivity).
  assert (H2 : truthy_opt (JsMap.get "dave" (connectedUsers Demo.attached))
               = false) by (vm_compute; reflexivity).
  pose proof (initiate_call_outcome Demo.verify Demo.sA "bob" video _
                DemoFacts.attached_reachable) as Hb.
  pose proof (initiate_call_outcome Demo.verify Demo.sA "dave" video _
                DemoFacts.attached_reachable) as Hd.
  cbn zeta in *. destruct Hb as [Hb _]. destruct Hd as [_ Hd].
  split_and!; [exact DemoFacts.attached_reachable | | exact H1 | exact H2
              | exact (Hd "alice" H1 H2)].
  destruct Hb as [[Hst _]|(callerId & rs & call & _ & Hget & _ & _ & Hrow
                           & Hcs & Hrs & Hcalls & _)].
  - apply (f_equal activeCalls) in Hst. vm_compute in Hst. discriminate.
  - exists call. split_and!; [exact Hcalls | exact Hcs | |].
    + rewrite Hrs. vm_compute in Hget. congruence.
    + unfold Call.status. by rewrite Hrow.
Defined.

Lemma accept_call_idempotent_witness :
  let once := handle Demo.verify Demo.sB (In.accept_call "0") Demo.ringing in
  let twice := handle Demo.verify Demo.sB (In.accept_call "0") once.1 in
  reachable Demo.verify Demo.ringing
  ∧ JsMap.get "0" (activeCalls Demo.ringing) = Some Demo.call0
  ∧ twice.1 = once.1
  ∧ twice.2 = once.2.
Proof.
  assert (H1 : JsMap.get "0" (activeCalls Demo.ringing) = Some Demo.call0)
    by (vm_compute; reflexivity).
  pose proof (accept_call_idempotent Demo.verify Demo.sB "0" _ _
                DemoFacts.ringing_reachable H1) as H.
  cbn zeta in *. destruct H as [Hs Ho].
  split_and!; [exact DemoFacts.ringing_reachable | exact H1 | exact Hs
              | exact Ho].
Defined.

Lemma reject_call_effect_witness :
  let r := handle Demo.verify Demo.sB (In.reject_call "0") Demo.talked in
  reachable Demo.verify Demo.talked
  ∧ JsMap.get "0" (activeCalls Demo.talked)
    = Some (Call.set_status accepted Demo.call0)
  ∧ Store.calls (prisma r.1) !! "0"
    = Some (CallRow.mk "0" video rejected None 0 (Some 30500)
              "alice" "bob")
  ∧ activeCalls r.1 = []
  ∧ r.2 = [ServerTo "sA" (Out.call_rejected "0")].
Proof.
  assert (H1 : JsMap.get "0" (activeCalls Demo.talked)
               = Some (Call.set_status accepted Demo.call0))
    by (vm_compute; reflexivity).
  pose proof (reject_call_effect Demo.verify Demo.sB "0" _ _
                DemoFacts.talked_reachable H1) as H.
  cbn zeta in *. destruct H as (Hrow & _ & Hc & Ho).
  split_and!; [exact DemoFacts.talked_reachable | exact H1 | | |].
  - rewrite Hrow. vm_compute. reflexivity.
  - rewrite Hc. vm_compute. reflexivity.
  - rewrite Ho. vm_compute. reflexivity.
Defined.

Lemma call_update_failure_witness :
  JsMap.get "0" (activeCalls Scenes.orphaned) = Some Demo.call0
  ∧ Store.calls (prisma Scenes.orphaned) !! "0" = None
  ∧ handle Demo.verify Demo.sB (In.accept_call "0") Scenes.orphaned
    = (Scenes.orphaned,
       [ClientEmit "sB"
          (Out.call_failed None (Some "Failed to accept call"))])
  ∧ handle Demo.verify Demo.sA (In.end_call "0") Scenes.orphaned
    = (Scenes.orphaned,
       [ClientEmit "sA"
          (Out.call_failed None (Some "Failed to end call"))]).
Proof.
  assert (H1 : JsMap.get "0" (activeCalls Scenes.orphaned)
               = Some Demo.call0) by (vm_compute; reflexivity).
  assert (H2 : Store.calls (prisma Scenes.orphaned) !! "0" = None)
    by (vm_compute; reflexivity).
  pose proof (call_update_failure Demo.verify Demo.sB "0" _ _ H1 H2)
    as (Ha & _ & _).
  pose proof (call_update_failure Demo.verify Demo.sA "0" _ _ H1 H2)
    as (_ & _ & He).
  split_and!; [exact H1 | exact H2 | exact Ha | exact He].
Defined.

Lemma unread_counts_reply_witness :
  verify Demo.verify Scenes.chatted Demo.sB = Some "bob"
  ∧ ∃ counts,
      counts !! "alice" = Some 2%nat
      ∧ counts !! "carol" = None
      ∧ (handle Demo.verify Demo.sB In.get_unread_counts Scenes.chatted).2
        = [ServerTo "sB" (Out.unread_counts counts)].
Proof.
  assert (H1 : verify Demo.verify Scenes.chatted Demo.sB = Some "bob")
    by (vm_compute; reflexivity).
  assert (Hg : JsMap.get "bob" (connectedUsers Scenes.chatted) = Some "sB")
    by (vm_compute; reflexivity).
  pose proof (unread_counts_reply Demo.verify Demo.sB "bob" _ H1) as H.
  cbn zeta in *. destruct H as (_ & counts & Hc & Ho).
  split; [exact H1|]. exists counts. split_and!.
  - rewrite Hc. vm_compute. reflexivity.
  - rewrite Hc. vm_compute. reflexivity.
  - rewrite Ho. unfold to_bound. rewrite Hg. reflexivity.
Defined.

Lemma mark_messages_read_effect_witness :
  let r := handle Demo.verify Demo.sB (In.mark_messages_read "alice")
             Scenes.chatted in
  verify Demo.verify Scenes.chatted Demo.sB = Some "bob"
  ∧ unread_count (prisma Scenes.chatted) "alice" "bob" = 2%nat
  ∧ unread_count (prisma r.1) "alice" "bob" = 0%nat
  ∧ unread_count (prisma r.1) "bob" "alice" = 1%nat
  ∧ ∃ counts,
      r.2 = [ServerTo "sB" (Out.unread_counts counts);
             ServerTo "sA" (Out.messages_marked_read "alice" "bob");
             ClientEmit "sB" (Out.messages_marked_read "alice" "bob")].
Proof.
  assert (H1 : verify Demo.verify Scenes.chatted Demo.sB = Some "bob")
    by (vm_compute; reflexivity).
  assert (Hb : JsMap.get "bob" (connectedUsers Scenes.chatted) = Some "sB")
    by (vm_compute; reflexivity).
  assert (Ha : JsMap.get "alice" (connectedUsers Scenes.chatted)
               = Some "sA") by (vm_compute; reflexivity).
  pose proof (mark_messages_read_effect Demo.verify Demo.sB "alice" "bob"
                _ H1) as H.
  cbn zeta in *.
  destruct H as (H0 & Hoth & _ & _ & _ & _ & counts & _ & Ho).
  split_and!; [exact H1 | vm_compute; reflexivity | exact H0 | |].
  - rewrite (Hoth "bob" "alice") by discriminate. vm_compute. reflexivity.
  - exists counts. rewrite Ho. unfold to_bound. rewrite Hb, Ha.
    reflexivity.
Defined.

Lemma set_active_chat_effect_witness :
  let r := handle Demo.verify Demo.sB (In.set_active_chat (Some "alice"))
             Scenes.chatted in
  let r0 := handle Demo.verify Demo.sB (In.set_active_chat None) r.1 in
  verify Demo.verify Scenes.chatted Demo.sB = Some "bob"
  ∧ truthy "alice" = true
  ∧ JsMap.get "bob" (userActiveChats r.1) = Some "alice"
  ∧ unread_count (prisma r.1) "alice" "bob" = 0%nat
  ∧ verify Demo.verify r.1 Demo.sB = Some "bob"
  ∧ truthy_opt None = false
  ∧ JsMap.get "bob" (userActiveChats r0.1) = None
  ∧ r0.2 = [].
Proof.
  assert (H1 : verify Demo.verify Scenes.chatted Demo.sB = Some "bob")
    by (vm_compute; reflexivity).
  assert (H2 : truthy "alice" = true) by reflexivity.
  assert (H3 : verify Demo.verify
                 (handle Demo.verify Demo.sB
                    (In.set_active_chat (Some "alice")) Scenes.chatted).1
                 Demo.sB = Some "bob")
    by (vm_compute; reflexivity).
  assert (H4 : truthy_opt None = false) by reflexivity.
  pose proof (set_active_chat_effect Demo.verify Demo.sB "bob" _ H1)
    as [Hset _].
  pose proof (set_active_chat_effect Demo.verify Demo.sB "bob" _ H3)
    as [_ Hclear].
  specialize (Hset "alice" H2). specialize (Hclear None H4).
  cbn zeta in *. destruct Hset as (Hg & _ & Hu & _).
  destruct Hclear as (Hg0 & _ & _ & Ho).
  split_and!; [exact H1 | exact H2 | exact Hg | exact Hu | exact H3
              | exact H4 | exact Hg0 | exact Ho].
Defined.

Lemma send_adds_one_unread_witness :
  let r := handle Demo.verify Demo.sA (In.send_message "bob" "hi")
             Demo.attached in
  verify Demo.verify Demo.attached Demo.sA = Some "alice"
  ∧ is_Some (Store.users (prisma Demo.attached) !! "alice")
  ∧ is_Some (Store.users (prisma Demo.attached) !! "bob")
  ∧ unread_count (prisma r.1) "alice" "bob" = 1%nat
  ∧ unread_count (prisma r.1) "bob" "alice" = 0%nat
  ∧ ∃ m, Store.messages (prisma r.1) = [m]
         ∧ Message.content m = "hi"
         ∧ Message.isRead m = false.
Proof.
  assert (H1 : verify Demo.verify Demo.attached Demo.sA = Some "alice")
    by (vm_compute; reflexivity).
  assert (H2 : is_Some (Store.users (prisma Demo.attached) !! "alice"))
    by (exists Demo.alice; vm_compute; reflexivity).
  assert (H3 : is_Some (Store.users (prisma Demo.attached) !! "bob"))
    by (exists Demo.bob; vm_compute; reflexivity).
  pose proof (send_adds_one_unread Demo.verify Demo.sA "bob" "hi" "alice"
                (In.send_message "bob" "hi") _ H1 H2 H3
                (or_introl eq_refl)) as H.
  cbn zeta in *.
  destruct H as ((m & Hm & Hc & _ & _ & Hr & _) & Hu & Hoth & _).
  split_and!; [exact H1 | exact H2 | exact H3 | | |].
  - rewrite Hu. vm_compute. reflexivity.
  - rewrite (Hoth "bob" "alice") by discriminate. vm_compute. reflexivity.
  - exists m. split_and!; [|exact Hc | exact Hr].
    rewrite Hm. vm_compute. reflexivity.
Defined.

Lemma send_failure_witness :
  verify Demo.verify Demo.attached Demo.sA = Some "alice"
  ∧ Store.users (prisma Demo.attached) !! "dave" = None
  ∧ handle Demo.verify Demo.sA (In.send_message "dave" "hi") Demo.attached
    = (Demo.attached,
       [ClientEmit "sA" (Out.error "Failed to send message")]).
Proof.
  assert (H1 : verify Demo.verify Demo.attached Demo.sA = Some "alice")
    by (vm_compute; reflexivity).
  assert (H2 : Store.users (prisma Demo.attached) !! "dave" = None)
    by (vm_compute; reflexivity).
  pose proof (send_failure Demo.verify Demo.sA "dave" "hi" "alice" _ H1
                (or_intror H2)) as [H _].
  split_and!; [exact H1 | exact H2 | exact H].
Defined.

Lemma get_messages_history_witness :
  verify Demo.verify Scenes.chatted Demo.sA = Some "alice"
  ∧ ∃ history,
      handle Demo.verify Demo.sA (In.get_messages "bob") Scenes.chatted
      = (Scenes.chatted,
         [ClientEmit "sA" (Out.messages_history history)])
      ∧ StronglySorted created_le (Message.msg <$> history)
      ∧ ∃ f, f ∈ history
             ∧ Message.content (Message.msg f) = "yo"
             ∧ Message.sender f = Demo.bob.
Proof.
  assert (H1 : verify Demo.verify Scenes.chatted Demo.sA = Some "alice")
    by (vm_compute; reflexivity).
  pose proof (get_messages_history Demo.verify Demo.sA "bob" "alice" _ H1)
    as (history & Hh & Hs & Hsound & Hcomplete).
  split; [exact H1|]. exists history. split_and!; [exact Hh | exact Hs |].
  assert (Hm : ∃ m, m ∈ Store.messages (prisma Scenes.chatted)
                    ∧ Message.content m = "yo"
                    ∧ Message.senderId m = "bob"
                    ∧ Message.receiverId m = "alice").
  { vm_compute. eexists. split; [right; left|]. done. }
  destruct Hm as (m & Hin & Hc & Hsd & Hrc).
  destruct (Hcomplete m Hin) as (f & Hf & Hfm).
  - unfold Prisma.between. rewrite Hsd, Hrc. vm_compute. reflexivity.
  - rewrite Hsd. exists Demo.bob. vm_compute. reflexivity.
  - rewrite Hrc. exists Demo.alice. vm_compute. reflexivity.
  - exists f. split_and!; [exact Hf | by rewrite Hfm |].
    destruct (Hsound f Hf) as (_ & _ & Hsender & _).
    assert (Hb : Store.users (prisma Scenes.chatted) !! "bob"
                 = Some Demo.bob) by (vm_compute; reflexivity).
    rewrite Hfm, Hsd, Hb in Hsender. congruence.
Defined.

Lemma timers_in_order_witness :
  reachable Demo.verify Scenes.closing
  ∧ timers Scenes.closing = [mkTimer 3000 "alice" "sA"]
  ∧ timers_pending Scenes.closing.
Proof.
  split_and!; [exact ScenesFacts.closing_reachable
              | vm_compute; reflexivity |].
  exact (timers_in_order Demo.verify _ ScenesFacts.closing_reachable).
Defined.

Lemma file_relay_during_grace_witness :
  let st' := (run Demo.verify Demo.attached
                [Disconnect Demo.sB; Elapse 1000]).1 in
  timers Demo.attached = []
  ∧ 0 ≤ 1000 < GRACE_MS
  ∧ JsMap.get "bob" (connectedUsers Demo.attached)
    = Some (Socket.id Demo.sB)
  ∧ truthy (Socket.id Demo.sB) = true
  ∧ verify Demo.verify st' Demo.sA = Some "alice"
  ∧ ("sB" ∉ sockets st')
  ∧ (handle Demo.verify Demo.sA (In.file_webrtc_offer "bob" "sdp") st').2
    = [ServerTo "sB" (Out.file_webrtc_offer "alice" "sdp")].
Proof.
  assert (H1 : timers Demo.attached = []) by (vm_compute; reflexivity).
  assert (H2 : 0 ≤ 1000 < GRACE_MS) by (unfold GRACE_MS; lia).
  assert (H3 : JsMap.get "bob" (connectedUsers Demo.attached)
               = Some (Socket.id Demo.sB)) by (vm_compute; reflexivity).
  assert (H4 : truthy (Socket.id Demo.sB) = true) by reflexivity.
  assert (H5 : verify Demo.verify
                 (run Demo.verify Demo.attached
                    [Disconnect Demo.sB; Elapse 1000]).1 Demo.sA
               = Some "alice") by (vm_compute; reflexivity).
  pose proof (file_relay_during_grace Demo.verify Demo.sA Demo.sB "bob"
                "sdp" "alice" 1000 _ H1 H2 H3 H4 H5) as H.
  cbn zeta in *. destruct H as (Hs & Ho & _).
  split_and!; [exact H1 | exact (proj1 H2) | exact (proj2 H2) | exact H3
              | exact H4 | exact H5 | exact Hs |].
  rewrite Ho. reflexivity.
Defined.

(** * Overlapping handlers at concrete schedules *)

Module OverlapsFacts.

Lemma ringing_sched_reachable : sched_reachable Demo.verify Overlaps.ringing.
Proof. apply sched_reachable_run. constructor. Qed.

Lemma ended_while_accepting_sched_reachable :
  sched_reachable Demo.verify Overlaps.ended_while_accepting.
Proof. apply sched_reachable_run, ringing_sched_reachable. Qed.

Lemma accepted_after_end_sched_reachable :
  sched_reachable Demo.verify Overlaps.accepted_after_end.
Proof. apply sched_reachable_run, ended_while_accepting_sched_reachable. Qed.

End OverlapsFacts.

(** With one handler at a time the machine and [run] agree: setting up
    the call, and the teardown followed by a late [end_call]. *)
Example one_at_a_time_agrees :
  let serial :=
    sched_run Demo.verify Overlaps.ringing Overlaps.end_after_teardown in
  let atomic :=
    run Demo.verify Demo.ringing
      [Disconnect Demo.sA; Elapse 3000;
       Receive Demo.sB (In.end_call "0")] in
  view Overlaps.ringing = Demo.ringing
  ∧ Machine.pending Overlaps.ringing = []
  ∧ view serial.1 = atomic.1
  ∧ Machine.pending serial.1 = []
  ∧ serial.2 = atomic.2.
Proof. vm_compute. done. Qed.

(** An ended record is written again: Alice's [end_call] has ended call
    "0" and removed it, while Bob's [accept_call], which found the call
    in [activeCalls] before, is still awaiting the store. When the store
    runs his update the record goes from ended to accepted, and when his
    handler goes on the call is back in [activeCalls], accepted, with a
    record that has an end time and a duration. *)
Example ended_then_accepted_on_overlap :
  let written :=
    (sched_step Demo.verify Overlaps.ended_while_accepting (commit 0)).1 in
  Store.calls (Machine.prisma Overlaps.ended_while_accepting) !! "0"
  = Some (CallRow.mk "0" video ended (Some 1) 0 (Some 1000) "alice" "bob")
  ∧ MapData.get "0" (Machine.activeCalls Overlaps.ended_while_accepting)
    = None
  ∧ Store.calls (Machine.prisma written) !! "0"
    = Some (CallRow.mk "0" video accepted (Some 1) 0 (Some 1000)
              "alice" "bob")
  ∧ Call.row <$> JsMap.get "0" (activeCalls (view Overlaps.accepted_after_end))
    = Some (CallRow.mk "0" video accepted None 0 None "alice" "bob")
  ∧ Store.calls (Machine.prisma Overlaps.accepted_after_end) !! "0"
    = Some (CallRow.mk "0" video accepted (Some 1) 0 (Some 1000)
              "alice" "bob").
Proof. vm_compute. done. Qed.


Lemma entries_grounded_under_any_schedule_witness :
  sched_reachable Demo.verify Overlaps.accepted_after_end
  ∧ MapData.get "0" (Machine.activeCalls Overlaps.accepted_after_end)
    = Some 1%nat
  ∧ ∃ object row,
      Machine.objects Overlaps.accepted_after_end !! 1%nat = Some object
      ∧ Call.id object = "0"
      ∧ active_status (Call.status object)
      ∧ Store.calls (Machine.prisma Overlaps.accepted_after_end) !! "0"
        = Some row
      ∧ same_call (Call.row object) row.
Proof.
  assert (H1 : MapData.get "0"
                 (Machine.activeCalls Overlaps.accepted_after_end)
               = Some 1%nat) by (vm_compute; reflexivity).
  split_and!; [exact OverlapsFacts.accepted_after_end_sched_reachable | exact H1 |].
  exact (entries_grounded_under_any_schedule Demo.verify _ "0" 1%nat
           OverlapsFacts.accepted_after_end_sched_reachable H1).
Defined.
